(** * Hierarchy reconstruction engine of ddc-automation

    A shallow embedding of the two brute-force hierarchy scripts

      - [fix_hierarchy_bruteforce_ranges.py]         (schedules, module [Schedules])
      - [fix_hierarchy_bruteforce_ranges_tables.py]  (tables,    module [Tables])

    followed by the properties of the engine that are checked against them.

    Modelling conventions.
    - A Python [str] is a [string].  The codes of the classification are
      ASCII text, and the character classes below ([isdigit], the digits and
      the blanks that [int] accepts, the [\d] class of the id pattern) are
      the ASCII ones: on a string that satisfies [ascii_only] they are the
      classes of Python, while Python also takes the decimal digits and the
      blanks of other scripts.  A statement that says which strings a class
      does not hold is therefore made for [ascii_only] strings.
    - A JSON document is a [json] value; a Python [dict] is an association
      list in insertion order whose assignment [d[k] = v] overwrites in place
      or appends.  Numbers are kept as integers: the scripts only ever test a
      number for being zero.
    - A Python [set] of strings is a duplicate-free list; only membership is
      ever observed, because every set that reaches the output goes through
      [sorted].
    - The entries of a file are shared between the list read from the file
      and the code index: the index therefore stores positions into the entry
      list, and the assignment loop updates the list through them.
    - An uncaught Python exception is the result [None].
    - [process_file] is followed from the decoded content of the file to
      the list that is handed to [json.dumps]: [Written out] says that the
      script reaches its last step with [out].  Reading the file, the report
      lines, the file names and the last step itself, which raises
      [UnicodeEncodeError] when a string of the file holds a lone surrogate,
      are left out.
    - The index of [build_indices] is kept for string codes.  A code that is
      true for Python and is not a string ends [process_file] with a
      [TypeError], in [build_indices] itself when it cannot be hashed and at
      the first ['-' in c] otherwise; the model raises in [build_indices]
      in both cases. *)

From Stdlib Require Import Strings.String Strings.Ascii List ZArith Lia Bool Arith.
From Stdlib Require Import Sorting.Sorted Sorting.Permutation.
Import ListNotations.
Open Scope string_scope.

(* ===================================================================== *)
(** ** Python strings *)
(* ===================================================================== *)

(** [sub in s] *)
Fixpoint str_in (sub s : string) : bool :=
  String.prefix sub s ||
  match s with
  | EmptyString => false
  | String _ rest => str_in sub rest
  end.

(** [s[n:]] *)
Fixpoint str_drop (n : nat) (s : string) : string :=
  match n, s with
  | O, _ => s
  | S k, EmptyString => EmptyString
  | S k, String _ rest => str_drop k rest
  end.

(** [s[:n]] *)
Fixpoint str_take (n : nat) (s : string) : string :=
  match n, s with
  | O, _ => EmptyString
  | S k, EmptyString => EmptyString
  | S k, String a rest => String a (str_take k rest)
  end.

(** [s.split(c)] for a one-character separator. *)
Fixpoint split_char (c : ascii) (s : string) : list string :=
  match s with
  | EmptyString => [EmptyString]
  | String a rest =>
      if Ascii.eqb a c then EmptyString :: split_char c rest
      else match split_char c rest with
           | x :: xs => String a x :: xs
           | [] => [String a EmptyString]
           end
  end.

(** [s.split('--')]: leftmost, non-overlapping occurrences. *)
Fixpoint split_dd (s : string) : list string :=
  match s with
  | EmptyString => [EmptyString]
  | String a rest =>
      match a, rest with
      | "-"%char, String "-"%char rest' => EmptyString :: split_dd rest'
      | _, _ => match split_dd rest with
                | x :: xs => String a x :: xs
                | [] => [String a EmptyString]
                end
      end
  end.

(** [s.split(c, 1)] *)
Fixpoint split1 (c : ascii) (s : string) : list string :=
  match s with
  | EmptyString => [EmptyString]
  | String a rest =>
      if Ascii.eqb a c then [EmptyString; rest]
      else match split1 c rest with
           | x :: xs => String a x :: xs
           | [] => [String a EmptyString]
           end
  end.

(** [s.rsplit(c, 1)] *)
Fixpoint rsplit1 (c : ascii) (s : string) : list string :=
  match s with
  | EmptyString => [EmptyString]
  | String a rest =>
      match rsplit1 c rest with
      | [x] => if Ascii.eqb a c then [EmptyString; x] else [String a x]
      | p :: t => String a p :: t
      | [] => [String a EmptyString]
      end
  end.

(** [sep.join(parts)] *)
Definition join (sep : string) (parts : list string) : string :=
  String.concat sep parts.

(** [s.startswith(p)] *)
Definition startswith (s p : string) : bool := String.prefix p s.

(** [s.lstrip('-')] *)
Fixpoint lstrip_dash (s : string) : string :=
  match s with
  | String "-"%char rest => lstrip_dash rest
  | _ => s
  end.

(** The digits 0 to 9, which are the decimal digits of ASCII. *)
Definition is_digit (a : ascii) : bool :=
  ((48 <=? nat_of_ascii a) && (nat_of_ascii a <=? 57))%nat.

Definition digit_value (a : ascii) : Z := Z.of_nat (nat_of_ascii a - 48).

Fixpoint all_digits (s : string) : bool :=
  match s with
  | EmptyString => true
  | String a rest => is_digit a && all_digits rest
  end.

(** [s.isdigit()] on ASCII text: at least one character, all of them
    digits. *)
Definition isdigit (s : string) : bool :=
  match s with
  | EmptyString => false
  | _ => all_digits s
  end.

(** Truth value of a string: [bool(s)]. *)
Definition nonempty (s : string) : bool :=
  match s with
  | EmptyString => false
  | _ => true
  end.

(** *** [int(s)] on ASCII text

    Surrounding whitespace is dropped, one sign is allowed, the digits may be
    grouped by single underscores, and a literal of more than
    [int_max_str_digits] digits is refused.  [None] is [ValueError].  The
    blanks are the six that [int] drops in ASCII: tab, line feed, vertical
    tab, form feed, carriage return and space. *)

Definition is_space (a : ascii) : bool :=
  let n := nat_of_ascii a in
  (((9 <=? n) && (n <=? 13)) || (n =? 32))%nat.

Fixpoint drop_spaces (l : list ascii) : list ascii :=
  match l with
  | a :: rest => if is_space a then drop_spaces rest else l
  | [] => []
  end.

Definition strip_spaces (l : list ascii) : list ascii :=
  rev (drop_spaces (rev (drop_spaces l))).

Fixpoint digits_value (acc : Z) (after_underscore : bool) (l : list ascii)
  : option Z :=
  match l with
  | [] => if after_underscore then None else Some acc
  | a :: rest =>
      if is_digit a then digits_value (10 * acc + digit_value a) false rest
      else if Ascii.eqb a "_" && negb after_underscore
           then digits_value acc true rest
           else None
  end.

Definition int_max_str_digits : nat := 4300.

Definition unsigned_int (l : list ascii) : option Z :=
  if (int_max_str_digits <? List.length (filter is_digit l))%nat then None
  else digits_value 0 true l.

Definition py_int (s : string) : option Z :=
  match strip_spaces (list_ascii_of_string s) with
  | "+"%char :: body => unsigned_int body
  | "-"%char :: body => option_map Z.opp (unsigned_int body)
  | body => unsigned_int body
  end.

(** *** [sorted] on strings: ascending in the code-point order. *)

Fixpoint insert_sorted (x : string) (l : list string) : list string :=
  match l with
  | [] => [x]
  | y :: rest => if String.leb x y then x :: l else y :: insert_sorted x rest
  end.

Definition sorted (l : list string) : list string :=
  fold_right insert_sorted [] l.

(** Strictly before, in the order [sorted] uses. *)
Definition code_lt (a b : string) : Prop := String.ltb a b = true.

(* ===================================================================== *)
(** ** Python sets of strings and dictionaries *)
(* ===================================================================== *)

Definition mem (x : string) (s : list string) : bool :=
  existsb (String.eqb x) s.

(** [s.add(x)] *)
Definition set_add (x : string) (s : list string) : list string :=
  if mem x s then s else (s ++ [x])%list.

(** [s.update(kids)] *)
Definition set_update (kids s : list string) : list string :=
  fold_left (fun acc k => set_add k acc) kids s.

Section Dict.
Context {V : Type}.

(** [d.get(k)] *)
Fixpoint dict_get (k : string) (d : list (string * V)) : option V :=
  match d with
  | [] => None
  | (k', v) :: rest => if String.eqb k k' then Some v else dict_get k rest
  end.

(** [d[k] = v] *)
Fixpoint dict_set (k : string) (v : V) (d : list (string * V))
  : list (string * V) :=
  match d with
  | [] => [(k, v)]
  | (k', v') :: rest =>
      if String.eqb k k' then (k', v) :: rest
      else (k', v') :: dict_set k v rest
  end.

(** In-place change of the value stored under [k], as in
    [d[k].add(x)]; the key is present wherever the engine does this. *)
Fixpoint dict_alter (f : V -> V) (k : string) (d : list (string * V))
  : list (string * V) :=
  match d with
  | [] => []
  | (k', v') :: rest =>
      if String.eqb k k' then (k', f v') :: rest
      else (k', v') :: dict_alter f k rest
  end.

(** [k in d] *)
Definition dict_has (k : string) (d : list (string * V)) : bool :=
  match dict_get k d with Some _ => true | None => false end.

(** [{c: v for c in keys}] *)
Definition dict_init (v : V) (keys : list string) : list (string * V) :=
  fold_left (fun d c => dict_set c v d) keys [].
End Dict.

(** [m.get(k, [])] on a map of sets. *)
Definition kids_of (k : string) (m : list (string * list string))
  : list string :=
  match dict_get k m with
  | Some s => s
  | None => []
  end.

(* ===================================================================== *)
(** ** JSON values and entries *)
(* ===================================================================== *)

#[warnings="-register-all"]
Inductive json : Type :=
| JNull
| JBool (b : bool)
| JNum (n : Z)
| JStr (s : string)
| JArr (items : list json)
| JObj (fields : list (string * json)).

Definition dict := list (string * json).

(** Truth value of a loaded JSON value. *)
Definition truthy (v : json) : bool :=
  match v with
  | JNull => false
  | JBool b => b
  | JNum n => negb (Z.eqb n 0)
  | JStr s => nonempty s
  | JArr items => match items with [] => false | _ => true end
  | JObj fields => match fields with [] => false | _ => true end
  end.

(** A list of strings as a JSON array, and [None] as [null]. *)
Definition json_strs (l : list string) : json := JArr (map JStr l).

Definition json_opt (o : option string) : json :=
  match o with
  | Some s => JStr s
  | None => JNull
  end.

(** [entry.get(k) or default] *)
Definition get_or (k : string) (default : json) (entry : dict) : json :=
  match dict_get k entry with
  | Some v => if truthy v then v else default
  | None => default
  end.

(* ===================================================================== *)
(** ** The code index and the assignment loop

    Both scripts build the index with the same [build_indices] and write the
    hierarchy back with the same pair of nested loops; they differ in
    [extract_code] and in how one entry is written. *)
(* ===================================================================== *)

(** [code_to_entries]: code to the positions of its entries. *)
Definition index := list (string * list nat).

(** [code_to_entries.setdefault(code, []).append(e)] *)
Definition index_append (code : string) (i : nat) (idx : index) : index :=
  if dict_has code idx then dict_alter (fun ents => (ents ++ [i])%list) code idx
  else dict_set code [i] idx.

Definition keep (e : json) (r : option (list json * index))
  : option (list json * index) :=
  match r with
  | Some (es, idx) => Some (e :: es, idx)
  | None => None
  end.

Section Index.
Variable extract_code : dict -> option json.

(** The loop of [build_indices], [i] being the position of the first entry
    left.  A code that is truthy and not a string is refused here: a list or
    an object cannot be a dictionary key, and a number or [true] makes the
    first ['-' in c] of [process_file] raise; in both cases [process_file]
    ends with an uncaught [TypeError]. *)
Fixpoint build_from (i : nat) (entries : list json) (idx : index)
  : option (list json * index) :=
  match entries with
  | [] => Some ([], idx)
  | JObj e :: rest =>
      match extract_code e with
      | None => None
      | Some code =>
          let e' := JObj (dict_set "bfCode" code e) in
          if truthy code then
            match code with
            | JStr c => keep e' (build_from (S i) rest (index_append c i idx))
            | _ => None
            end
          else keep e' (build_from (S i) rest idx)
      end
  | e :: rest => keep e (build_from (S i) rest idx)
  end.

Definition build_indices_with (entries : list json)
  : option (list json * index) :=
  build_from 0 entries [].

(** The code an entry is indexed under: a non-empty string. *)
Definition code_at (e : json) : option string :=
  match e with
  | JObj fields =>
      match extract_code fields with
      | Some (JStr c) => if nonempty c then Some c else None
      | _ => None
      end
  | _ => None
  end.

(** An entry as [build_indices] leaves it. *)
Definition marked (e : json) : json :=
  match e with
  | JObj fields =>
      match extract_code fields with
      | Some code => JObj (dict_set "bfCode" code fields)
      | None => e
      end
  | _ => e
  end.

(** All that [build_indices] looks at in an entry. *)
Definition code_view (e : json) : option (option json) :=
  match e with
  | JObj fields => Some (extract_code fields)
  | _ => None
  end.
End Index.

(** Position [p] is listed under [code] in the index. *)
Definition owns (idx : index) (code : string) (p : nat) : Prop :=
  exists ents, In (code, ents) idx /\ In p ents.

Definition positions (code : string) (idx : index) : list nat :=
  match dict_get code idx with
  | Some ents => ents
  | None => []
  end.

(** [e = f(e)] for the entry at position [i]. *)
Fixpoint update_at (f : json -> option json) (i : nat) (es : list json)
  : option (list json) :=
  match es, i with
  | [], _ => Some []
  | e :: rest, O =>
      match f e with
      | Some e' => Some (e' :: rest)
      | None => None
      end
  | e :: rest, S j =>
      match update_at f j rest with
      | Some rest' => Some (e :: rest')
      | None => None
      end
  end.

(** [for e in ents: f(e)] *)
Fixpoint for_each (f : json -> option json) (ents : list nat) (es : list json)
  : option (list json) :=
  match ents with
  | [] => Some es
  | i :: rest =>
      match update_at f i es with
      | Some es' => for_each f rest es'
      | None => None
      end
  end.

(** [for code, ents in code_to_entries.items(): for e in ents: write(code, e)] *)
Fixpoint assign (write : string -> json -> option json) (idx : index)
  (es : list json) : option (list json) :=
  match idx with
  | [] => Some es
  | (code, ents) :: rest =>
      match for_each (write code) ents es with
      | Some es' => assign write rest es'
      | None => None
      end
  end.

(** [for i in range(n, 0, -1)] *)
Fixpoint countdown (n : nat) : list nat :=
  match n with
  | O => []
  | S k => n :: countdown k
  end.

(** The first candidate that is in the set, as in
    [for cand in ...: if cand in simple_set: return cand] followed by
    [return None]. *)
Fixpoint first_in (cands simple_set : list string) : option string :=
  match cands with
  | [] => None
  | cand :: rest =>
      if mem cand simple_set then Some cand else first_in rest simple_set
  end.

(** What [process_file] does with a decoded file. *)
Inductive outcome : Type :=
| Written (entries : list json)
| RootNotList
| Uncaught.

(* ===================================================================== *)
(** ** Schedules: [fix_hierarchy_bruteforce_ranges.py] *)
(* ===================================================================== *)

Module Schedules.

Definition lower (a : ascii) : ascii :=
  let n := nat_of_ascii a in
  if ((65 <=? n) && (n <=? 90))%nat then ascii_of_nat (n + 32) else a.

(** Case-insensitive match of a lower-case literal at the start of [s];
    the rest of [s] on success. *)
Fixpoint match_literal (lit s : string) : option string :=
  match lit, s with
  | EmptyString, _ => Some s
  | String p lit', String a s' =>
      if Ascii.eqb (lower a) p then match_literal lit' s' else None
  | String _ _, EmptyString => None
  end.

Fixpoint skip_digits (s : string) : string :=
  match s with
  | String a rest => if is_digit a then skip_digits rest else s
  | EmptyString => s
  end.

(** The longest prefix without a line feed: what a greedy [.+] consumes. *)
Fixpoint line_head (s : string) : string :=
  match s with
  | String a rest =>
      if Ascii.eqb a "010" then EmptyString else String a (line_head rest)
  | EmptyString => EmptyString
  end.

(** [ID_CODE_RE.match(idv)] with [ID_CODE_RE = ^Volume\d+-(.+)$], ignoring
    case, on ASCII text: group 1 of the match, if there is one.  [\d+]
    takes every digit that follows [Volume], [.+] takes the rest of the
    line, and [$] accepts the end of the string or one final line feed. *)
Definition id_code_match (idv : string) : option string :=
  match match_literal "volume" idv with
  | Some (String a _ as digits) =>
      if is_digit a then
        match skip_digits digits with
        | String "-"%char rest =>
            let code := line_head rest in
            let tail := str_drop (String.length code) rest in
            if nonempty code
               && (String.eqb tail "" || String.eqb tail (String "010" ""))
            then Some code else None
        | _ => None
        end
      else None
  | _ => None
  end.

Definition extract_code (entry : dict) : option json :=
  match get_or "id" (JStr "") entry with
  | JStr idv =>
      match id_code_match idv with
      | None => Some (get_or "notation" (JStr "") entry)
      | Some code => Some (JStr code)
      end
  | _ => None
  end.

Definition split_range (code : string) : option (string * string) :=
  if negb (str_in "-" code) then None
  else match split_char "-" code with
       | [l; r] => Some (l, r)
       | _ => None
       end.

Definition build_indices (entries : list json) : option (list json * index) :=
  build_indices_with extract_code entries.

Definition immediate_children_simple (codes : list string)
  : list (string * list string) :=
  fold_left
    (fun children c =>
       if str_in "-" c then children
       else
         let prefix := c ++ "." in
         let plen := String.length prefix in
         fold_left
           (fun children d =>
              if startswith d prefix && negb (str_in "-" d) then
                let remainder := str_drop plen d in
                if nonempty remainder && negb (str_in "." remainder)
                then dict_alter (set_add d) c children
                else children
              else children)
           codes children)
    codes (dict_init [] codes).

Definition in_span (l v r : Z) : bool := (l <=? v)%Z && (v <=? r)%Z.

Definition expand_range_children (range_code : string)
  (simple_codes : list string) : list string :=
  match split_range range_code with
  | None => []
  | Some (left_, right_) =>
      if negb (str_in "." left_) && negb (str_in "." right_) then
        match py_int left_, py_int right_ with
        | Some l, Some r =>
            fold_left
              (fun res sc =>
                 if str_in "-" sc then res
                 else if str_in "." sc then res
                 else match py_int sc with
                      | None => res
                      | Some v => if in_span l v r then set_add sc res else res
                      end)
              simple_codes []
        | _, _ => []
        end
      else if str_in "." left_ && str_in "." right_ then
        match rsplit1 "." left_, rsplit1 "." right_ with
        | [lpref; ltail], [rpref; rtail] =>
            if negb (String.eqb lpref rpref) then []
            else
              match py_int ltail, py_int rtail with
              | Some li, Some ri =>
                  let target_prefix := lpref ++ "." in
                  fold_left
                    (fun res sc =>
                       if negb (startswith sc target_prefix) then res
                       else if str_in "-" sc then res
                       else
                         let rest :=
                           str_drop (String.length target_prefix) sc in
                         if negb (nonempty rest) || str_in "." rest then res
                         else match py_int rest with
                              | None => res
                              | Some vi =>
                                  if in_span li vi ri then set_add sc res
                                  else res
                              end)
                    simple_codes []
              | _, _ => []
              end
        | _, _ => []
        end
      else []
  end.

(** The dotted attempt at the top of the range branch of [compute_broader];
    [None] when control falls through to the second attempt. *)
Definition dotted_truncation (code : string) (simple_set : list string)
  : option string :=
  if str_in "." code then
    match split_range code with
    | Some (left_, _) =>
        if nonempty left_ && str_in "." left_ then
          let parent := hd "" (rsplit1 "." left_) in
          if mem parent simple_set then Some parent else None
        else None
    | None => None
    end
  else None.

Definition compute_broader (code : string) (simple_set : list string)
  : option string :=
  if str_in "-" code then
    match dotted_truncation code simple_set with
    | Some parent => Some parent
    | None =>
        match split_range code with
        | Some (left_, _) =>
            if nonempty left_ && mem left_ simple_set then Some left_ else None
        | None => None
        end
    end
  else if negb (str_in "." code) then None
  else
    let parts := split_char "." code in
    first_in
      (map (fun i => join "." (firstn i parts))
           (countdown (List.length parts - 1)))
      simple_set.

Definition range_parent (code : string) (simple_set : list string)
  : option string :=
  if negb (str_in "-" code) then None
  else
    match split_range code with
    | None => None
    | Some (left_, _) =>
        if str_in "." left_ then
          let base_root := hd "" (split1 "." left_) in
          if mem base_root simple_set then Some base_root else None
        else if mem left_ simple_set then Some left_ else None
    end.

(** [tail.replace('0', '')] *)
Fixpoint remove_zeros (s : string) : string :=
  match s with
  | EmptyString => EmptyString
  | String a rest =>
      if Ascii.eqb a "0" then remove_zeros rest
      else String a (remove_zeros rest)
  end.

(** [numeric_value_for]: the pair (prefix, numeric tail) of a code; no
    function of the script calls it. *)
Definition numeric_value_for (code : string) : option (string * string) :=
  if str_in "-" code then None
  else if negb (str_in "." code) then Some (code, code)
  else
    let parts := split_char "." code in
    let prefix := join "." (removelast parts) in
    let tail := last parts "" in
    if negb (isdigit (remove_zeros tail)) && negb (isdigit tail) then None
    else Some (prefix, tail).

(** The test of the inner loop of [immediate_children_simple], for a
    parent [c] that passed the outer test. *)
Definition immediate_child (c d : string) : bool :=
  negb (str_in "-" c)
  && (startswith d (c ++ ".") && negb (str_in "-" d))
  && (let remainder := str_drop (String.length (c ++ ".")) d in
      nonempty remainder && negb (str_in "." remainder)).

(** [{c for c in codes if '-' not in c}] *)
Definition simple_of (codes : list string) : list string :=
  filter (fun c => negb (str_in "-" c)) codes.

(** [{c for c in codes if '-' in c}] *)
Definition ranges_of (codes : list string) : list string :=
  filter (fun c => str_in "-" c) codes.

(** [child_map] of [process_file]: the immediate children, the codes each
    range covers, and each range under its [range_parent]. *)
Definition build_child_map (codes : list string)
  : list (string * list string) :=
  let simple_codes := simple_of codes in
  let range_codes := ranges_of codes in
  let simple_child_map := immediate_children_simple codes in
  let range_children :=
    fold_left
      (fun m rc => dict_set rc (expand_range_children rc simple_codes) m)
      range_codes [] in
  let child_map := dict_init [] codes in
  let child_map :=
    fold_left (fun m ck => dict_alter (set_update (snd ck)) (fst ck) m)
              simple_child_map child_map in
  let child_map :=
    fold_left (fun m rk => dict_alter (set_update (snd rk)) (fst rk) m)
              range_children child_map in
  fold_left
    (fun m rc =>
       match range_parent rc simple_codes with
       | Some parent =>
           if nonempty parent then dict_alter (set_add rc) parent m else m
       | None => m
       end)
    range_codes child_map.

(** [broader_map] of [process_file]. *)
Definition build_broader_map (codes : list string)
  : list (string * option string) :=
  let simple_set := simple_of codes in
  fold_left (fun m c => dict_set c (compute_broader c simple_set) m) codes [].

(** [broader_map.get(code)] *)
Definition broader_of (codes : list string) (code : string) : option string :=
  match dict_get code (build_broader_map codes) with
  | Some b => b
  | None => None
  end.

(** [sorted(child_map.get(code, []))] *)
Definition narrower_of (codes : list string) (code : string) : list string :=
  sorted (kids_of code (build_child_map codes)).

Definition hierarchy (broader : option string) (narrower : list string)
  : json :=
  JObj [("broader", json_opt broader); ("narrower", json_strs narrower)].

(** [e['hierarchy'] = {'broader': broader, 'narrower': narrower_sorted}] *)
Definition write_hierarchy (codes : list string) (code : string) (e : json)
  : option json :=
  match e with
  | JObj fields =>
      Some (JObj (dict_set "hierarchy"
                    (hierarchy (broader_of codes code) (narrower_of codes code))
                    fields))
  | _ => Some e
  end.

(** [process_file] from the decoded list of entries on. *)
Definition process_entries (entries : list json) : option (list json) :=
  match build_indices entries with
  | None => None
  | Some (es, code_to_entries) =>
      let codes := map fst code_to_entries in
      assign (write_hierarchy codes) code_to_entries es
  end.

(** [process_file], given the decoded content of the file, up to the call
    of [json.dumps]: the list in [Written] is the one that is serialised
    into the [.bfrange.json] file. *)
Definition process_file (root : json) : outcome :=
  match root with
  | JArr entries =>
      match process_entries entries with
      | Some out => Written out
      | None => Uncaught
      end
  | _ => RootNotList
  end.

(** The three sources of the children of a code in [child_map]. *)
Definition child_of (codes : list string) (k y : string) : Prop :=
  (In y codes /\ immediate_child k y = true)
  \/ (In k (ranges_of codes)
      /\ In y (expand_range_children k (simple_of codes)))
  \/ (In y (ranges_of codes)
      /\ range_parent y (simple_of codes) = Some k /\ nonempty k = true).

End Schedules.

(* ===================================================================== *)
(** ** Tables: [fix_hierarchy_bruteforce_ranges_tables.py] *)
(* ===================================================================== *)

Module Tables.

(** A missing or empty [notation] sends the code through the id, whose
    [startswith] raises [AttributeError] on anything but a string. *)
Definition extract_code (entry : dict) : option json :=
  let notation :=
    match dict_get "notation" entry with Some v => v | None => JNull end in
  if truthy notation then Some notation
  else
    match match dict_get "id" entry with Some v => v | None => JStr "" end with
    | JStr id_str =>
        if startswith id_str "T" && str_in ":" id_str
        then Some (JStr (nth 1 (split1 ":" id_str) ""))
        else Some JNull
    | _ => None
    end.

Definition split_range (code : string) : option (string * string) :=
  if negb (str_in "--" code) then None
  else match split_dd code with
       | [l; r] => Some (l, r)
       | _ => None
       end.

Definition build_indices (entries : list json) : option (list json * index) :=
  build_indices_with extract_code entries.

Definition immediate_children_simple (codes : list string)
  : list (string * list string) :=
  fold_left
    (fun children c =>
       if str_in "--" c then children
       else
         fold_left
           (fun children d =>
              if String.eqb d c || str_in "--" d then children
              else if startswith d c
                      && (String.length c <? String.length d)%nat then
                let remainder := str_drop (String.length c) d in
                if isdigit remainder && (String.length remainder <=? 3)%nat
                then dict_alter (set_add d) c children
                else children
              else children)
           codes children)
    codes (dict_init [] codes).

Definition in_span (l v r : Z) : bool := (l <=? v)%Z && (v <=? r)%Z.

Definition expand_range_children (range_code : string)
  (simple_codes : list string) : list string :=
  match split_range range_code with
  | None => []
  | Some (left_, right_) =>
      let left_num := lstrip_dash left_ in
      let right_num := lstrip_dash right_ in
      match py_int left_num, py_int right_num with
      | Some l, Some r =>
          fold_left
            (fun res sc =>
               if str_in "--" sc then res
               else
                 let sc_num := lstrip_dash sc in
                 if negb (isdigit sc_num) then res
                 else match py_int sc_num with
                      | None => res
                      | Some v => if in_span l v r then set_add sc res else res
                      end)
            simple_codes []
      | _, _ => []
      end
  end.

(** [for i in range(len(s) - 1, 0, -1): cand = s[:i]; ...] *)
Definition truncations (s : string) : list string :=
  map (fun i => str_take i s) (countdown (String.length s - 1)).

Definition compute_broader (code : string) (simple_set : list string)
  : option string :=
  if str_in "--" code then
    match split_range code with
    | Some (left_, _) =>
        if nonempty left_ then first_in (truncations left_) simple_set
        else None
    | None => None
    end
  else if (String.length code <=? 1)%nat then None
  else first_in (truncations code) simple_set.

Definition range_parent (code : string) (simple_set : list string)
  : option string :=
  if negb (str_in "--" code) then None
  else
    match split_range code with
    | None => None
    | Some (left_, _) => first_in (truncations left_) simple_set
    end.

(** [{c for c in codes if '--' not in c}] *)
Definition simple_of (codes : list string) : list string :=
  filter (fun c => negb (str_in "--" c)) codes.

(** [{c for c in codes if '--' in c}] *)
Definition ranges_of (codes : list string) : list string :=
  filter (fun c => str_in "--" c) codes.

(** The tests of the two loops of [immediate_children_simple]. *)
Definition immediate_child (c d : string) : bool :=
  negb (str_in "--" c)
  && negb (String.eqb d c || str_in "--" d)
  && (startswith d c && (String.length c <? String.length d)%nat)
  && (let remainder := str_drop (String.length c) d in
      isdigit remainder && (String.length remainder <=? 3)%nat).

(** [child_map] of [process_file]; here a range is put under its
    [range_parent] in the same loop that copies its covered codes. *)
Definition build_child_map (codes : list string)
  : list (string * list string) :=
  let simple_codes := simple_of codes in
  let range_codes := ranges_of codes in
  let simple_child_map := immediate_children_simple codes in
  let range_children :=
    fold_left
      (fun m rc => dict_set rc (expand_range_children rc simple_codes) m)
      range_codes [] in
  let child_map := dict_init [] codes in
  let child_map :=
    fold_left (fun m ck => dict_alter (set_update (snd ck)) (fst ck) m)
              simple_child_map child_map in
  fold_left
    (fun m rk =>
       let m := dict_alter (set_update (snd rk)) (fst rk) m in
       match range_parent (fst rk) simple_codes with
       | Some parent =>
           if nonempty parent then dict_alter (set_add (fst rk)) parent m
           else m
       | None => m
       end)
    range_children child_map.

Definition build_broader_map (codes : list string)
  : list (string * option string) :=
  let simple_codes := simple_of codes in
  fold_left (fun m c => dict_set c (compute_broader c simple_codes) m)
            codes [].

Definition broader_of (codes : list string) (code : string) : option string :=
  match dict_get code (build_broader_map codes) with
  | Some b => b
  | None => None
  end.

Definition narrower_of (codes : list string) (code : string) : list string :=
  sorted (kids_of code (build_child_map codes)).

(** The body of the inner loop: a missing [hierarchy] starts as [{}], then
    [narrower] and [broader] are stored in it; a [hierarchy] that is not an
    object cannot be assigned into ([TypeError]). *)
Definition write_hierarchy (codes : list string) (code : string) (e : json)
  : option json :=
  match e with
  | JObj fields =>
      let store h :=
        Some (JObj (dict_set "hierarchy"
                (JObj (dict_set "broader" (json_opt (broader_of codes code))
                         (dict_set "narrower"
                            (json_strs (narrower_of codes code)) h)))
                fields)) in
      match dict_get "hierarchy" fields with
      | None => store []
      | Some (JObj h) => store h
      | Some _ => None
      end
  | _ => Some e
  end.

Definition process_entries (entries : list json) : option (list json) :=
  match build_indices entries with
  | None => None
  | Some (es, code_to_entries) =>
      let codes := map fst code_to_entries in
      assign (write_hierarchy codes) code_to_entries es
  end.

Definition process_file (root : json) : outcome :=
  match root with
  | JArr entries =>
      match process_entries entries with
      | Some out => Written out
      | None => Uncaught
      end
  | _ => RootNotList
  end.

(** The three sources of the children of a code in [child_map]. *)
Definition child_of (codes : list string) (k y : string) : Prop :=
  (In y codes /\ immediate_child k y = true)
  \/ (In k (ranges_of codes)
      /\ In y (expand_range_children k (simple_of codes)))
  \/ (In y (ranges_of codes)
      /\ range_parent y (simple_of codes) = Some k /\ nonempty k = true).

End Tables.

(* ===================================================================== *)
(** ** Two small files *)
(* ===================================================================== *)

(** A schedule with a structured range, a repeated code, an entry without
    a code and a stray value that is not an object. *)
Definition sample_schedule : list json :=
  [JObj [("id", JStr "Volume1-026"); ("title", JStr "Rare books")];
   JObj [("id", JStr "Volume1-026.0001")];
   JObj [("id", JStr "Volume1-026.0002")];
   JObj [("notation", JStr "026.0003")];
   JObj [("id", JStr "Volume1-026.0001-026.0005")];
   JObj [("id", JStr "volume2-026"); ("title", JStr "Rare books, again")];
   JObj [("title", JStr "Front matter")];
   JStr "stray"].

Definition sample_schedule_index : list json * index := Eval vm_compute in
    match Schedules.build_indices sample_schedule with
    | Some r => r
    | None => ([], [])
    end.

Definition sample_schedule_out : list json := Eval vm_compute in
    match Schedules.process_entries sample_schedule with
    | Some out => out
    | None => []
    end.

(** A table with nesting, a doubled-dash range, a repeated code, an entry
    that already has a hierarchy object and one without a code. *)
Definition sample_table : list json :=
  [JObj [("notation", JStr "-09")];
   JObj [("notation", JStr "-092"); ("hierarchy", JObj [("note", JNull)])];
   JObj [("id", JStr "T1:-093")];
   JObj [("notation", JStr "-001")];
   JObj [("notation", JStr "-002")];
   JObj [("notation", JStr "-003")];
   JObj [("notation", JStr "-001--003")];
   JObj [("notation", JStr "-09"); ("title", JStr "History")];
   JObj [("id", JStr "T1")]].

Definition sample_table_index : list json * index := Eval vm_compute in
    match Tables.build_indices sample_table with
    | Some r => r
    | None => ([], [])
    end.

Definition sample_table_out : list json := Eval vm_compute in
    match Tables.process_entries sample_table with
    | Some out => out
    | None => []
    end.

(** The codes of the structured-range example, in one order. *)
Definition structured_range_codes : list string :=
  ["026"; "026.0001"; "026.0002"; "026.0003"; "026.0001-026.0005"].

(* ===================================================================== *)
(** ** Vocabulary of the statements *)
(* ===================================================================== *)

(** *** Loops that only add to the sets of a child map

    [adds f P]: running [f] keeps the keys and adds to the set of every
    present key [k] exactly the codes [y] with [P k y]. *)

Definition adds (f : list (string * list string) -> list (string * list string))
  (P : string -> string -> Prop) : Prop :=
  forall m,
    map fst (f m) = map fst m /\
    forall k y, In y (kids_of k (f m)) <->
                In y (kids_of k m) \/ (In k (map fst m) /\ P k y).

(** The sets of a child map never contain duplicates. *)
Definition sets_nodup (m : list (string * list string)) : Prop :=
  forall k s, dict_get k m = Some s -> NoDup s.

(** [s.isascii()]: every character of [s] is below U+0080. *)
Definition is_ascii (a : ascii) : bool := (nat_of_ascii a <? 128)%nat.

Fixpoint ascii_only (s : string) : bool :=
  match s with
  | EmptyString => true
  | String a rest => is_ascii a && ascii_only rest
  end.

(** A JSON value that is a string, or that Python treats as false. *)
Definition string_or_falsy (v : json) : Prop :=
  truthy v = false \/ exists s, v = JStr s.

(** The shape of an index over [n] entries: distinct non-empty codes, each
    with at least one position, the positions of a code ascending and
    below [n]. *)
Definition index_shape (n : nat) (idx : index) : Prop :=
  NoDup (map fst idx)
  /\ forall c ents, In (c, ents) idx ->
       nonempty c = true /\ ents <> []
       /\ StronglySorted lt ents /\ Forall (fun p => p < n) ents.

(** [q] is a dotted ancestor of the schedule code [c]: [c] is [q], a dot and
    more text. *)
Definition dotted_ancestor (q c : string) : Prop :=
  exists rest, c = q ++ "." ++ rest.
(* ===================================================================== *)
(** ** Facts about sets and dictionaries *)
(* ===================================================================== *)

Lemma mem_In x s : mem x s = true <-> In x s.
Proof.
  unfold mem. rewrite existsb_exists. split.
  - intros [y [Hy E]]. apply String.eqb_eq in E. now subst.
  - intros H. exists x. split; [exact H | apply String.eqb_refl].
Qed.

Lemma In_set_add y x s : In y (set_add x s) <-> y = x \/ In y s.
Proof.
  unfold set_add. destruct (mem x s) eqn:E.
  - apply mem_In in E. split; [tauto | intros [-> | H]; assumption].
  - rewrite in_app_iff. simpl. split; intros H; intuition congruence.
Qed.

Lemma In_set_update y kids : forall s,
  In y (set_update kids s) <-> In y kids \/ In y s.
Proof.
  unfold set_update. induction kids as [|k kids IH]; intros s; simpl.
  - tauto.
  - rewrite IH, In_set_add. split; intros H; intuition congruence.
Qed.

Lemma NoDup_set_add x s : NoDup s -> NoDup (set_add x s).
Proof.
  intros H. unfold set_add. destruct (mem x s) eqn:E; [exact H|].
  apply NoDup_app; [exact H| repeat constructor; simpl; tauto |].
  intros y Hy [<- | []]. apply mem_In in Hy. congruence.
Qed.

Lemma NoDup_set_update kids : forall s, NoDup s -> NoDup (set_update kids s).
Proof.
  unfold set_update. induction kids as [|k kids IH]; intros s H; simpl.
  - exact H.
  - apply IH, NoDup_set_add, H.
Qed.

Section DictFacts.
Context {V : Type}.
Implicit Types (d : list (string * V)) (k : string).

Lemma dict_get_set k k' v d :
  dict_get k (dict_set k' v d) =
  if String.eqb k k' then Some v else dict_get k d.
Proof.
  induction d as [|[k0 v0] d IH]; simpl.
  - reflexivity.
  - destruct (String.eqb k' k0) eqn:E0; simpl.
    + apply String.eqb_eq in E0. subst k0.
      destruct (String.eqb k k'); reflexivity.
    + destruct (String.eqb k k0) eqn:E1.
      * apply String.eqb_eq in E1. subst k0.
        rewrite String.eqb_sym, E0. reflexivity.
      * exact IH.
Qed.

Lemma dict_get_alter k k' f d :
  dict_get k (dict_alter f k' d) =
  if String.eqb k k' then option_map f (dict_get k d) else dict_get k d.
Proof.
  induction d as [|[k0 v0] d IH]; simpl.
  - destruct (String.eqb k k'); reflexivity.
  - destruct (String.eqb k' k0) eqn:E0; simpl.
    + apply String.eqb_eq in E0. subst k0.
      destruct (String.eqb k k'); reflexivity.
    + destruct (String.eqb k k0) eqn:E1.
      * apply String.eqb_eq in E1. subst k0.
        rewrite String.eqb_sym, E0. reflexivity.
      * exact IH.
Qed.

Lemma keys_alter f k d : map fst (dict_alter f k d) = map fst d.
Proof.
  induction d as [|[k0 v0] d IH]; simpl; [reflexivity|].
  destruct (String.eqb k k0); simpl; congruence.
Qed.

Lemma dict_get_keys k d : In k (map fst d) <-> dict_get k d <> None.
Proof.
  induction d as [|[k0 v0] d IH]; simpl.
  - split; [tauto | congruence].
  - destruct (String.eqb k k0) eqn:E.
    + apply String.eqb_eq in E. split; [congruence | auto].
    + apply String.eqb_neq in E. rewrite <- IH.
      split; [intros [H | H]; congruence | auto].
Qed.

Lemma dict_get_In k v d : dict_get k d = Some v -> In (k, v) d.
Proof.
  induction d as [|[k0 v0] d IH]; simpl; [congruence|].
  destruct (String.eqb k k0) eqn:E.
  - apply String.eqb_eq in E. intros H. left. congruence.
  - auto.
Qed.

Lemma In_dict_get k v d :
  NoDup (map fst d) -> In (k, v) d -> dict_get k d = Some v.
Proof.
  induction d as [|[k0 v0] d IH]; simpl; [tauto|].
  intros Hnd [H | H]; inversion Hnd as [|? ? Hk Hd]; subst.
  - inversion H; subst. now rewrite String.eqb_refl.
  - destruct (String.eqb k k0) eqn:E.
    + apply String.eqb_eq in E. subst k0.
      exfalso. apply Hk. apply in_map_iff. now exists (k, v).
    + auto.
Qed.

Lemma keys_set k v d :
  forall x, In x (map fst (dict_set k v d)) <-> x = k \/ In x (map fst d).
Proof.
  intros x. rewrite !dict_get_keys, dict_get_set.
  destruct (String.eqb x k) eqn:E.
  - apply String.eqb_eq in E. split; [auto | congruence].
  - apply String.eqb_neq in E. tauto.
Qed.

Lemma NoDup_keys_set k v d :
  NoDup (map fst d) -> NoDup (map fst (dict_set k v d)).
Proof.
  induction d as [|[k0 v0] d IH]; simpl; intros H.
  - repeat constructor. simpl. tauto.
  - inversion H as [|? ? Hk Hd]; subst.
    destruct (String.eqb k k0) eqn:E; simpl.
    + constructor; assumption.
    + constructor; [|auto]. rewrite keys_set.
      apply String.eqb_neq in E. intros [-> | H']; tauto.
Qed.

Lemma dict_set_same k v d : dict_get k d = Some v -> dict_set k v d = d.
Proof.
  induction d as [|[k0 v0] d IH]; simpl; [congruence|].
  destruct (String.eqb k k0) eqn:E.
  - intros H. congruence.
  - intros H. now rewrite IH.
Qed.

Lemma In_dict_set kv k v d (Q : string * V -> Prop) :
  (forall p, In p d -> Q p) -> Q (k, v) ->
  In kv (dict_set k v d) -> Q kv.
Proof.
  induction d as [|[k0 v0] d IH]; simpl; intros Hd Hq.
  - intros [<- | []]. exact Hq.
  - destruct (String.eqb k k0) eqn:E; simpl.
    + apply String.eqb_eq in E. subst k0.
      intros [<- | H]; [exact Hq | auto].
    + intros [<- | H]; [auto|]. apply IH; auto.
Qed.

Lemma keys_init (v : V) keys :
  NoDup (map fst (dict_init v keys)) /\
  forall x, In x (map fst (dict_init v keys)) <-> In x keys.
Proof.
  unfold dict_init.
  assert (G : forall d, NoDup (map fst d) ->
    NoDup (map fst (fold_left (fun d c => dict_set c v d) keys d)) /\
    forall x, In x (map fst (fold_left (fun d c => dict_set c v d) keys d))
              <-> In x keys \/ In x (map fst d)).
  { induction keys as [|c keys IH]; intros d Hd; simpl.
    - split; [exact Hd | tauto].
    - destruct (IH (dict_set c v d) (NoDup_keys_set c v d Hd)) as [H1 H2].
      split; [exact H1|]. intros x. rewrite H2, keys_set.
      split; intros H; intuition congruence. }
  destruct (G [] (NoDup_nil _)) as [H1 H2]. split; [exact H1|].
  intros x. rewrite H2. simpl. tauto.
Qed.

Lemma values_init (v : V) keys k w :
  dict_get k (dict_init v keys) = Some w -> w = v.
Proof.
  unfold dict_init.
  assert (G : forall d, (forall w, dict_get k d = Some w -> w = v) ->
    dict_get k (fold_left (fun d c => dict_set c v d) keys d) = Some w ->
    w = v).
  { induction keys as [|c keys IH]; intros d Hd; simpl; [apply Hd|].
    apply IH. intros w'. rewrite dict_get_set.
    destruct (String.eqb k c); [congruence | apply Hd]. }
  apply G. simpl. congruence.
Qed.
End DictFacts.

Lemma kids_of_init k codes : kids_of k (dict_init [] codes) = [].
Proof.
  unfold kids_of. destruct (dict_get k (dict_init [] codes)) eqn:E.
  - now apply values_init in E.
  - reflexivity.
Qed.

(** *** Loops that only add to the sets of a child map *)

Lemma adds_skip : adds (fun m => m) (fun _ _ => False).
Proof. intros m. split; [reflexivity | intros; tauto]. Qed.

Lemma adds_ext f P Q :
  adds f P -> (forall k y, P k y <-> Q k y) -> adds f Q.
Proof.
  intros H E m. destruct (H m) as [H1 H2]. split; [exact H1|].
  intros k y. rewrite H2, E. reflexivity.
Qed.

Lemma adds_alter_update kids c :
  adds (dict_alter (set_update kids) c) (fun k y => k = c /\ In y kids).
Proof.
  intros m. split; [apply keys_alter|]. intros k y.
  unfold kids_of. rewrite dict_get_alter, dict_get_keys.
  destruct (String.eqb k c) eqn:E.
  - apply String.eqb_eq in E. subst c.
    destruct (dict_get k m) as [s|]; simpl.
    + rewrite In_set_update. split; [intros [H|H]; auto|].
      * right. split; [congruence | auto].
      * intros [H | [_ [_ H]]]; auto.
    + split; [tauto | intros [[] | [H _]]; congruence].
  - apply String.eqb_neq in E. split; [auto | intros [H | [_ [H _]]]; tauto].
Qed.

Lemma adds_alter_add x c :
  adds (dict_alter (set_add x) c) (fun k y => k = c /\ y = x).
Proof.
  intros m. split; [apply keys_alter|]. intros k y.
  unfold kids_of. rewrite dict_get_alter, dict_get_keys.
  destruct (String.eqb k c) eqn:E.
  - apply String.eqb_eq in E. subst c.
    destruct (dict_get k m) as [s|]; simpl.
    + rewrite In_set_add. split; [intros [H|H]; auto|].
      * right. split; [congruence | auto].
      * intros [H | [_ [_ H]]]; auto.
    + split; [tauto | intros [[] | [H _]]; congruence].
  - apply String.eqb_neq in E. split; [auto | intros [H | [_ [H _]]]; tauto].
Qed.

Lemma adds_seq f g P Q :
  adds f P -> adds g Q -> adds (fun m => g (f m)) (fun k y => P k y \/ Q k y).
Proof.
  intros Hf Hg m. destruct (Hf m) as [F1 F2]. destruct (Hg (f m)) as [G1 G2].
  split; [congruence|]. intros k y. rewrite G2, F2, F1. tauto.
Qed.

Lemma adds_fold {A} (step : list (string * list string) -> A ->
                            list (string * list string))
  (P : A -> string -> string -> Prop) (l : list A) :
  (forall x, In x l -> adds (fun m => step m x) (P x)) ->
  adds (fun m => fold_left step l m) (fun k y => exists x, In x l /\ P x k y).
Proof.
  induction l as [|a l IH]; intros H; simpl.
  - eapply adds_ext; [apply adds_skip|].
    intros k y. split; [tauto | intros [x [[] _]]].
  - eapply adds_ext.
    + apply (adds_seq (fun m => step m a) (fun m => fold_left step l m)).
      * apply H. now left.
      * apply IH. intros x Hx. apply H. now right.
    + intros k y. simpl. split.
      * intros [Ha | [x [Hx Hp]]]; [exists a | exists x]; auto.
      * intros [x [[<- | Hx] Hp]]; [left | right; exists x]; auto.
Qed.

Lemma sets_nodup_alter f c m :
  (forall s, NoDup s -> NoDup (f s)) ->
  sets_nodup m -> sets_nodup (dict_alter f c m).
Proof.
  intros Hf Hm k s. rewrite dict_get_alter.
  destruct (String.eqb k c); [|apply Hm].
  destruct (dict_get k m) as [s0|] eqn:E; simpl; [|congruence].
  intros H. inversion H; subst. apply Hf. eapply Hm, E.
Qed.

Lemma sets_nodup_fold {A} (step : list (string * list string) -> A ->
                                  list (string * list string)) l :
  (forall m x, sets_nodup m -> sets_nodup (step m x)) ->
  forall m, sets_nodup m -> sets_nodup (fold_left step l m).
Proof.
  intros H. induction l as [|a l IH]; intros m Hm; simpl; auto.
Qed.

Lemma sets_nodup_init codes : sets_nodup (dict_init [] codes).
Proof.
  intros k s E. apply values_init in E. subst. constructor.
Qed.

(* ===================================================================== *)
(** ** Facts about strings *)
(* ===================================================================== *)

Lemma length_app (s1 s2 : string) :
  String.length (s1 ++ s2) = String.length s1 + String.length s2.
Proof. induction s1 as [|a s1 IH]; simpl; [reflexivity | now rewrite IH]. Qed.

Lemma append_assoc (s1 s2 s3 : string) : s1 ++ s2 ++ s3 = (s1 ++ s2) ++ s3.
Proof. induction s1 as [|a s1 IH]; simpl; [reflexivity | now rewrite IH]. Qed.

Lemma prefix_split p : forall s,
  String.prefix p s = true -> s = p ++ str_drop (String.length p) s.
Proof.
  induction p as [|a p IH]; intros s H; simpl.
  - reflexivity.
  - destruct s as [|b s]; simpl in H; [discriminate|].
    destruct (ascii_dec a b) as [->|]; [|discriminate].
    simpl. f_equal. apply IH, H.
Qed.

Lemma prefix_app p r : String.prefix p (p ++ r) = true.
Proof.
  induction p as [|a p IH]; simpl.
  - now destruct r.
  - destruct (ascii_dec a a); [exact IH | congruence].
Qed.

Lemma prefix_length p s :
  String.prefix p s = true -> String.length p <= String.length s.
Proof.
  intros H. apply prefix_split in H.
  apply (f_equal String.length) in H. rewrite length_app in H. lia.
Qed.

Lemma take_drop n : forall s, str_take n s ++ str_drop n s = s.
Proof.
  induction n as [|n IH]; intros [|a s]; simpl; try reflexivity.
  now rewrite IH.
Qed.

Lemma length_take n : forall s,
  n <= String.length s -> String.length (str_take n s) = n.
Proof.
  induction n as [|n IH]; intros [|a s]; simpl; intros H; try lia.
  rewrite IH; lia.
Qed.

Lemma nonempty_length s : nonempty s = true <-> 0 < String.length s.
Proof. destruct s; simpl; split; intros; try lia; congruence. Qed.

Lemma app_nonempty_neq (p r : string) : nonempty r = true -> p ++ r <> p.
Proof.
  intros H E. apply nonempty_length in H.
  apply (f_equal String.length) in E. rewrite length_app in E. lia.
Qed.

Lemma str_in_cons sub a s :
  str_in sub (String a s) = String.prefix sub (String a s) || str_in sub s.
Proof. reflexivity. Qed.

Lemma str_in_nil sub : str_in sub "" = String.prefix sub "".
Proof. simpl. apply orb_false_r. Qed.

Lemma str_in_app_l sub s r : str_in sub s = true -> str_in sub (s ++ r) = true.
Proof.
  induction s as [|a s IH].
  - rewrite str_in_nil. intros H.
    destruct sub; [now destruct r | discriminate].
  - rewrite str_in_cons. intros H.
    change (String a s ++ r) with (String a (s ++ r)).
    rewrite str_in_cons. apply orb_true_iff in H. apply orb_true_iff.
    destruct H as [H | H]; [left | right; auto].
    apply prefix_split in H.
    set (t := str_drop (String.length sub) (String a s)) in H.
    change (String a (s ++ r)) with (String a s ++ r).
    rewrite H, <- append_assoc. apply prefix_app.
Qed.

Lemma split_char_cons c s : exists x xs, split_char c s = x :: xs.
Proof.
  destruct s as [|a s]; simpl; [now eauto|].
  destruct (Ascii.eqb a c); [now eauto|].
  destruct (split_char c s); eauto.
Qed.

Lemma join_cons sep x y ys :
  join sep (x :: y :: ys) = x ++ sep ++ join sep (y :: ys).
Proof. reflexivity. Qed.

Lemma join_split c s : join (String c "") (split_char c s) = s.
Proof.
  induction s as [|a s IH]; [reflexivity|].
  cbn [split_char].
  destruct (split_char_cons c s) as [x [xs Hx]]. rewrite Hx in *.
  destruct (Ascii.eqb a c) eqn:E.
  - apply Ascii.eqb_eq in E. subst a.
    rewrite join_cons, IH. reflexivity.
  - destruct xs as [|y ys].
    + unfold join in *. simpl in *. now rewrite IH.
    + rewrite join_cons in *. rewrite <- IH. reflexivity.
Qed.

Lemma join_app sep l1 l2 :
  l1 <> [] -> l2 <> [] ->
  join sep (l1 ++ l2)%list = join sep l1 ++ sep ++ join sep l2.
Proof.
  induction l1 as [|x l1 IH]; intros H1 H2; [congruence|].
  destruct l1 as [|y l1].
  - destruct l2 as [|z l2]; [congruence|]. reflexivity.
  - change ((x :: y :: l1) ++ l2)%list with (x :: (y :: l1) ++ l2)%list.
    simpl app. rewrite !join_cons.
    change (y :: (l1 ++ l2)%list) with ((y :: l1) ++ l2)%list.
    rewrite IH; [|discriminate | exact H2].
    now rewrite <- !append_assoc.
Qed.

(** A proper, non-empty group of leading segments is followed by a
    separator and at least one more segment. *)
Lemma join_firstn sep parts i :
  1 <= i < List.length parts ->
  join sep parts =
  join sep (firstn i parts) ++ sep ++ join sep (skipn i parts).
Proof.
  intros H. rewrite <- (firstn_skipn i parts) at 1.
  apply join_app.
  - intros E. apply (f_equal (@List.length string)) in E.
    rewrite length_firstn in E. simpl in E. lia.
  - intros E. apply (f_equal (@List.length string)) in E.
    rewrite length_skipn in E. simpl in E. lia.
Qed.

Lemma In_countdown i n : In i (countdown n) <-> 1 <= i <= n.
Proof.
  induction n as [|n IH]; simpl; [lia|]. rewrite IH. lia.
Qed.

Lemma first_in_countdown (f : nat -> string) (S : list string) n :
  match first_in (map f (countdown n)) S with
  | Some p =>
      exists i, 1 <= i <= n /\ p = f i /\ In p S /\
                forall j, i < j <= n -> ~ In (f j) S
  | None => forall j, 1 <= j <= n -> ~ In (f j) S
  end.
Proof.
  induction n as [|n IH]; simpl; [intros; lia|].
  destruct (mem (f (Datatypes.S n)) S) eqn:E.
  - exists (Datatypes.S n). apply mem_In in E.
    split; [lia|]. split; [reflexivity|]. split; [exact E|]. intros; lia.
  - assert (E' : ~ In (f (Datatypes.S n)) S).
    { intros H. apply mem_In in H. congruence. }
    destruct (first_in (map f (countdown n)) S) as [p|].
    + destruct IH as [i [Hi [Hp [HS Hj]]]].
      exists i. split; [lia|]. split; [exact Hp|]. split; [exact HS|].
      intros j Hj'. destruct (Nat.eq_dec j (Datatypes.S n)) as [->|];
        [exact E' | apply Hj; lia].
    + intros j Hj. destruct (Nat.eq_dec j (Datatypes.S n)) as [->|];
        [exact E' | apply IH; lia].
Qed.

Lemma first_in_In cands S p :
  first_in cands S = Some p -> In p cands /\ In p S.
Proof.
  induction cands as [|c cands IH]; simpl; [discriminate|].
  destruct (mem c S) eqn:E.
  - intros H. inversion H; subst. apply mem_In in E. auto.
  - intros H. destruct (IH H). auto.
Qed.

(** *** More on the loops over child maps *)

Lemma adds_eq f g P : (forall m, f m = g m) -> adds f P -> adds g P.
Proof. intros E H m. rewrite <- E. apply H. Qed.

Lemma adds_when (b : bool) x c :
  adds (fun m => if b then dict_alter (set_add x) c m else m)
       (fun k y => b = true /\ k = c /\ y = x).
Proof.
  destruct b.
  - eapply adds_ext; [apply adds_alter_add|]. intros; tauto.
  - eapply adds_ext; [apply adds_skip|]. intros k y. split; [tauto|].
    intros [H _]. discriminate.
Qed.

(** A loop that adds some of the visited codes to a result set. *)
Lemma fold_add_sound (Q : string -> Prop)
  (step : list string -> string -> list string) (l : list string) :
  (forall res sc, step res sc = res \/ (step res sc = set_add sc res /\ Q sc)) ->
  forall res y,
    In y (fold_left step l res) -> In y res \/ (In y l /\ Q y).
Proof.
  intros Hstep. induction l as [|a l IH]; intros res y; simpl; [auto|].
  intros H. apply IH in H. destruct H as [H | [H1 H2]]; [|auto].
  destruct (Hstep res a) as [E | [E Ha]]; rewrite E in H; [auto|].
  apply In_set_add in H. destruct H as [-> | H]; auto.
Qed.

Lemma fold_add_nodup (step : list string -> string -> list string)
  (l : list string) :
  (forall res sc, step res sc = res \/ step res sc = set_add sc res) ->
  forall res, NoDup res -> NoDup (fold_left step l res).
Proof.
  intros Hstep. induction l as [|a l IH]; intros res H; simpl; [exact H|].
  apply IH. destruct (Hstep res a) as [E | E]; rewrite E;
    [exact H | apply NoDup_set_add, H].
Qed.

(** A dictionary filled by [m[k] = f(k)] for the keys of a list. *)
Lemma dict_of_keys {V} (f : string -> V) (keys : list string) :
  let m := fold_left (fun m k => dict_set k (f k) m) keys [] in
  NoDup (map fst m) /\
  (forall k, In k (map fst m) <-> In k keys) /\
  (forall k v, dict_get k m = Some v -> v = f k).
Proof.
  assert (G : forall d, NoDup (map fst d) ->
    (forall k v, dict_get k d = Some v -> v = f k) ->
    let m := fold_left (fun m k => dict_set k (f k) m) keys d in
    NoDup (map fst m) /\
    (forall k, In k (map fst m) <-> In k keys \/ In k (map fst d)) /\
    (forall k v, dict_get k m = Some v -> v = f k)).
  { induction keys as [|c keys IH]; intros d Hd Hv; simpl.
    - repeat split; auto; tauto.
    - destruct (IH (dict_set c (f c) d)) as [H1 [H2 H3]].
      + apply NoDup_keys_set, Hd.
      + intros k v. rewrite dict_get_set.
        destruct (String.eqb k c) eqn:E; [|apply Hv].
        apply String.eqb_eq in E. congruence.
      + split; [exact H1|]. split; [|exact H3].
        intros k. rewrite H2, keys_set. split; intros H; intuition congruence. }
  destruct (G [] (NoDup_nil _)) as [H1 [H2 H3]].
  - simpl. congruence.
  - split; [exact H1|]. split; [|exact H3].
    intros k. rewrite H2. simpl. tauto.
Qed.

(** Copying one map of sets into another, key by key. *)
Lemma adds_copy (src : list (string * list string)) :
  NoDup (map fst src) ->
  adds (fun m =>
          fold_left (fun m ck => dict_alter (set_update (snd ck)) (fst ck) m)
                    src m)
       (fun k y => In y (kids_of k src)).
Proof.
  intros Hnd. eapply adds_ext.
  - apply adds_fold with
      (P := fun (ck : string * list string) k y => k = fst ck /\ In y (snd ck)).
    intros ck _. apply adds_alter_update.
  - intros k y. unfold kids_of. split.
    + intros [[c s] [Hin [-> Hy]]]. simpl in *.
      now rewrite (In_dict_get c s src Hnd Hin).
    + destruct (dict_get k src) as [s|] eqn:E; [|intros []].
      intros Hy. exists (k, s). split; [now apply dict_get_In | auto].
Qed.

Lemma keys_fold {V A} (f : list (string * V) -> A -> list (string * V)) l :
  (forall m x, map fst (f m x) = map fst m) ->
  forall m, map fst (fold_left f l m) = map fst m.
Proof.
  intros Hf. induction l as [|a l IH]; intros m; simpl; [reflexivity|].
  now rewrite IH, Hf.
Qed.

Lemma Forall2_of_nth {A B} (R : A -> B -> Prop) (l1 : list A) :
  forall l2 : list B,
  List.length l1 = List.length l2 ->
  (forall p a b, nth_error l1 p = Some a -> nth_error l2 p = Some b -> R a b) ->
  Forall2 R l1 l2.
Proof.
  induction l1 as [|x l1 IH]; intros [|y l2] L H; simpl in L;
    try discriminate; constructor.
  - apply (H 0); reflexivity.
  - apply IH; [congruence|]. intros p a b Ha Hb. apply (H (S p)); assumption.
Qed.

(* ===================================================================== *)
(** ** Facts about [sorted] *)
(* ===================================================================== *)

Lemma string_compare_refl s : String.compare s s = Eq.
Proof.
  induction s as [|a s IH]; simpl; [reflexivity|].
  unfold Ascii.compare. now rewrite N.compare_refl.
Qed.

Lemma string_compare_trans a : forall b c,
  String.compare a b = Lt -> String.compare b c = Lt ->
  String.compare a c = Lt.
Proof.
  induction a as [|x a IH]; intros [|y b] [|z c]; simpl;
    try congruence.
  unfold Ascii.compare.
  destruct (N.compare_spec (N_of_ascii x) (N_of_ascii y)) as [E1|L1|G1];
    try discriminate;
  destruct (N.compare_spec (N_of_ascii y) (N_of_ascii z)) as [E2|L2|G2];
    try discriminate; intros H1 H2.
  - rewrite E1, E2, N.compare_refl. eapply IH; eassumption.
  - rewrite E1. apply N.compare_lt_iff in L2. now rewrite L2.
  - rewrite <- E2. apply N.compare_lt_iff in L1. now rewrite L1.
  - assert (L : (N_of_ascii x < N_of_ascii z)%N) by lia.
    apply N.compare_lt_iff in L. now rewrite L.
Qed.

Lemma code_lt_trans a b c : code_lt a b -> code_lt b c -> code_lt a c.
Proof.
  unfold code_lt, String.ltb. intros H1 H2.
  destruct (String.compare a b) eqn:E1; try discriminate.
  destruct (String.compare b c) eqn:E2; try discriminate.
  now rewrite (string_compare_trans _ _ _ E1 E2).
Qed.

Lemma code_lt_irrefl a : ~ code_lt a a.
Proof.
  unfold code_lt, String.ltb. rewrite string_compare_refl. discriminate.
Qed.

Lemma leb_true_lt x y : String.leb x y = true -> x <> y -> code_lt x y.
Proof.
  unfold code_lt, String.leb, String.ltb. intros H Hn.
  destruct (String.compare x y) eqn:E; try congruence.
  apply String.compare_eq_iff in E. congruence.
Qed.

Lemma leb_false_lt x y : String.leb x y = false -> code_lt y x.
Proof.
  unfold code_lt, String.leb, String.ltb. rewrite (String.compare_antisym y x).
  destruct (String.compare x y); simpl; congruence.
Qed.

Lemma In_insert_sorted z x l : In z (insert_sorted x l) <-> z = x \/ In z l.
Proof.
  induction l as [|y l IH]; simpl; [intuition|].
  destruct (String.leb x y); simpl; [intuition|]. rewrite IH. intuition.
Qed.

Lemma In_sorted z l : In z (sorted l) <-> In z l.
Proof.
  induction l as [|x l IH]; simpl; [tauto|].
  rewrite In_insert_sorted, IH. intuition.
Qed.

Lemma insert_sorted_strict x l :
  StronglySorted code_lt l -> ~ In x l ->
  StronglySorted code_lt (insert_sorted x l).
Proof.
  induction l as [|y l IH]; intros Hs Hx; simpl.
  - repeat constructor.
  - inversion Hs as [|? ? Hs' Hall]; subst.
    destruct (String.leb x y) eqn:E.
    + assert (Hxy : code_lt x y).
      { apply leb_true_lt; [exact E|]. intros ->. apply Hx. now left. }
      constructor; [exact Hs|]. constructor; [exact Hxy|].
      eapply Forall_impl; [|exact Hall].
      intros z Hz. eapply code_lt_trans; eassumption.
    + constructor.
      * apply IH; [exact Hs'|]. intros H. apply Hx. now right.
      * apply Forall_forall. intros z Hz. apply In_insert_sorted in Hz.
        destruct Hz as [-> | Hz]; [now apply leb_false_lt|].
        rewrite Forall_forall in Hall. auto.
Qed.

Lemma sorted_strict l : NoDup l -> StronglySorted code_lt (sorted l).
Proof.
  induction l as [|x l IH]; intros H; simpl; [constructor|].
  inversion H; subst. apply insert_sorted_strict; [auto|].
  now rewrite In_sorted.
Qed.

(** The sorted sequence of a set is determined by its members. *)
Lemma strict_sorted_unique l1 : forall l2,
  StronglySorted code_lt l1 -> StronglySorted code_lt l2 ->
  (forall z, In z l1 <-> In z l2) -> l1 = l2.
Proof.
  induction l1 as [|x l1 IH]; intros [|y l2] H1 H2 E.
  - reflexivity.
  - exfalso. apply (E y). now left.
  - exfalso. apply (E x). now left.
  - inversion H1 as [|? ? S1 A1]; inversion H2 as [|? ? S2 A2]; subst.
    rewrite Forall_forall in A1, A2.
    assert (x = y).
    { destruct (proj1 (E x) (or_introl eq_refl)) as [Hx | Hx]; [auto|].
      destruct (proj2 (E y) (or_introl eq_refl)) as [Hy | Hy]; [auto|].
      exfalso. apply (code_lt_irrefl x).
      eapply code_lt_trans; [apply A1, Hy | apply A2, Hx]. }
    subst y. f_equal. apply IH; [assumption..|].
    intros z. split; intros Hz.
    + destruct (proj1 (E z) (or_intror Hz)) as [<- | H]; [|exact H].
      exfalso. apply (code_lt_irrefl x), A1, Hz.
    + destruct (proj2 (E z) (or_intror Hz)) as [<- | H]; [|exact H].
      exfalso. apply (code_lt_irrefl x), A2, Hz.
Qed.

(** *** Splitting at one character *)

Lemma str_in_char c a s :
  str_in (String c "") (String a s)
  = Ascii.eqb a c || str_in (String c "") s.
Proof.
  rewrite str_in_cons. f_equal. simpl.
  destruct (ascii_dec c a) as [->|N].
  - rewrite Ascii.eqb_refl. now destruct s.
  - symmetry. apply Ascii.eqb_neq. congruence.
Qed.

Lemma str_in_char_nil c : str_in (String c "") "" = false.
Proof. reflexivity. Qed.

Lemma str_in_char_app c a b :
  str_in (String c "") (a ++ String c b) = true.
Proof.
  induction a as [|x a IH]; simpl append.
  - rewrite str_in_char, Ascii.eqb_refl. reflexivity.
  - rewrite str_in_char, IH. apply orb_true_r.
Qed.

Lemma split_char_one c s b :
  split_char c s = [b] -> b = s /\ str_in (String c "") s = false.
Proof.
  revert b. induction s as [|x s IH]; intros b; cbn [split_char].
  - intros H. inversion H. auto.
  - destruct (Ascii.eqb x c) eqn:E.
    + destruct (split_char_cons c s) as [y [ys Hy]]. rewrite Hy. discriminate.
    + destruct (split_char_cons c s) as [y [ys Hy]]. rewrite Hy in *.
      intros H. inversion H; subst. destruct (IH y eq_refl) as [-> H2].
      rewrite str_in_char, E, H2. auto.
Qed.

Lemma split_char_two c s : forall a b,
  split_char c s = [a; b] ->
  s = a ++ String c b
  /\ str_in (String c "") a = false /\ str_in (String c "") b = false.
Proof.
  induction s as [|x s IH]; intros a b; cbn [split_char].
  - discriminate.
  - destruct (Ascii.eqb x c) eqn:E.
    + intros H. inversion H as [[Ha Hs]]. apply split_char_one in Hs.
      destruct Hs as [-> Hs]. apply Ascii.eqb_eq in E. subst x. auto.
    + destruct (split_char_cons c s) as [y [ys Hy]]. rewrite Hy in *.
      intros H. inversion H; subst. destruct (IH y b eq_refl) as [-> [H1 H2]].
      rewrite str_in_char, E, H1. auto.
Qed.

Lemma split1_app c a b :
  str_in (String c "") a = false -> split1 c (a ++ String c b) = [a; b].
Proof.
  induction a as [|x a IH]; simpl append; cbn [split1].
  - now rewrite Ascii.eqb_refl.
  - rewrite str_in_char. intros H. apply orb_false_iff in H.
    destruct H as [H1 H2]. now rewrite H1, IH.
Qed.

Lemma rsplit1_none c s : str_in (String c "") s = false -> rsplit1 c s = [s].
Proof.
  induction s as [|x s IH]; cbn [rsplit1]; [reflexivity|].
  rewrite str_in_char. intros H. apply orb_false_iff in H.
  destruct H as [H1 H2]. now rewrite IH, H1.
Qed.

Lemma rsplit1_app c a b :
  str_in (String c "") a = false -> str_in (String c "") b = false ->
  rsplit1 c (a ++ String c b) = [a; b].
Proof.
  intros Ha Hb. induction a as [|x a IH]; simpl append; cbn [rsplit1].
  - now rewrite (rsplit1_none c b Hb), Ascii.eqb_refl.
  - rewrite str_in_char in Ha. apply orb_false_iff in Ha.
    destruct Ha as [H1 H2]. now rewrite (IH H2).
Qed.

Lemma mem_ext S1 S2 :
  (forall x, In x S1 <-> In x S2) -> forall x, mem x S1 = mem x S2.
Proof.
  intros H x. destruct (mem x S1) eqn:E1, (mem x S2) eqn:E2; try reflexivity.
  - apply mem_In, H, mem_In in E1. congruence.
  - apply mem_In, H, mem_In in E2. congruence.
Qed.

Lemma mem_false x S : mem x S = false <-> ~ In x S.
Proof.
  rewrite <- mem_In. destruct (mem x S); split; congruence.
Qed.

Lemma first_in_ext S1 S2 cands :
  (forall x, In x S1 <-> In x S2) -> first_in cands S1 = first_in cands S2.
Proof.
  intros H. induction cands as [|c cands IH]; simpl; [reflexivity|].
  now rewrite (mem_ext S1 S2 H), IH.
Qed.

Lemma fold_left_ext {A B} (f g : A -> B -> A) l :
  (forall a b, f a b = g a b) ->
  forall a, fold_left f l a = fold_left g l a.
Proof.
  intros H. induction l as [|b l IH]; intros a; simpl; [reflexivity|].
  now rewrite H, IH.
Qed.

Lemma fold_add_filter (g : string -> bool) l : forall res y,
  In y (fold_left (fun res sc => if g sc then set_add sc res else res) l res)
  <-> In y res \/ (In y l /\ g y = true).
Proof.
  induction l as [|a l IH]; intros res y; simpl.
  - tauto.
  - rewrite IH. destruct (g a) eqn:E.
    + rewrite In_set_add. split.
      * intros [[-> | H] | [H1 H2]]; auto.
      * intros [H | [[-> | H1] H2]]; auto.
    + split.
      * intros [H | [H1 H2]]; auto.
      * intros [H | [[-> | H1] H2]]; auto. congruence.
Qed.

(* ===================================================================== *)
(** ** The child map of the schedules *)
(* ===================================================================== *)

Module SchedulesFacts.
Import Schedules.

Lemma sch_In_simple_of c codes :
  In c (simple_of codes) <-> In c codes /\ str_in "-" c = false.
Proof.
  unfold simple_of. rewrite filter_In, negb_true_iff. reflexivity.
Qed.

Lemma sch_In_ranges_of c codes :
  In c (ranges_of codes) <-> In c codes /\ str_in "-" c = true.
Proof. unfold ranges_of. rewrite filter_In. reflexivity. Qed.

Lemma sch_immediate_children_adds codes :
  adds (fun m =>
    fold_left
      (fun children c =>
         if str_in "-" c then children
         else
           let prefix := c ++ "." in
           let plen := String.length prefix in
           fold_left
             (fun children d =>
                if startswith d prefix && negb (str_in "-" d) then
                  let remainder := str_drop plen d in
                  if nonempty remainder && negb (str_in "." remainder)
                  then dict_alter (set_add d) c children
                  else children
                else children)
             codes children)
      codes m)
    (fun k y => In k codes /\ In y codes /\ immediate_child k y = true).
Proof.
  eapply adds_ext.
  - apply adds_fold with
      (P := fun c k y => In y codes /\ k = c /\ immediate_child c y = true).
    intros c _. destruct (str_in "-" c) eqn:Ec.
    + eapply adds_ext; [apply adds_skip|]. intros k y. split; [tauto|].
      intros [_ [_ H]]. unfold immediate_child in H. rewrite Ec in H.
      discriminate.
    + cbv zeta. eapply adds_ext.
      * apply adds_fold with
          (P := fun d k y => immediate_child c d = true /\ k = c /\ y = d).
        intros d _. eapply adds_eq; [|apply adds_when].
        intros m. unfold immediate_child. rewrite Ec. simpl.
        destruct (startswith d (c ++ ".") && negb (str_in "-" d));
          reflexivity.
      * intros k y. split.
        -- intros [d [Hd [Hc [-> ->]]]]. auto.
        -- intros [Hy [-> Hc]]. exists y. auto.
  - intros k y. split.
    + intros [c [Hc [Hy [-> Hi]]]]. auto.
    + intros [Hk [Hy Hi]]. exists k. auto.
Qed.

Lemma sch_immediate_children_spec codes k y :
  In y (kids_of k (immediate_children_simple codes)) <->
  In k codes /\ In y codes /\ immediate_child k y = true.
Proof.
  unfold immediate_children_simple.
  destruct (sch_immediate_children_adds codes (dict_init (@nil string) codes))
    as [_ H].
  rewrite H, kids_of_init. destruct (keys_init (@nil string) codes) as [_ K].
  rewrite K. simpl. tauto.
Qed.

Lemma sch_immediate_children_keys codes :
  map fst (immediate_children_simple codes) =
  map fst (dict_init (@nil string) codes).
Proof.
  unfold immediate_children_simple.
  apply (sch_immediate_children_adds codes (dict_init (@nil string) codes)).
Qed.

Lemma sch_immediate_child_neq c d : immediate_child c d = true -> d <> c.
Proof.
  unfold immediate_child, startswith. intros H E. subst d.
  apply andb_true_iff in H. destruct H as [H _].
  apply andb_true_iff in H. destruct H as [_ H].
  apply andb_true_iff in H. destruct H as [H _].
  apply prefix_length in H. rewrite length_app in H. simpl in H. lia.
Qed.

Lemma sch_immediate_child_simple c d :
  immediate_child c d = true -> str_in "-" c = false /\ str_in "-" d = false.
Proof.
  unfold immediate_child. intros H.
  apply andb_true_iff in H. destruct H as [H _].
  apply andb_true_iff in H. destruct H as [H1 H].
  apply andb_true_iff in H. destruct H as [_ H2].
  apply negb_true_iff in H1, H2. auto.
Qed.

Lemma sch_expand_range_children_sound rc simple_codes y :
  In y (expand_range_children rc simple_codes) ->
  In y simple_codes /\ str_in "-" y = false /\ split_range rc <> None.
Proof.
  unfold expand_range_children.
  destruct (split_range rc) as [[left_ right_]|]; [|intros []].
  assert (G : forall step,
    (forall res sc, step res sc = res \/
       (step res sc = set_add sc res /\ str_in "-" sc = false)) ->
    In y (fold_left step simple_codes []) ->
    In y simple_codes /\ str_in "-" y = false /\
    Some (left_, right_) <> None).
  { intros step Hs H. apply (fold_add_sound _ _ _ Hs) in H.
    destruct H as [[] | [H1 H2]]. repeat split; auto. discriminate. }
  destruct (negb (str_in "." left_) && negb (str_in "." right_)).
  - destruct (py_int left_) as [l|]; [|intros []].
    destruct (py_int right_) as [r|]; [|intros []].
    apply G. intros res sc. destruct (str_in "-" sc) eqn:E; [auto|].
    destruct (str_in "." sc); [auto|].
    destruct (py_int sc) as [v|]; [|auto].
    destruct (in_span l v r); auto.
  - destruct (str_in "." left_ && str_in "." right_); [|intros []].
    destruct (rsplit1 "." left_) as [|lpref [|ltail [|? ?]]]; try (intros []).
    destruct (rsplit1 "." right_) as [|rpref [|rtail [|? ?]]]; try (intros []).
    destruct (negb (String.eqb lpref rpref)); [intros []|].
    destruct (py_int ltail) as [li|]; [|intros []].
    destruct (py_int rtail) as [ri|]; [|intros []].
    apply G. intros res sc.
    destruct (negb (startswith sc (lpref ++ "."))); [auto|].
    destruct (str_in "-" sc) eqn:E; [auto|].
    destruct (negb (nonempty (str_drop (String.length (lpref ++ ".")) sc))
              || str_in "." (str_drop (String.length (lpref ++ ".")) sc));
      [auto|].
    destruct (py_int (str_drop (String.length (lpref ++ ".")) sc)) as [vi|];
      [|auto].
    destruct (in_span li vi ri); auto.
Qed.

Lemma expand_range_children_nodup rc simple_codes :
  NoDup (expand_range_children rc simple_codes).
Proof.
  unfold expand_range_children.
  destruct (split_range rc) as [[left_ right_]|]; [|constructor].
  destruct (negb (str_in "." left_) && negb (str_in "." right_)).
  - destruct (py_int left_) as [l|]; [|constructor].
    destruct (py_int right_) as [r|]; [|constructor].
    apply fold_add_nodup; [|constructor]. intros res sc.
    destruct (str_in "-" sc); [auto|]. destruct (str_in "." sc); [auto|].
    destruct (py_int sc) as [v|]; [|auto]. destruct (in_span l v r); auto.
  - destruct (str_in "." left_ && str_in "." right_); [|constructor].
    destruct (rsplit1 "." left_) as [|lpref [|ltail [|? ?]]]; try constructor.
    destruct (rsplit1 "." right_) as [|rpref [|rtail [|? ?]]]; try constructor.
    destruct (negb (String.eqb lpref rpref)); [constructor|].
    destruct (py_int ltail) as [li|]; [|constructor].
    destruct (py_int rtail) as [ri|]; [|constructor].
    apply fold_add_nodup; [|constructor]. intros res sc.
    destruct (negb (startswith sc (lpref ++ "."))); [auto|].
    destruct (str_in "-" sc); [auto|].
    destruct (negb (nonempty (str_drop (String.length (lpref ++ ".")) sc))
              || str_in "." (str_drop (String.length (lpref ++ ".")) sc));
      [auto|].
    destruct (py_int (str_drop (String.length (lpref ++ ".")) sc)) as [vi|];
      [|auto].
    destruct (in_span li vi ri); auto.
Qed.

Lemma sch_range_parent_sound rc simple_set p :
  range_parent rc simple_set = Some p ->
  In p simple_set /\ str_in "-" rc = true /\ split_range rc <> None.
Proof.
  unfold range_parent. destruct (str_in "-" rc); simpl; [|discriminate].
  destruct (split_range rc) as [[left_ right_]|]; [|discriminate].
  destruct (str_in "." left_).
  - destruct (mem (hd "" (split1 "." left_)) simple_set) eqn:E;
      [|discriminate].
    intros H. inversion H; subst. apply mem_In in E.
    repeat split; auto. discriminate.
  - destruct (mem left_ simple_set) eqn:E; [|discriminate].
    intros H. inversion H; subst. apply mem_In in E.
    repeat split; auto. discriminate.
Qed.

Lemma attach_adds (simple_codes range_codes : list string) :
  adds (fun m =>
          fold_left
            (fun m rc =>
               match range_parent rc simple_codes with
               | Some parent =>
                   if nonempty parent then dict_alter (set_add rc) parent m
                   else m
               | None => m
               end)
            range_codes m)
       (fun k y => In y range_codes /\ range_parent y simple_codes = Some k
                   /\ nonempty k = true).
Proof.
  eapply adds_ext.
  - apply adds_fold with
      (P := fun rc k y => range_parent rc simple_codes = Some k
                          /\ nonempty k = true /\ y = rc).
    intros rc _. destruct (range_parent rc simple_codes) as [p|].
    + eapply adds_ext; [apply (adds_when (nonempty p) rc p)|].
      intros k y. split.
      * intros [H1 [-> ->]]. auto.
      * intros [H1 [H2 ->]]. inversion H1; subst. auto.
    + eapply adds_ext; [apply adds_skip|].
      intros k y. split; [tauto | intros [H _]; discriminate].
  - intros k y. split.
    + intros [rc [Hrc [Hp [Hn ->]]]]. auto.
    + intros [Hy [Hp Hn]]. exists y. auto.
Qed.

Lemma sch_build_child_map_spec codes k y :
  In y (kids_of k (build_child_map codes)) <->
  In k codes /\ child_of codes k y.
Proof.
  unfold build_child_map. cbv zeta.
  destruct (dict_of_keys
              (fun rc => expand_range_children rc (simple_of codes))
              (ranges_of codes)) as [R1 [R2 R3]].
  set (range_children :=
         fold_left (fun m rc =>
                      dict_set rc (expand_range_children rc (simple_of codes)) m)
                   (ranges_of codes) []) in *.
  destruct (keys_init (@nil string) codes) as [I1 I2].
  assert (S1 : NoDup (map fst (immediate_children_simple codes))).
  { rewrite sch_immediate_children_keys. exact I1. }
  pose proof (adds_seq _ _ _ _
    (adds_seq _ _ _ _ (adds_copy _ S1) (adds_copy _ R1))
    (attach_adds (simple_of codes) (ranges_of codes))) as A.
  simpl in A. destruct (A (dict_init [] codes)) as [_ H].
  rewrite H, kids_of_init, I2, sch_immediate_children_spec. clear H A.
  unfold child_of. split.
  - intros [[] | [Hk [[[_ [Hy Hi]] | Hr] | [Hy [Hp Hn]]]]];
      (split; [exact Hk|]); auto.
    right. left. unfold kids_of in Hr.
    destruct (dict_get k range_children) as [s|] eqn:E; [|destruct Hr].
    split.
    + apply R2. apply dict_get_keys. congruence.
    + apply R3 in E. now subst s.
  - intros [Hk [[Hy Hi] | [[Hr He] | [Hy [Hp Hn]]]]]; right;
      (split; [exact Hk|]); auto.
    left. right. unfold kids_of.
    destruct (dict_get k range_children) as [s|] eqn:E.
    + apply R3 in E. now subst s.
    + apply R2, dict_get_keys in Hr. congruence.
Qed.

Lemma sch_build_child_map_keys codes k :
  In k (map fst (build_child_map codes)) <-> In k codes.
Proof.
  unfold build_child_map. cbv zeta.
  rewrite <- (proj2 (keys_init (@nil string) codes) k).
  rewrite !keys_fold; [reflexivity | | |].
  - intros m x. apply keys_alter.
  - intros m x. apply keys_alter.
  - intros m x. destruct (range_parent x _) as [p|]; [|reflexivity].
    destruct (nonempty p); [apply keys_alter | reflexivity].
Qed.

Lemma sch_build_child_map_nodup codes : sets_nodup (build_child_map codes).
Proof.
  unfold build_child_map. cbv zeta.
  apply sets_nodup_fold.
  { intros m rc Hm. destruct (range_parent rc _) as [p|]; [|exact Hm].
    destruct (nonempty p); [|exact Hm].
    apply sets_nodup_alter; [apply NoDup_set_add | exact Hm]. }
  apply sets_nodup_fold.
  { intros m rk Hm.
    apply sets_nodup_alter; [apply NoDup_set_update | exact Hm]. }
  apply sets_nodup_fold.
  { intros m rk Hm.
    apply sets_nodup_alter; [apply NoDup_set_update | exact Hm]. }
  apply sets_nodup_init.
Qed.

End SchedulesFacts.

(* ===================================================================== *)
(** ** The child map of the tables *)
(* ===================================================================== *)

Module TablesFacts.
Import Tables.

Lemma tab_In_simple_of c codes :
  In c (simple_of codes) <-> In c codes /\ str_in "--" c = false.
Proof.
  unfold simple_of. rewrite filter_In, negb_true_iff. reflexivity.
Qed.

Lemma tab_In_ranges_of c codes :
  In c (ranges_of codes) <-> In c codes /\ str_in "--" c = true.
Proof. unfold ranges_of. rewrite filter_In. reflexivity. Qed.

Lemma tab_immediate_children_adds codes :
  adds (fun m =>
    fold_left
      (fun children c =>
         if str_in "--" c then children
         else
           fold_left
             (fun children d =>
                if String.eqb d c || str_in "--" d then children
                else if startswith d c
                        && (String.length c <? String.length d)%nat then
                  let remainder := str_drop (String.length c) d in
                  if isdigit remainder && (String.length remainder <=? 3)%nat
                  then dict_alter (set_add d) c children
                  else children
                else children)
             codes children)
      codes m)
    (fun k y => In k codes /\ In y codes /\ immediate_child k y = true).
Proof.
  eapply adds_ext.
  - apply adds_fold with
      (P := fun c k y => In y codes /\ k = c /\ immediate_child c y = true).
    intros c _. destruct (str_in "--" c) eqn:Ec.
    + eapply adds_ext; [apply adds_skip|]. intros k y. split; [tauto|].
      intros [_ [_ H]]. unfold immediate_child in H. rewrite Ec in H.
      discriminate.
    + eapply adds_ext.
      * apply adds_fold with
          (P := fun d k y => immediate_child c d = true /\ k = c /\ y = d).
        intros d _. eapply adds_eq; [|apply adds_when].
        intros m. unfold immediate_child. rewrite Ec. simpl.
        destruct (String.eqb d c || str_in "--" d); [reflexivity|]. simpl.
        destruct (startswith d c && (String.length c <? String.length d)%nat);
          reflexivity.
      * intros k y. split.
        -- intros [d [Hd [Hc [-> ->]]]]. auto.
        -- intros [Hy [-> Hc]]. exists y. auto.
  - intros k y. split.
    + intros [c [Hc [Hy [-> Hi]]]]. auto.
    + intros [Hk [Hy Hi]]. exists k. auto.
Qed.

Lemma tab_immediate_children_spec codes k y :
  In y (kids_of k (immediate_children_simple codes)) <->
  In k codes /\ In y codes /\ immediate_child k y = true.
Proof.
  unfold immediate_children_simple.
  destruct (tab_immediate_children_adds codes (dict_init (@nil string) codes))
    as [_ H].
  rewrite H, kids_of_init. destruct (keys_init (@nil string) codes) as [_ K].
  rewrite K. simpl. tauto.
Qed.

Lemma tab_immediate_children_keys codes :
  map fst (immediate_children_simple codes) =
  map fst (dict_init (@nil string) codes).
Proof.
  unfold immediate_children_simple.
  apply (tab_immediate_children_adds codes (dict_init (@nil string) codes)).
Qed.

Lemma tab_immediate_child_neq c d : immediate_child c d = true -> d <> c.
Proof.
  unfold immediate_child. intros H E. subst d.
  rewrite String.eqb_refl in H. simpl in H.
  rewrite andb_false_r in H. discriminate.
Qed.

Lemma tab_immediate_child_simple c d :
  immediate_child c d = true -> str_in "--" c = false /\ str_in "--" d = false.
Proof.
  unfold immediate_child. intros H.
  apply andb_true_iff in H. destruct H as [H _].
  apply andb_true_iff in H. destruct H as [H _].
  apply andb_true_iff in H. destruct H as [H1 H2].
  apply negb_true_iff in H1, H2. apply orb_false_iff in H2. tauto.
Qed.

Lemma tab_expand_range_children_sound rc simple_codes y :
  In y (expand_range_children rc simple_codes) ->
  In y simple_codes /\ str_in "--" y = false /\ split_range rc <> None.
Proof.
  unfold expand_range_children.
  destruct (split_range rc) as [[left_ right_]|]; [|intros []].
  destruct (py_int (lstrip_dash left_)) as [l|]; [|intros []].
  destruct (py_int (lstrip_dash right_)) as [r|]; [|intros []].
  intros H.
  apply (fold_add_sound (fun sc => str_in "--" sc = false)) in H.
  - destruct H as [[] | [H1 H2]]. repeat split; auto. discriminate.
  - intros res sc. destruct (str_in "--" sc) eqn:E; [auto|].
    destruct (negb (isdigit (lstrip_dash sc))); [auto|].
    destruct (py_int (lstrip_dash sc)) as [v|]; [|auto].
    destruct (in_span l v r); auto.
Qed.

Lemma first_in_truncations s simple_set p :
  first_in (truncations s) simple_set = Some p ->
  In p simple_set /\
  exists i, 1 <= i < String.length s /\ p = str_take i s /\
            forall j, i < j < String.length s ->
                      ~ In (str_take j s) simple_set.
Proof.
  unfold truncations. intros H.
  pose proof (first_in_countdown (fun i => str_take i s) simple_set
                (String.length s - 1)) as G.
  rewrite H in G. destruct G as [i [Hi [Hp [HS Hj]]]].
  split; [exact HS|]. exists i. split; [lia|]. split; [exact Hp|].
  intros j Hj'. apply Hj. lia.
Qed.

Lemma tab_range_parent_sound rc simple_set p :
  range_parent rc simple_set = Some p ->
  In p simple_set /\ str_in "--" rc = true /\ nonempty p = true.
Proof.
  unfold range_parent. destruct (str_in "--" rc); simpl; [|discriminate].
  destruct (split_range rc) as [[left_ right_]|]; [|discriminate].
  intros H. apply first_in_truncations in H.
  destruct H as [HS [i [Hi [-> _]]]]. repeat split; auto.
  apply nonempty_length. rewrite length_take; lia.
Qed.

Lemma tab_build_child_map_spec codes k y :
  In y (kids_of k (build_child_map codes)) <->
  In k codes /\ child_of codes k y.
Proof.
  unfold build_child_map. cbv zeta.
  destruct (dict_of_keys
              (fun rc => expand_range_children rc (simple_of codes))
              (ranges_of codes)) as [R1 [R2 R3]].
  set (range_children :=
         fold_left (fun m rc =>
                      dict_set rc (expand_range_children rc (simple_of codes)) m)
                   (ranges_of codes) []) in *.
  destruct (keys_init (@nil string) codes) as [I1 I2].
  assert (S1 : NoDup (map fst (immediate_children_simple codes))).
  { rewrite tab_immediate_children_keys. exact I1. }
  assert (A2 : adds
    (fun m => fold_left
       (fun m rk =>
          let m := dict_alter (set_update (snd rk)) (fst rk) m in
          match range_parent (fst rk) (simple_of codes) with
          | Some parent =>
              if nonempty parent then dict_alter (set_add (fst rk)) parent m
              else m
          | None => m
          end) range_children m)
    (fun k y => exists rk : string * list string, In rk range_children /\
       ((k = fst rk /\ In y (snd rk)) \/
        (range_parent (fst rk) (simple_of codes) = Some k
         /\ nonempty k = true /\ y = fst rk)))).
  { apply adds_fold. intros rk _. cbv zeta.
    apply (adds_seq (dict_alter (set_update (snd rk)) (fst rk))
             (fun m => match range_parent (fst rk) (simple_of codes) with
                       | Some parent =>
                           if nonempty parent
                           then dict_alter (set_add (fst rk)) parent m else m
                       | None => m
                       end)).
    - apply adds_alter_update.
    - destruct (range_parent (fst rk) (simple_of codes)) as [p|].
      + eapply adds_ext; [apply (adds_when (nonempty p) (fst rk) p)|].
        intros k' y'. split.
        * intros [H1 [-> ->]]. auto.
        * intros [H1 [H2 ->]]. inversion H1; subst. auto.
      + eapply adds_ext; [apply adds_skip|].
        intros k' y'. split; [tauto | intros [H _]; discriminate]. }
  pose proof (adds_seq _ _ _ _ (adds_copy _ S1) A2) as A.
  simpl in A. destruct (A (dict_init [] codes)) as [_ H].
  rewrite H, kids_of_init, I2, tab_immediate_children_spec. clear H A A2.
  unfold child_of. split.
  - intros [[] | [Hk [[_ [Hy Hi]] | [[rc s] [Hin Hr]]]]];
      (split; [exact Hk|]); auto.
    simpl in Hr. pose proof (In_dict_get _ _ _ R1 Hin) as E.
    assert (Hrc : In rc (ranges_of codes)).
    { apply R2, dict_get_keys. congruence. }
    apply R3 in E. subst s.
    destruct Hr as [[-> Hy] | [Hp [Hn ->]]]; auto.
  - intros [Hk [[Hy Hi] | [[Hr He] | [Hy [Hp Hn]]]]]; right;
      (split; [exact Hk|]); auto.
    + right. apply R2, dict_get_keys in Hr.
      destruct (dict_get k range_children) as [s|] eqn:E; [|congruence].
      exists (k, s). split; [now apply dict_get_In|]. left. simpl.
      apply R3 in E. subst s. auto.
    + right. apply R2, dict_get_keys in Hy.
      destruct (dict_get y range_children) as [s|] eqn:E; [|congruence].
      exists (y, s). split; [now apply dict_get_In|]. right. simpl. auto.
Qed.

Lemma tab_build_child_map_keys codes k :
  In k (map fst (build_child_map codes)) <-> In k codes.
Proof.
  unfold build_child_map. cbv zeta.
  rewrite <- (proj2 (keys_init (@nil string) codes) k).
  rewrite !keys_fold; [reflexivity | |].
  - intros m x. apply keys_alter.
  - intros m x. destruct (range_parent (fst x) _) as [p|];
      [|apply keys_alter].
    destruct (nonempty p); [|apply keys_alter].
    rewrite keys_alter. apply keys_alter.
Qed.

Lemma tab_build_child_map_nodup codes : sets_nodup (build_child_map codes).
Proof.
  unfold build_child_map. cbv zeta.
  apply sets_nodup_fold.
  { intros m rk Hm.
    assert (H1 : sets_nodup (dict_alter (set_update (snd rk)) (fst rk) m)).
    { apply sets_nodup_alter; [apply NoDup_set_update | exact Hm]. }
    destruct (range_parent (fst rk) _) as [p|]; [|exact H1].
    destruct (nonempty p); [|exact H1].
    apply sets_nodup_alter; [apply NoDup_set_add | exact H1]. }
  apply sets_nodup_fold.
  { intros m rk Hm.
    apply sets_nodup_alter; [apply NoDup_set_update | exact Hm]. }
  apply sets_nodup_init.
Qed.

End TablesFacts.

(* ===================================================================== *)
(** ** The code index and the assignment loop *)
(* ===================================================================== *)

Lemma owns_positions idx c p :
  NoDup (map fst idx) -> (owns idx c p <-> In p (positions c idx)).
Proof.
  intros Hnd. unfold owns, positions. split.
  - intros [ents [H1 H2]]. now rewrite (In_dict_get _ _ _ Hnd H1).
  - destruct (dict_get c idx) as [ents|] eqn:E; [|intros []].
    intros H. exists ents. split; [now apply dict_get_In | exact H].
Qed.

Lemma positions_append c' c i idx p :
  In p (positions c' (index_append c i idx)) <->
  In p (positions c' idx) \/ (c' = c /\ p = i).
Proof.
  unfold positions, index_append, dict_has.
  destruct (dict_get c idx) as [l|] eqn:E.
  - rewrite dict_get_alter. destruct (String.eqb c' c) eqn:Ec.
    + apply String.eqb_eq in Ec. subst c'. rewrite E. simpl.
      rewrite in_app_iff. simpl. intuition.
    + apply String.eqb_neq in Ec. intuition.
  - rewrite dict_get_set. destruct (String.eqb c' c) eqn:Ec.
    + apply String.eqb_eq in Ec. subst c'. rewrite E. simpl. intuition.
    + apply String.eqb_neq in Ec. intuition.
Qed.

Lemma keys_append c i idx :
  (NoDup (map fst idx) -> NoDup (map fst (index_append c i idx))) /\
  forall k, In k (map fst (index_append c i idx)) <->
            k = c \/ In k (map fst idx).
Proof.
  unfold index_append, dict_has.
  destruct (dict_get c idx) as [l|] eqn:E.
  - rewrite keys_alter. split; [auto|]. intros k. split; [auto|].
    intros [-> | H]; [|exact H]. apply dict_get_keys. congruence.
  - split; [apply NoDup_keys_set | apply keys_set].
Qed.

Section IndexFacts.
Variable extract_code : dict -> option json.

Lemma build_from_spec entries : forall i idx es idx',
  build_from extract_code i entries idx = Some (es, idx') ->
  es = map (marked extract_code) entries
  /\ (NoDup (map fst idx) -> NoDup (map fst idx'))
  /\ forall c p,
       In p (positions c idx') <->
       In p (positions c idx)
       \/ (i <= p /\ exists e, nth_error entries (p - i) = Some e
                               /\ code_at extract_code e = Some c).
Proof.
  induction entries as [|e entries IH]; intros i idx es idx' H.
  - simpl in H. inversion H; subst. split; [reflexivity|]. split; [auto|].
    intros c p. split; [auto|]. intros [H1 | [_ [e [H1 _]]]]; [exact H1|].
    destruct (p - i); discriminate.
  - assert (Skip : forall idx1 e1,
      keep e1 (build_from extract_code (S i) entries idx1) = Some (es, idx') ->
      exists es0, es = e1 :: es0 /\
        build_from extract_code (S i) entries idx1 = Some (es0, idx')).
    { intros idx1 e1 K.
      destruct (build_from extract_code (S i) entries idx1) as [[es0 idx0]|];
        simpl in K; [|discriminate].
      inversion K; subst. eauto. }
    assert (Tail : forall c p,
      (S i <= p /\ exists e0, nth_error entries (p - S i) = Some e0
                              /\ code_at extract_code e0 = Some c) <->
      (i <= p /\ p <> i /\ exists e0, nth_error (e :: entries) (p - i) = Some e0
                              /\ code_at extract_code e0 = Some c)).
    { intros c p. split.
      - intros [Hp Hx]. split; [lia|]. split; [lia|].
        replace (p - i) with (S (p - S i)) by lia. exact Hx.
      - intros [Hp [Hn Hx]]. split; [lia|].
        replace (p - i) with (S (p - S i)) in Hx by lia. exact Hx. }
    assert (Head : forall c p, i <= p ->
      (exists e0, nth_error (e :: entries) (p - i) = Some e0
                  /\ code_at extract_code e0 = Some c) ->
      p = i -> code_at extract_code e = Some c).
    { intros c p Hp [e0 [H1 H2]] ->. rewrite Nat.sub_diag in H1.
      simpl in H1. congruence. }
    assert (Plain : code_at extract_code e = None ->
      keep (marked extract_code e)
           (build_from extract_code (S i) entries idx) = Some (es, idx') ->
      es = map (marked extract_code) (e :: entries)
      /\ (NoDup (map fst idx) -> NoDup (map fst idx'))
      /\ forall c p,
           In p (positions c idx') <->
           In p (positions c idx)
           \/ (i <= p /\ exists e0, nth_error (e :: entries) (p - i) = Some e0
                                    /\ code_at extract_code e0 = Some c)).
    { intros Hc K. apply Skip in K. destruct K as [es0 [-> K]].
      apply IH in K. destruct K as [-> [K1 K2]].
      split; [reflexivity|]. split; [exact K1|]. intros c p.
      rewrite K2, Tail. split; [intuition|].
      intros [H1 | [Hp Hx]]; [auto|].
      destruct (Nat.eq_dec p i) as [Ei|Ei]; [|auto].
      pose proof (Head c p Hp Hx Ei). congruence. }
    destruct e as [| b | n | s | items | fields];
      try (apply Plain; [reflexivity | exact H]).
    cbn [build_from] in H.
    destruct (extract_code fields) as [code|] eqn:Ex; [|discriminate].
    destruct (truthy code) eqn:Et.
    + destruct code as [| b | n | c0 | items | fs]; try discriminate.
      apply Skip in H. destruct H as [es0 [-> K]].
      apply IH in K. destruct K as [-> [K1 K2]].
      assert (Hc : code_at extract_code (JObj fields) = Some c0).
      { simpl. rewrite Ex. simpl in Et. now rewrite Et. }
      split; [simpl; now rewrite Ex|].
      split; [intros Hnd; apply K1, keys_append, Hnd|].
      intros c p. rewrite K2, positions_append, Tail. split.
      * intros [[H1 | [-> ->]] | H1]; [auto | | intuition].
        right. split; [lia|]. exists (JObj fields).
        rewrite Nat.sub_diag. auto.
      * intros [H1 | [Hp Hx]]; [auto|].
        destruct (Nat.eq_dec p i) as [Ei|Ei]; [|auto].
        pose proof (Head c p Hp Hx Ei). left. right. split; congruence.
    + apply Plain; [|simpl; rewrite Ex; exact H].
      simpl. rewrite Ex. destruct code; try reflexivity.
      simpl in Et. now rewrite Et.
Qed.

Lemma build_from_ext es1 : forall es2 i idx,
  Forall2 (fun e1 e2 => code_view extract_code e1 = code_view extract_code e2)
          es1 es2 ->
  option_map snd (build_from extract_code i es1 idx) =
  option_map snd (build_from extract_code i es2 idx).
Proof.
  induction es1 as [|e1 es1 IH]; intros es2 i idx H; inversion H; subst.
  - reflexivity.
  - rename y into e2, l' into es2'.
    assert (K : forall a b idx1,
      option_map snd (keep a (build_from extract_code (S i) es1 idx1)) =
      option_map snd (keep b (build_from extract_code (S i) es2' idx1))).
    { intros a b idx1. pose proof (IH es2' (S i) idx1 H4) as G.
      destruct (build_from extract_code (S i) es1 idx1) as [[? ?]|],
               (build_from extract_code (S i) es2' idx1) as [[? ?]|];
        simpl in *; congruence. }
    destruct e1 as [| | | | |f1], e2 as [| | | | |f2];
      simpl in H2; try discriminate; try apply K.
    cbn [build_from]. inversion H2 as [E]. rewrite E.
    destruct (extract_code f2) as [code|]; [|reflexivity].
    destruct (truthy code); [|apply K].
    destruct code; try reflexivity. apply K.
Qed.
End IndexFacts.

Lemma update_at_spec f : forall i es out,
  update_at f i es = Some out ->
  List.length out = List.length es
  /\ (forall p, p <> i -> nth_error out p = nth_error es p)
  /\ (forall e, nth_error es i = Some e ->
        exists e', f e = Some e' /\ nth_error out i = Some e').
Proof.
  intros i es. revert i. induction es as [|e es IH]; intros i out H.
  - destruct i; simpl in H; inversion H; subst;
      (split; [reflexivity|]; split; [reflexivity|]; intros e; discriminate).
  - destruct i as [|i]; simpl in H.
    + destruct (f e) as [e'|] eqn:E; [|discriminate]. inversion H; subst.
      split; [reflexivity|]. split.
      * intros [|p] Hp; [congruence | reflexivity].
      * intros e0 He. inversion He; subst. eauto.
    + destruct (update_at f i es) as [rest|] eqn:E; [|discriminate].
      inversion H; subst. destruct (IH _ _ E) as [L [U V]].
      split; [simpl; congruence|]. split.
      * intros [|p] Hp; [reflexivity|]. simpl. apply U. congruence.
      * intros e0 He. simpl in He. apply V in He. exact He.
Qed.

Lemma update_at_total f : forall i es,
  (forall e, nth_error es i = Some e -> f e <> None) ->
  exists out, update_at f i es = Some out.
Proof.
  intros i es. revert i. induction es as [|e es IH]; intros i H.
  - destruct i; simpl; eauto.
  - destruct i as [|i]; simpl.
    + destruct (f e) as [e'|] eqn:E; [eauto|].
      exfalso. apply (H e); auto.
    + destruct (IH i) as [rest Hr]; [intros e0 He; apply H; exact He|].
      rewrite Hr. eauto.
Qed.

Section Assign.
Variable write : string -> json -> option json.
Hypothesis write_again :
  forall c e e', write c e = Some e' -> write c e' = Some e'.

Lemma for_each_spec c ents : forall es out,
  for_each (write c) ents es = Some out ->
  List.length out = List.length es
  /\ (forall p, ~ In p ents -> nth_error out p = nth_error es p)
  /\ (forall p e, In p ents -> nth_error es p = Some e ->
        exists e', write c e = Some e' /\ nth_error out p = Some e').
Proof.
  induction ents as [|i ents IH]; intros es out H; simpl in H.
  - inversion H; subst. split; [reflexivity|]. split; [reflexivity|].
    intros p e [].
  - destruct (update_at (write c) i es) as [es1|] eqn:E; [|discriminate].
    destruct (update_at_spec _ _ _ _ E) as [L1 [U1 V1]].
    destruct (IH _ _ H) as [L2 [U2 V2]].
    split; [congruence|]. split.
    + intros p Hp. simpl in Hp. rewrite U2, U1; [reflexivity | |];
        intuition congruence.
    + intros p e Hp He.
      destruct (Nat.eq_dec p i) as [->|Hn].
      * destruct (V1 _ He) as [e1 [W1 N1]].
        destruct (in_dec Nat.eq_dec i ents) as [Hi|Hi].
        -- destruct (V2 _ _ Hi N1) as [e2 [W2 N2]].
           rewrite (write_again _ _ _ W1) in W2. inversion W2; subst. eauto.
        -- exists e1. split; [exact W1|]. now rewrite U2.
      * destruct Hp as [Hp | Hp]; [congruence|].
        apply (V2 _ _ Hp). rewrite U1; auto.
Qed.

Lemma for_each_total c ents : forall es,
  (forall p e, In p ents -> nth_error es p = Some e -> write c e <> None) ->
  exists out, for_each (write c) ents es = Some out.
Proof.
  induction ents as [|i ents IH]; intros es H; simpl; [eauto|].
  destruct (update_at_total (write c) i es) as [es1 E].
  { intros e He. apply (H i e); simpl; auto. }
  rewrite E. apply IH. intros p e Hp He.
  destruct (update_at_spec _ _ _ _ E) as [L1 [U1 V1]].
  destruct (Nat.eq_dec p i) as [->|Hn].
  - destruct (nth_error es i) as [e0|] eqn:E0.
    + destruct (V1 _ eq_refl) as [e1 [W1 N1]].
      rewrite N1 in He. inversion He; subst.
      rewrite (write_again _ _ _ W1). discriminate.
    + apply nth_error_None in E0.
      assert (nth_error es1 i = None) by (apply nth_error_None; lia).
      congruence.
  - rewrite U1 in He by exact Hn. apply (H p e); simpl; auto.
Qed.

Lemma owns_cons c0 ents0 rest c p :
  owns ((c0, ents0) :: rest) c p <->
  (c = c0 /\ In p ents0) \/ owns rest c p.
Proof.
  unfold owns. simpl. split.
  - intros [ents [[H | H] Hp]]; [inversion H; subst; auto|].
    right. eauto.
  - intros [[-> Hp] | [ents [H Hp]]]; eauto.
Qed.

Lemma owned_dec (idx : index) p :
  (exists c, owns idx c p) \/ (forall c, ~ owns idx c p).
Proof.
  induction idx as [|[c0 ents0] rest IH].
  - right. intros c [ents [[] _]].
  - destruct (in_dec Nat.eq_dec p ents0) as [Hi|Hi].
    + left. exists c0. apply owns_cons. auto.
    + destruct IH as [[c Hc] | Hn].
      * left. exists c. apply owns_cons. auto.
      * right. intros c Hc. apply owns_cons in Hc.
        destruct Hc as [[_ Hc] | Hc]; [auto | apply (Hn c Hc)].
Qed.

Lemma assign_spec idx : forall es out,
  (forall c c' p, owns idx c p -> owns idx c' p -> c = c') ->
  assign write idx es = Some out ->
  List.length out = List.length es
  /\ (forall p, (forall c, ~ owns idx c p) ->
        nth_error out p = nth_error es p)
  /\ (forall c p e, owns idx c p -> nth_error es p = Some e ->
        exists e', write c e = Some e' /\ nth_error out p = Some e').
Proof.
  induction idx as [|[c0 ents0] rest IH]; intros es out Huniq H; simpl in H.
  - inversion H; subst. split; [reflexivity|]. split; [reflexivity|].
    intros c p e [ents [[] _]].
  - destruct (for_each (write c0) ents0 es) as [es1|] eqn:E; [|discriminate].
    destruct (for_each_spec _ _ _ _ E) as [L1 [U1 V1]].
    destruct (IH es1 out) as [L2 [U2 V2]]; [|exact H|].
    { intros c c' p Hc Hc'. apply (Huniq c c' p); apply owns_cons; auto. }
    split; [congruence|]. split.
    + intros p Hp. rewrite U2, U1; [reflexivity | |].
      * intros Hi. apply (Hp c0), owns_cons. auto.
      * intros c Hc. apply (Hp c), owns_cons. auto.
    + intros c p e Hc He.
      destruct (in_dec Nat.eq_dec p ents0) as [Hi|Hi].
      * assert (c = c0).
        { apply (Huniq c c0 p); [exact Hc | apply owns_cons; auto]. }
        subst c0. destruct (V1 _ _ Hi He) as [e1 [W1 N1]].
        destruct (owned_dec rest p) as [[c' Hc'] | Hn].
        -- assert (c' = c).
           { apply (Huniq c' c p); [apply owns_cons; auto | exact Hc]. }
           subst c'. destruct (V2 _ _ _ Hc' N1) as [e2 [W2 N2]].
           rewrite (write_again _ _ _ W1) in W2. inversion W2; subst. eauto.
        -- exists e1. split; [exact W1|]. now rewrite U2.
      * apply owns_cons in Hc. destruct Hc as [[_ Hc] | Hc]; [tauto|].
        apply (V2 _ _ _ Hc). now rewrite U1.
Qed.

Lemma assign_total idx : forall es,
  (forall c c' p, owns idx c p -> owns idx c' p -> c = c') ->
  (forall c p e, owns idx c p -> nth_error es p = Some e ->
                 write c e <> None) ->
  exists out, assign write idx es = Some out.
Proof.
  induction idx as [|[c0 ents0] rest IH]; intros es Huniq H; simpl; [eauto|].
  destruct (for_each_total c0 ents0 es) as [es1 E].
  { intros p e Hp He. apply (H c0 p e); [apply owns_cons; auto | exact He]. }
  rewrite E. destruct (for_each_spec _ _ _ _ E) as [L1 [U1 V1]].
  apply IH.
  - intros c c' p Hc Hc'. apply (Huniq c c' p); apply owns_cons; auto.
  - intros c p e1 Hc He1.
    destruct (in_dec Nat.eq_dec p ents0) as [Hi|Hi].
    + assert (c = c0).
      { apply (Huniq c c0 p); apply owns_cons; auto. }
      subst c0. destruct (nth_error es p) as [e|] eqn:E0.
      * destruct (V1 _ _ Hi E0) as [e' [W1 N1]].
        rewrite N1 in He1. inversion He1; subst.
        rewrite (write_again _ _ _ W1). discriminate.
      * apply nth_error_None in E0.
        assert (nth_error es1 p = None) by (apply nth_error_None; lia).
        congruence.
    + rewrite U1 in He1 by exact Hi.
      apply (H c p e1); [apply owns_cons; auto | exact He1].
Qed.
End Assign.

(** *** The two passes together *)

Section Process.
Variable extract_code : dict -> option json.
Variable write : string -> json -> option json.

Hypothesis write_again :
  forall c e e', write c e = Some e' -> write c e' = Some e'.

Lemma index_spec entries es idx :
  build_indices_with extract_code entries = Some (es, idx) ->
  es = map (marked extract_code) entries
  /\ NoDup (map fst idx)
  /\ (forall c p, owns idx c p <->
        exists e, nth_error entries p = Some e
                  /\ code_at extract_code e = Some c).
Proof.
  unfold build_indices_with. intros H.
  apply build_from_spec in H. destruct H as [H1 [H2 H3]].
  assert (Hnd : NoDup (map fst idx)) by (apply H2; constructor).
  split; [exact H1|]. split; [exact Hnd|].
  intros c p. rewrite (owns_positions _ _ _ Hnd), H3.
  rewrite Nat.sub_0_r. unfold positions. simpl. split.
  - intros [[] | [_ H]]. exact H.
  - intros H. right. split; [lia | exact H].
Qed.

Lemma index_owner entries es idx c c' p :
  build_indices_with extract_code entries = Some (es, idx) ->
  owns idx c p -> owns idx c' p -> c = c'.
Proof.
  intros H Hc Hc'. destruct (index_spec _ _ _ H) as [_ [_ O]].
  apply O in Hc, Hc'. destruct Hc as [e [H1 H2]], Hc' as [e' [H1' H2']].
  congruence.
Qed.

(** What the two passes leave at each position. *)
Lemma process_spec entries es idx out :
  build_indices_with extract_code entries = Some (es, idx) ->
  assign write idx es = Some out ->
  List.length out = List.length entries
  /\ forall p e, nth_error entries p = Some e ->
       match code_at extract_code e with
       | Some c => exists e', write c (marked extract_code e) = Some e'
                              /\ nth_error out p = Some e'
       | None => nth_error out p = Some (marked extract_code e)
       end.
Proof.
  intros Hb Ha. destruct (index_spec _ _ _ Hb) as [-> [Hnd O]].
  destruct (assign_spec write write_again idx
              (map (marked extract_code) entries) out) as [L [U V]];
    [intros c c' p; apply (index_owner _ _ _ _ _ _ Hb) | exact Ha |].
  rewrite length_map in L. split; [exact L|].
  intros p e He.
  assert (Hm : nth_error (map (marked extract_code) entries) p
               = Some (marked extract_code e)).
  { rewrite nth_error_map, He. reflexivity. }
  destruct (code_at extract_code e) as [c|] eqn:Ec.
  - apply (V c p); [|exact Hm]. apply O. eauto.
  - rewrite U; [exact Hm|]. intros c Hc. apply O in Hc.
    destruct Hc as [e0 [H1 H2]]. congruence.
Qed.

Hypothesis extract_ignores_bfCode :
  forall fields v, extract_code (dict_set "bfCode" v fields)
                   = extract_code fields.
Hypothesis write_keeps_view :
  forall c e e', write c e = Some e' ->
                 code_view extract_code e' = code_view extract_code e.
Hypothesis write_keeps_mark :
  forall c e e', write c e = Some e' ->
                 marked extract_code e = e -> marked extract_code e' = e'.

Lemma marked_view e :
  code_view extract_code (marked extract_code e) = code_view extract_code e.
Proof.
  destruct e; try reflexivity. simpl.
  destruct (extract_code fields) as [code|] eqn:E; simpl.
  - now rewrite extract_ignores_bfCode, E.
  - now rewrite E.
Qed.

Lemma marked_marked e :
  marked extract_code (marked extract_code e) = marked extract_code e.
Proof.
  destruct e; try reflexivity. simpl.
  destruct (extract_code fields) as [code|] eqn:E; simpl.
  - rewrite extract_ignores_bfCode, E. f_equal. apply dict_set_same.
    rewrite dict_get_set, String.eqb_refl. reflexivity.
  - now rewrite E.
Qed.

(** Running the two passes on their own output changes nothing. *)
Lemma process_twice entries es idx out :
  build_indices_with extract_code entries = Some (es, idx) ->
  assign write idx es = Some out ->
  exists es2, build_indices_with extract_code out = Some (es2, idx)
              /\ assign write idx es2 = Some out.
Proof.
  intros Hb Ha. destruct (process_spec _ _ _ _ Hb Ha) as [L P].
  assert (Hview : Forall2 (fun e1 e2 => code_view extract_code e1
                                        = code_view extract_code e2)
                          out entries).
  { apply Forall2_of_nth; [exact L|].
    intros p e' e He' He. specialize (P p e He).
    destruct (code_at extract_code e) as [c|].
    - destruct P as [e2 [W N]]. rewrite N in He'. inversion He'; subst.
      rewrite (write_keeps_view _ _ _ W). apply marked_view.
    - rewrite P in He'. inversion He'; subst. apply marked_view. }
  pose proof (build_from_ext extract_code _ _ 0 [] Hview) as E.
  fold (build_indices_with extract_code out) in E.
  fold (build_indices_with extract_code entries) in E.
  rewrite Hb in E. simpl in E.
  destruct (build_indices_with extract_code out) as [[es2 idx2]|] eqn:Hb2;
    simpl in E; [|discriminate].
  inversion E; subst idx2. exists es2. split; [reflexivity|].
  destruct (index_spec _ _ _ Hb) as [_ [_ O]].
  destruct (index_spec _ _ _ Hb2) as [-> [_ O2]].
  assert (Hout : forall p e', nth_error out p = Some e' ->
            nth_error (map (marked extract_code) out) p = Some e').
  { intros p e' He'. rewrite nth_error_map, He'. simpl. f_equal.
    destruct (nth_error entries p) as [e|] eqn:He.
    - specialize (P p e He). destruct (code_at extract_code e) as [c|].
      + destruct P as [e2 [W N]]. rewrite N in He'. inversion He'; subst.
        apply (write_keeps_mark _ _ _ W), marked_marked.
      + rewrite P in He'. inversion He'; subst. apply marked_marked.
    - apply nth_error_None in He.
      assert (nth_error out p = None) by (apply nth_error_None; lia).
      congruence. }
  assert (Hsame : map (marked extract_code) out = out).
  { apply nth_error_ext. intros p.
    destruct (nth_error out p) as [e'|] eqn:He'; [now apply Hout|].
    apply nth_error_None. rewrite length_map. now apply nth_error_None. }
  rewrite Hsame in *.
  assert (Hfix : forall c p e', owns idx c p -> nth_error out p = Some e' ->
                                write c e' = Some e').
  { intros c p e' Hc He'. apply O in Hc. destruct Hc as [e [He Hcode]].
    specialize (P p e He). rewrite Hcode in P. destruct P as [e2 [W N]].
    rewrite N in He'. inversion He'; subst. apply (write_again _ _ _ W). }
  destruct (assign_total write write_again idx out) as [out2 Ha2].
  { intros c c' p. apply (index_owner _ _ _ _ _ _ Hb). }
  { intros c p e' Hc He'. rewrite (Hfix c p e' Hc He'). discriminate. }
  rewrite Ha2. f_equal.
  destruct (assign_spec write write_again idx out out2) as [L2 [U2 V2]];
    [intros c c' p; apply (index_owner _ _ _ _ _ _ Hb) | exact Ha2 |].
  apply nth_error_ext. intros p.
  destruct (owned_dec idx p) as [[c Hc] | Hn].
  - destruct (nth_error out p) as [e'|] eqn:He'.
    + destruct (V2 c p e' Hc He') as [e2 [W2 N2]].
      rewrite (Hfix c p e' Hc He') in W2. congruence.
    + apply nth_error_None. apply nth_error_None in He'. lia.
  - apply U2, Hn.
Qed.
End Process.

(* ===================================================================== *)
(** ** What the two scripts write into an entry *)
(* ===================================================================== *)

Lemma get_or_set k k' v d default :
  String.eqb k k' = false ->
  get_or k default (dict_set k' v d) = get_or k default d.
Proof. intros E. unfold get_or. now rewrite dict_get_set, E. Qed.

Lemma dict_set_twice {V} k (v : V) d :
  dict_set k v (dict_set k v d) = dict_set k v d.
Proof.
  apply dict_set_same. now rewrite dict_get_set, String.eqb_refl.
Qed.

Lemma dict_set_fixed {V} k (v : V) d :
  dict_set k v d = d -> dict_get k d = Some v.
Proof.
  intros E. rewrite <- E. now rewrite dict_get_set, String.eqb_refl.
Qed.

Module SchedulesEntries.
Import Schedules.

Lemma sch_extract_code_set k v fields :
  String.eqb "id" k = false -> String.eqb "notation" k = false ->
  extract_code (dict_set k v fields) = extract_code fields.
Proof.
  intros E1 E2. unfold extract_code. now rewrite !get_or_set.
Qed.

Lemma sch_write_again codes c e e' :
  write_hierarchy codes c e = Some e' -> write_hierarchy codes c e' = Some e'.
Proof.
  destruct e; simpl; intros H; inversion H; subst; try reflexivity.
  simpl. now rewrite dict_set_twice.
Qed.

Lemma sch_write_keeps_view codes c e e' :
  write_hierarchy codes c e = Some e' ->
  code_view extract_code e' = code_view extract_code e.
Proof.
  destruct e; simpl; intros H; inversion H; subst; try reflexivity.
  simpl. now rewrite sch_extract_code_set.
Qed.

Lemma sch_write_keeps_mark codes c e e' :
  write_hierarchy codes c e = Some e' ->
  marked extract_code e = e -> marked extract_code e' = e'.
Proof.
  destruct e; simpl; intros H; inversion H; subst; try reflexivity.
  simpl. rewrite sch_extract_code_set by reflexivity.
  destruct (extract_code fields) as [code|]; [|reflexivity].
  intros M. injection M as M'. apply dict_set_fixed in M'.
  f_equal. apply dict_set_same. rewrite dict_get_set. exact M'.
Qed.

Lemma process_entries_total entries es idx :
  build_indices entries = Some (es, idx) ->
  exists out, process_entries entries = Some out.
Proof.
  intros H. unfold process_entries. rewrite H.
  apply assign_total.
  - apply sch_write_again.
  - intros c c' p. apply (index_owner extract_code _ _ _ _ _ _ H).
  - intros c p e _ _. destruct e; discriminate.
Qed.

End SchedulesEntries.

Module TablesEntries.
Import Tables.

Lemma tab_extract_code_set k v fields :
  String.eqb "id" k = false -> String.eqb "notation" k = false ->
  extract_code (dict_set k v fields) = extract_code fields.
Proof.
  intros E1 E2. unfold extract_code. now rewrite !dict_get_set, E1, E2.
Qed.

Lemma store_again (b n : json) (h : dict) :
  dict_set "broader" b (dict_set "narrower" n
    (dict_set "broader" b (dict_set "narrower" n h)))
  = dict_set "broader" b (dict_set "narrower" n h).
Proof.
  set (h' := dict_set "broader" b (dict_set "narrower" n h)).
  assert (E : dict_set "narrower" n h' = h').
  { apply dict_set_same. unfold h'.
    rewrite dict_get_set. simpl. now rewrite dict_get_set. }
  rewrite E. apply dict_set_twice.
Qed.

(** The entry written for [code], given the [hierarchy] object found. *)
Lemma write_hierarchy_shape codes c e e' :
  write_hierarchy codes c e = Some e' ->
  (e' = e /\ forall fields, e <> JObj fields)
  \/ exists fields h,
       e = JObj fields /\
       (dict_get "hierarchy" fields = None /\ h = []
        \/ dict_get "hierarchy" fields = Some (JObj h)) /\
       e' = JObj (dict_set "hierarchy"
                    (JObj (dict_set "broader" (json_opt (broader_of codes c))
                             (dict_set "narrower"
                                (json_strs (narrower_of codes c)) h)))
                    fields).
Proof.
  destruct e; simpl; intros H;
    try (inversion H; subst; left; split; [reflexivity | discriminate]).
  right. destruct (dict_get "hierarchy" fields) as [v|] eqn:E.
  - destruct v; try discriminate. inversion H; subst.
    exists fields, fields0. auto.
  - inversion H; subst. exists fields, []. auto.
Qed.

Lemma tab_write_again codes c e e' :
  write_hierarchy codes c e = Some e' -> write_hierarchy codes c e' = Some e'.
Proof.
  intros H. destruct (write_hierarchy_shape _ _ _ _ H)
    as [[-> Hn] | [fields [h [-> [_ ->]]]]]; [exact H|].
  cbn [write_hierarchy]. rewrite dict_get_set. simpl.
  now rewrite store_again, dict_set_twice.
Qed.

Lemma tab_write_keeps_view codes c e e' :
  write_hierarchy codes c e = Some e' ->
  code_view extract_code e' = code_view extract_code e.
Proof.
  intros H. destruct (write_hierarchy_shape _ _ _ _ H)
    as [[-> Hn] | [fields [h [-> [_ ->]]]]]; [reflexivity|].
  simpl. now rewrite tab_extract_code_set.
Qed.

Lemma tab_write_keeps_mark codes c e e' :
  write_hierarchy codes c e = Some e' ->
  marked extract_code e = e -> marked extract_code e' = e'.
Proof.
  intros H. destruct (write_hierarchy_shape _ _ _ _ H)
    as [[-> Hn] | [fields [h [-> [_ ->]]]]]; [auto|].
  simpl. rewrite tab_extract_code_set by reflexivity.
  destruct (extract_code fields) as [code|]; [|reflexivity].
  intros M. injection M as M'. apply dict_set_fixed in M'.
  f_equal. apply dict_set_same. rewrite dict_get_set. exact M'.
Qed.

End TablesEntries.

(** *** Entries of a file that was indexed without an exception *)

Section Indexed.
Variable extract_code : dict -> option json.

Lemma build_from_extracts entries : forall i idx r,
  build_from extract_code i entries idx = Some r ->
  forall fields, In (JObj fields) entries ->
    exists code, extract_code fields = Some code
                 /\ (truthy code = true -> exists c, code = JStr c).
Proof.
  induction entries as [|e entries IH]; intros i idx r H fields Hin;
    [destruct Hin|]. destruct Hin as [He | He].
  - subst e. cbn [build_from] in H.
    destruct (extract_code fields) as [code|]; [|discriminate].
    exists code. split; [reflexivity|]. intros Ht. rewrite Ht in H.
    destruct code; try discriminate. eauto.
  - assert (K : forall e1 idx1,
      keep e1 (build_from extract_code (S i) entries idx1) = Some r ->
      exists r1, build_from extract_code (S i) entries idx1 = Some r1).
    { intros e1 idx1 K.
      destruct (build_from extract_code (S i) entries idx1) as [r1|];
        [eauto | discriminate]. }
    destruct e as [| | | | |f0]; try (apply K in H; destruct H as [r1 H];
      apply (IH _ _ _ H fields He)).
    cbn [build_from] in H.
    destruct (extract_code f0) as [code|]; [|discriminate].
    destruct (truthy code).
    + destruct code; try discriminate. apply K in H. destruct H as [r1 H].
      apply (IH _ _ _ H fields He).
    + apply K in H. destruct H as [r1 H]. apply (IH _ _ _ H fields He).
Qed.

Lemma no_code_extracts entries r fields :
  build_indices_with extract_code entries = Some r ->
  In (JObj fields) entries ->
  code_at extract_code (JObj fields) = None ->
  exists code, extract_code fields = Some code /\ truthy code = false.
Proof.
  intros H Hin Hc.
  destruct (build_from_extracts _ _ _ _ H fields Hin) as [code [E T]].
  exists code. split; [exact E|].
  destruct (truthy code) eqn:Et; [|reflexivity].
  destruct (T eq_refl) as [c ->]. simpl in Hc, Et. rewrite E, Et in Hc.
  discriminate.
Qed.

Lemma owns_listed (idx : index) c ents p :
  NoDup (map fst idx) -> In (c, ents) idx ->
  (owns idx c p <-> In p ents).
Proof.
  intros Hnd Hin. split.
  - intros [ents' [H1 H2]].
    pose proof (In_dict_get _ _ _ Hnd Hin).
    pose proof (In_dict_get _ _ _ Hnd H1). congruence.
  - intros H. exists ents. auto.
Qed.
End Indexed.

Lemma kids_of_nodup m k : sets_nodup m -> NoDup (kids_of k m).
Proof.
  intros H. unfold kids_of. destruct (dict_get k m) as [s|] eqn:E.
  - apply (H k s E).
  - constructor.
Qed.

Lemma schedules_narrower_sorted codes c :
  StronglySorted code_lt (Schedules.narrower_of codes c).
Proof.
  apply sorted_strict, kids_of_nodup, SchedulesFacts.sch_build_child_map_nodup.
Qed.

Lemma tables_narrower_sorted codes c :
  StronglySorted code_lt (Tables.narrower_of codes c).
Proof.
  apply sorted_strict, kids_of_nodup, TablesFacts.tab_build_child_map_nodup.
Qed.

Lemma schedules_broader_of codes c :
  In c codes ->
  Schedules.broader_of codes c =
  Schedules.compute_broader c (Schedules.simple_of codes).
Proof.
  intros Hc. unfold Schedules.broader_of, Schedules.build_broader_map.
  cbv zeta.
  destruct (dict_of_keys
    (fun c => Schedules.compute_broader c (Schedules.simple_of codes)) codes)
    as [_ [K V]].
  cbv zeta in K, V. apply K, dict_get_keys in Hc.
  destruct (dict_get c _) as [b|] eqn:E; [|congruence].
  now apply V in E.
Qed.

Lemma tables_broader_of codes c :
  In c codes ->
  Tables.broader_of codes c =
  Tables.compute_broader c (Tables.simple_of codes).
Proof.
  intros Hc. unfold Tables.broader_of, Tables.build_broader_map.
  cbv zeta.
  destruct (dict_of_keys
    (fun c => Tables.compute_broader c (Tables.simple_of codes)) codes)
    as [_ [K V]].
  cbv zeta in K, V. apply K, dict_get_keys in Hc.
  destruct (dict_get c _) as [b|] eqn:E; [|congruence].
  now apply V in E.
Qed.


(* ===================================================================== *)
(** ** The hierarchy of a schedule depends on the set of codes only *)
(* ===================================================================== *)

Module SchedulesSets.
Import Schedules.

Lemma split_range_parts code l r :
  split_range code = Some (l, r) ->
  code = l ++ String "-" r /\ str_in "-" code = true.
Proof.
  unfold split_range. destruct (str_in "-" code) eqn:E; simpl; [|discriminate].
  destruct (split_char "-" code) as [|x [|y [|z zs]]] eqn:Es; try discriminate.
  intros H. inversion H; subst.
  destruct (split_char_two _ _ _ _ Es) as [H1 _]. auto.
Qed.

Lemma compute_broader_ext S1 S2 code :
  (forall x, In x S1 <-> In x S2) ->
  compute_broader code S1 = compute_broader code S2.
Proof.
  intros H. unfold compute_broader, dotted_truncation.
  rewrite (first_in_ext S1 S2 _ H).
  destruct (str_in "-" code); [|reflexivity].
  destruct (split_range code) as [[l r]|]; [|reflexivity].
  now rewrite !(mem_ext S1 S2 H).
Qed.

Lemma range_parent_ext S1 S2 code :
  (forall x, In x S1 <-> In x S2) ->
  range_parent code S1 = range_parent code S2.
Proof.
  intros H. unfold range_parent.
  destruct (split_range code) as [[l r]|]; [|reflexivity].
  now rewrite !(mem_ext S1 S2 H).
Qed.

Lemma fold_nothing {A} (l : list A) (res : list string) :
  fold_left (fun res _ => res) l res = res.
Proof. induction l; simpl; auto. Qed.

(** The codes a range covers are picked from the Point codes one by one. *)
Lemma expand_range_children_filter rc :
  exists g : string -> bool, forall S,
    expand_range_children rc S =
    fold_left (fun res sc => if g sc then set_add sc res else res) S [].
Proof.
  assert (Z : exists g : string -> bool, forall S : list string,
            @nil string =
            fold_left (fun res sc => if g sc then set_add sc res else res) S []).
  { exists (fun _ => false). intros S. symmetry. apply fold_nothing. }
  unfold expand_range_children.
  destruct (split_range rc) as [[left_ right_]|]; [|exact Z].
  destruct (negb (str_in "." left_) && negb (str_in "." right_)).
  - destruct (py_int left_) as [l|]; [|exact Z].
    destruct (py_int right_) as [r|]; [|exact Z].
    exists (fun sc => negb (str_in "-" sc) && negb (str_in "." sc)
                      && match py_int sc with
                         | Some v => in_span l v r
                         | None => false
                         end).
    intros S. apply fold_left_ext. intros res sc.
    destruct (str_in "-" sc); [reflexivity|].
    destruct (str_in "." sc); [reflexivity|].
    destruct (py_int sc); reflexivity.
  - destruct (str_in "." left_ && str_in "." right_); [|exact Z].
    destruct (rsplit1 "." left_) as [|lpref [|ltail [|? ?]]]; try exact Z.
    destruct (rsplit1 "." right_) as [|rpref [|rtail [|? ?]]]; try exact Z.
    destruct (negb (String.eqb lpref rpref)); [exact Z|].
    destruct (py_int ltail) as [li|]; [|exact Z].
    destruct (py_int rtail) as [ri|]; [|exact Z].
    exists (fun sc =>
              startswith sc (lpref ++ ".") && negb (str_in "-" sc)
              && negb (negb (nonempty
                               (str_drop (String.length (lpref ++ ".")) sc))
                       || str_in "." (str_drop (String.length (lpref ++ "."))
                                               sc))
              && match py_int (str_drop (String.length (lpref ++ ".")) sc) with
                 | Some vi => in_span li vi ri
                 | None => false
                 end).
    intros S. apply fold_left_ext. intros res sc. cbv zeta.
    destruct (startswith sc (lpref ++ ".")); [|reflexivity].
    destruct (str_in "-" sc); [reflexivity|].
    destruct (negb (nonempty (str_drop (String.length (lpref ++ ".")) sc))
              || str_in "." (str_drop (String.length (lpref ++ ".")) sc));
      [reflexivity|].
    destruct (py_int (str_drop (String.length (lpref ++ ".")) sc));
      reflexivity.
Qed.

Lemma expand_range_children_ext S1 S2 rc y :
  (forall x, In x S1 <-> In x S2) ->
  (In y (expand_range_children rc S1) <-> In y (expand_range_children rc S2)).
Proof.
  intros H. destruct (expand_range_children_filter rc) as [g G].
  rewrite !G, !fold_add_filter, H. reflexivity.
Qed.

Section SameCodes.
Variables codes1 codes2 : list string.
Hypothesis same : forall c, In c codes1 <-> In c codes2.

Lemma simple_of_same x : In x (simple_of codes1) <-> In x (simple_of codes2).
Proof. now rewrite !SchedulesFacts.sch_In_simple_of, same. Qed.

Lemma ranges_of_same x : In x (ranges_of codes1) <-> In x (ranges_of codes2).
Proof. now rewrite !SchedulesFacts.sch_In_ranges_of, same. Qed.

Lemma child_of_same k y : child_of codes1 k y <-> child_of codes2 k y.
Proof.
  unfold child_of.
  rewrite (range_parent_ext _ _ y simple_of_same).
  rewrite (expand_range_children_ext _ _ k y simple_of_same).
  rewrite !ranges_of_same, same. reflexivity.
Qed.

Lemma narrower_of_same c : narrower_of codes1 c = narrower_of codes2 c.
Proof.
  apply strict_sorted_unique; try apply schedules_narrower_sorted.
  intros z. unfold narrower_of.
  rewrite !In_sorted, !SchedulesFacts.sch_build_child_map_spec.
  now rewrite child_of_same, same.
Qed.

Lemma broader_of_same c :
  In c codes1 -> broader_of codes1 c = broader_of codes2 c.
Proof.
  intros H. rewrite !schedules_broader_of; [|now apply same | exact H].
  apply compute_broader_ext, simple_of_same.
Qed.
End SameCodes.

End SchedulesSets.

(* ===================================================================== *)
(** ** The model on small inputs *)
(* ===================================================================== *)

Example int_examples :
  py_int "004" = Some 4%Z /\ py_int "+4" = Some 4%Z
  /\ py_int " 4 " = Some 4%Z /\ py_int "1_0" = Some 10%Z
  /\ py_int "-0" = Some 0%Z /\ py_int "" = None /\ py_int "+" = None
  /\ py_int "_1" = None /\ py_int "1__0" = None /\ py_int "1_" = None
  /\ py_int "+ 4" = None /\ py_int "1 2" = None /\ py_int "0x10" = None.
Proof. repeat split. Qed.

Example split_examples :
  split_char "-" "a-b-c" = ["a"; "b"; "c"]
  /\ split_char "-" "-" = [""; ""]
  /\ split_char "." "" = [""]
  /\ split_dd "a--b" = ["a"; "b"]
  /\ split_dd "a---b" = ["a"; "-b"]
  /\ split_dd "a----b" = ["a"; ""; "b"]
  /\ rsplit1 "." "a.b.c" = ["a.b"; "c"]
  /\ split1 "." "a.b.c" = ["a"; "b.c"]
  /\ split1 ":" ":" = [""; ""]
  /\ lstrip_dash "--5" = "5".
Proof. repeat split. Qed.

Example sorted_example :
  sorted ["b"; "a"; "B"; "10"; "9"; "a.b"; "a-b"]
  = ["10"; "9"; "B"; "a"; "a-b"; "a.b"; "b"].
Proof. reflexivity. Qed.

Example id_pattern_examples :
  Schedules.id_code_match "Volume1-026" = Some "026"
  /\ Schedules.id_code_match "VOLUME1--3-4" = Some "-3-4"
  /\ Schedules.id_code_match (String.append "volume12-a" (String "010" ""))
     = Some "a"
  /\ Schedules.id_code_match "Volume-1" = None
  /\ Schedules.id_code_match "xVolume1-2" = None
  /\ Schedules.id_code_match "Volume1-" = None
  /\ Schedules.id_code_match "026" = None.
Proof. repeat split. Qed.

Example extract_examples :
  Schedules.extract_code [("id", JStr "Volume3-600.1")]
  = Some (JStr "600.1")
  /\ Schedules.extract_code [("id", JStr "x"); ("notation", JStr "601")]
     = Some (JStr "601")
  /\ Schedules.extract_code [("id", JNull)] = Some (JStr "")
  /\ Schedules.extract_code [("id", JNum 7)] = None
  /\ Tables.extract_code [("notation", JStr "-04"); ("id", JStr "T1:-05")]
     = Some (JStr "-04")
  /\ Tables.extract_code [("id", JStr "T1:-05")] = Some (JStr "-05")
  /\ Tables.extract_code [("id", JStr "S1:-05")] = Some JNull
  /\ Tables.extract_code [] = Some JNull
  /\ Tables.extract_code [("id", JNull)] = None.
Proof. repeat split. Qed.

(** Simple nesting: 600, 600.1, 600.1.2, 601. *)
Example schedule_nesting :
  let codes := ["600"; "600.1"; "600.1.2"; "601"] in
  Schedules.broader_of codes "600.1" = Some "600"
  /\ Schedules.narrower_of codes "600" = ["600.1"]
  /\ Schedules.broader_of codes "600.1.2" = Some "600.1"
  /\ Schedules.broader_of codes "601" = None
  /\ Schedules.broader_of codes "600" = None.
Proof. repeat split. Qed.

(** Integer range: 004, 005, 006, 004-006.  The range covers its own
    attachment parent 004. *)
Example schedule_integer_range :
  let codes := ["004"; "005"; "006"; "004-006"] in
  Schedules.narrower_of codes "004-006" = ["004"; "005"; "006"]
  /\ Schedules.broader_of codes "004-006" = Some "004"
  /\ Schedules.narrower_of codes "004" = ["004-006"].
Proof. repeat split. Qed.

(** Table nesting and a doubled-dash range. *)
Example table_nesting_and_range :
  let codes := ["-09"; "-092"; "-093"; "-001"; "-002"; "-003"; "-001--003"] in
  Tables.broader_of codes "-092" = Some "-09"
  /\ Tables.narrower_of codes "-09" = ["-092"; "-093"]
  /\ In "-001--003" (Tables.ranges_of codes)
  /\ Tables.narrower_of codes "-001--003" = ["-001"; "-002"; "-003"]
  /\ Tables.broader_of codes "-001--003" = None.
Proof. repeat split. simpl. auto 8. Qed.

(** A file whose root is not a list is skipped, and a non-string id makes
    [process_file] raise. *)
Example file_level_examples :
  Schedules.process_file (JObj []) = RootNotList
  /\ Tables.process_file JNull = RootNotList
  /\ Schedules.process_file (JArr [JObj [("id", JNum 7)]]) = Uncaught
  /\ Tables.process_file
       (JArr [JObj [("notation", JStr "-04"); ("hierarchy", JStr "old")]])
     = Uncaught
  /\ Schedules.process_file (JArr [JNull; JNum 3]) = Written [JNull; JNum 3].
Proof. repeat split. Qed.

(* ===================================================================== *)
(** ** Properties of the engine *)
(* ===================================================================== *)

Lemma nil_of_no_member {A} (l : list A) : (forall y, ~ In y l) -> l = [].
Proof.
  destruct l as [|a l]; [reflexivity|]. intros H.
  exfalso. apply (H a). now left.
Qed.

Lemma schedules_no_self_child codes c :
  ~ In c (kids_of c (Schedules.build_child_map codes)).
Proof.
  intros H. apply SchedulesFacts.sch_build_child_map_spec in H.
  destruct H as [_ [[_ H] | [[Hr H] | [Hr [H _]]]]].
  - now apply SchedulesFacts.sch_immediate_child_neq in H.
  - apply SchedulesFacts.sch_In_ranges_of in Hr.
    apply SchedulesFacts.sch_expand_range_children_sound in H.
    destruct Hr as [_ Hr], H as [_ [H _]]. congruence.
  - apply SchedulesFacts.sch_In_ranges_of in Hr.
    apply SchedulesFacts.sch_range_parent_sound in H.
    destruct H as [H _]. apply SchedulesFacts.sch_In_simple_of in H.
    destruct Hr as [_ Hr], H as [_ H]. congruence.
Qed.

Lemma tables_no_self_child codes c :
  ~ In c (kids_of c (Tables.build_child_map codes)).
Proof.
  intros H. apply TablesFacts.tab_build_child_map_spec in H.
  destruct H as [_ [[_ H] | [[Hr H] | [Hr [H _]]]]].
  - now apply TablesFacts.tab_immediate_child_neq in H.
  - apply TablesFacts.tab_In_ranges_of in Hr.
    apply TablesFacts.tab_expand_range_children_sound in H.
    destruct Hr as [_ Hr], H as [_ [H _]]. congruence.
  - apply TablesFacts.tab_In_ranges_of in Hr.
    apply TablesFacts.tab_range_parent_sound in H.
    destruct H as [H _]. apply TablesFacts.tab_In_simple_of in H.
    destruct Hr as [_ Hr], H as [_ H]. congruence.
Qed.

(** C8.  No code is a member of its own narrower set: in both scripts the
    child map that [process_file] builds from the immediate children, the
    range expansion and the range attachment never holds a code in the set
    stored under that same code, and so the sorted narrower sequence written
    for a code never lists the code itself. *)
Theorem C8_code_not_in_own_narrower (codes : list string) (c : string) :
  ~ In c (kids_of c (Schedules.build_child_map codes))
  /\ ~ In c (Schedules.narrower_of codes c)
  /\ ~ In c (kids_of c (Tables.build_child_map codes))
  /\ ~ In c (Tables.narrower_of codes c).
Proof.
  unfold Schedules.narrower_of, Tables.narrower_of.
  rewrite !In_sorted.
  pose proof (schedules_no_self_child codes c).
  pose proof (tables_no_self_child codes c). tauto.
Qed.

Lemma malformed_split_range m :
  List.length (split_char "-" m) <> 2 -> Schedules.split_range m = None.
Proof.
  intros H. unfold Schedules.split_range.
  destruct (negb (str_in "-" m)); [reflexivity|].
  destruct (split_char "-" m) as [|l [|r [|x xs]]]; try reflexivity.
  simpl in H. congruence.
Qed.

(** C10.  A schedule code that contains a dash but does not split on ['-']
    into exactly two parts is a Range code, has an empty narrower sequence
    and a null broader, has no attachment parent, and is in no code's
    narrower set; building the hierarchy of a file that holds it never
    fails. *)
Theorem C10_malformed_range_is_isolated (codes : list string) (m : string) :
  In m codes ->
  str_in "-" m = true ->
  List.length (split_char "-" m) <> 2 ->
  In m (Schedules.ranges_of codes)
  /\ Schedules.narrower_of codes m = []
  /\ Schedules.broader_of codes m = None
  /\ Schedules.range_parent m (Schedules.simple_of codes) = None
  /\ (forall c, ~ In m (kids_of c (Schedules.build_child_map codes)))
  /\ (forall c, ~ In m (Schedules.narrower_of codes c))
  /\ (forall entries es idx,
        Schedules.build_indices entries = Some (es, idx) ->
        exists out, Schedules.process_entries entries = Some out).
Proof.
  intros Hm Hd Hs. apply malformed_split_range in Hs.
  assert (Hkids : forall c,
            ~ In m (kids_of c (Schedules.build_child_map codes))).
  { intros c H. apply SchedulesFacts.sch_build_child_map_spec in H.
    destruct H as [_ [[_ H] | [[_ H] | [_ [H _]]]]].
    - apply SchedulesFacts.sch_immediate_child_simple in H. destruct H. congruence.
    - apply SchedulesFacts.sch_expand_range_children_sound in H.
      destruct H as [_ [H _]]. congruence.
    - apply SchedulesFacts.sch_range_parent_sound in H.
      destruct H as [_ [_ H]]. congruence. }
  split; [apply SchedulesFacts.sch_In_ranges_of; auto|].
  split.
  { unfold Schedules.narrower_of.
    rewrite (nil_of_no_member (kids_of m (Schedules.build_child_map codes)));
      [reflexivity|].
    intros y H. apply SchedulesFacts.sch_build_child_map_spec in H.
    destruct H as [_ [[_ H] | [[_ H] | [_ [H _]]]]].
    - apply SchedulesFacts.sch_immediate_child_simple in H. destruct H. congruence.
    - apply SchedulesFacts.sch_expand_range_children_sound in H.
      destruct H as [_ [_ H]]. congruence.
    - apply SchedulesFacts.sch_range_parent_sound in H.
      destruct H as [H _]. apply SchedulesFacts.sch_In_simple_of in H.
      destruct H. congruence. }
  split.
  { rewrite schedules_broader_of by exact Hm.
    unfold Schedules.compute_broader, Schedules.dotted_truncation.
    rewrite Hd, Hs. now destruct (str_in "." m). }
  split.
  { unfold Schedules.range_parent. now rewrite Hd, Hs. }
  split; [exact Hkids|].
  split.
  { intros c. unfold Schedules.narrower_of. rewrite In_sorted. apply Hkids. }
  intros entries es idx H.
  apply (SchedulesEntries.process_entries_total _ _ _ H).
Qed.

Lemma C10_malformed_range_is_isolated_witness :
  In "1-2-3" (Schedules.ranges_of ["1"; "1-2-3"])
  /\ Schedules.narrower_of ["1"; "1-2-3"] "1-2-3" = []
  /\ Schedules.broader_of ["1"; "1-2-3"] "1-2-3" = None.
Proof.
  destruct (C10_malformed_range_is_isolated ["1"; "1-2-3"] "1-2-3")
    as [H1 [H2 [H3 _]]].
  - simpl. auto.
  - reflexivity.
  - simpl. lia.
  - auto.
Defined.

Lemma schedules_point_parent c S p :
  str_in "-" c = false ->
  Schedules.compute_broader c S = Some p ->
  In p S /\ exists rest, c = p ++ "." ++ rest.
Proof.
  intros Hc. unfold Schedules.compute_broader. rewrite Hc.
  destruct (negb (str_in "." c)); [discriminate|]. cbv zeta.
  intros H.
  pose proof (first_in_countdown
                (fun i => join "." (firstn i (split_char "." c))) S
                (List.length (split_char "." c) - 1)) as G.
  rewrite H in G. destruct G as [i [Hi [Hp [HS _]]]].
  split; [exact HS|]. exists (join "." (skipn i (split_char "." c))).
  rewrite Hp. rewrite <- (join_split "." c) at 1.
  apply join_firstn. lia.
Qed.

Lemma tables_point_parent c S p :
  str_in "--" c = false ->
  Tables.compute_broader c S = Some p ->
  In p S /\
  exists i, 1 <= i < String.length c /\ p = str_take i c /\
            forall j, i < j < String.length c -> ~ In (str_take j c) S.
Proof.
  intros Hc. unfold Tables.compute_broader. rewrite Hc.
  destruct (String.length c <=? 1)%nat; [discriminate|].
  apply TablesFacts.first_in_truncations.
Qed.

(** C7.  In both dialects the broader of a Point code, when there is one,
    is a proper truncation of the code: for a schedule code it is followed
    in the code by a dot and further text, for a table code by at least one
    more character; it is strictly shorter than the code and differs from
    it. *)
Theorem C7_point_parent_is_proper_truncation (c p : string) (S : list string) :
  (str_in "-" c = false ->
   Schedules.compute_broader c S = Some p ->
   (exists rest, c = p ++ "." ++ rest)
   /\ String.length p < String.length c /\ p <> c)
  /\ (str_in "--" c = false ->
      Tables.compute_broader c S = Some p ->
      (exists rest, nonempty rest = true /\ c = p ++ rest)
      /\ String.length p < String.length c /\ p <> c).
Proof.
  split; intros Hc H.
  - destruct (schedules_point_parent c S p Hc H) as [_ [rest E]].
    assert (L : String.length p < String.length c).
    { rewrite E, !length_app. simpl. lia. }
    split; [eauto|]. split; [exact L|]. intros ->. lia.
  - destruct (tables_point_parent c S p Hc H) as [_ [i [Hi [Hp _]]]].
    assert (L : String.length p < String.length c).
    { rewrite Hp, length_take; lia. }
    split; [|split; [exact L | intros ->; lia]].
    exists (str_drop i c). split.
    + apply nonempty_length.
      pose proof (take_drop i c) as E.
      apply (f_equal String.length) in E.
      rewrite length_app, length_take in E; lia.
    + rewrite Hp. symmetry. apply take_drop.
Qed.

Lemma C7_point_parent_is_proper_truncation_witness :
  ((exists rest, "600.1.2" = "600.1" ++ "." ++ rest)
   /\ String.length "600.1" < String.length "600.1.2"
   /\ "600.1" <> "600.1.2")
  /\ ((exists rest, nonempty rest = true /\ "-092" = "-09" ++ rest)
      /\ String.length "-09" < String.length "-092" /\ "-09" <> "-092").
Proof.
  split.
  - apply (proj1 (C7_point_parent_is_proper_truncation
                    "600.1.2" "600.1" ["600"; "600.1"])); reflexivity.
  - apply (proj2 (C7_point_parent_is_proper_truncation
                    "-092" "-09" ["-0"; "-09"])); reflexivity.
Defined.

(** C4, as the code has it.  The broader of a table Point code is its
    longest proper prefix of at least one character that is a Point code of
    the index, and null when no such prefix is; a one-character prefix is a
    candidate like any other. *)
Theorem C4_table_parent_is_longest_prefix (c : string) (S : list string) :
  str_in "--" c = false ->
  match Tables.compute_broader c S with
  | Some p =>
      exists i, 1 <= i < String.length c /\ p = str_take i c /\ In p S
                /\ forall j, i < j < String.length c -> ~ In (str_take j c) S
  | None => forall i, 1 <= i < String.length c -> ~ In (str_take i c) S
  end.
Proof.
  intros Hc. destruct (Tables.compute_broader c S) as [p|] eqn:E.
  - destruct (tables_point_parent c S p Hc E) as [HS [i [Hi [Hp Hj]]]].
    exists i. auto.
  - unfold Tables.compute_broader in E. rewrite Hc in E.
    destruct (String.length c <=? 1)%nat eqn:L.
    + apply Nat.leb_le in L. intros i Hi. lia.
    + unfold Tables.truncations in E.
      pose proof (first_in_countdown (fun i => str_take i c) S
                    (String.length c - 1)) as G.
      rewrite E in G. intros i Hi. apply G. lia.
Qed.

Lemma C4_table_parent_is_longest_prefix_witness :
  exists i, 1 <= i < String.length "-0921" /\ "-09" = str_take i "-0921"
            /\ In "-09" ["-0"; "-09"; "-093"]
            /\ forall j, i < j < String.length "-0921" ->
                         ~ In (str_take j "-0921") ["-0"; "-09"; "-093"].
Proof.
  exact (C4_table_parent_is_longest_prefix "-0921" ["-0"; "-09"; "-093"]
           eq_refl).
Defined.

(** C4 as stated fails: the only proper prefix of the table code [-0] has
    one character, and it is returned as the broader. *)
Lemma C4_counterexample :
  str_in "--" "-0" = false
  /\ Tables.compute_broader "-0" ["-"; "-0"] = Some "-"
  /\ String.length "-" < 2.
Proof. repeat split. simpl. lia. Qed.

(** C3 at the failing input: the left bound [026.0001] is dotted, its
    truncation [026] is not a Point code, and the broader is the left bound
    itself instead of null. *)
Theorem C3_dotted_range_falls_back_to_left_bound :
  str_in "." "026.0001" = true
  /\ mem "026" ["026.0001"] = false
  /\ Schedules.compute_broader "026.0001-026.0005" ["026.0001"]
     = Some "026.0001"
  /\ Schedules.broader_of ["026.0001"; "026.0001-026.0005"]
       "026.0001-026.0005" = Some "026.0001".
Proof. repeat split. Qed.

Lemma schedules_parts entries out :
  Schedules.process_entries entries = Some out ->
  exists es idx,
    Schedules.build_indices entries = Some (es, idx)
    /\ assign (Schedules.write_hierarchy (map fst idx)) idx es = Some out.
Proof.
  unfold Schedules.process_entries.
  destruct (Schedules.build_indices entries) as [[es idx]|];
    [eauto | discriminate].
Qed.

Lemma tables_parts entries out :
  Tables.process_entries entries = Some out ->
  exists es idx,
    Tables.build_indices entries = Some (es, idx)
    /\ assign (Tables.write_hierarchy (map fst idx)) idx es = Some out.
Proof.
  unfold Tables.process_entries.
  destruct (Tables.build_indices entries) as [[es idx]|];
    [eauto | discriminate].
Qed.

(** The match of the id pattern is never empty: group 1 is [.+]. *)
Lemma id_code_match_nonempty idv c :
  Schedules.id_code_match idv = Some c -> nonempty c = true.
Proof.
  unfold Schedules.id_code_match.
  destruct (Schedules.match_literal "volume" idv) as [[|a digits]|];
    try discriminate.
  destruct (is_digit a); [|discriminate].
  destruct (Schedules.skip_digits (String a digits)) as [|b rest];
    [discriminate|].
  destruct (Ascii.eqb b "-") eqn:Eb.
  - apply Ascii.eqb_eq in Eb. subst b.
    destruct (nonempty (Schedules.line_head rest)) eqn:N; [|discriminate].
    destruct (_ || _); [|discriminate].
    intros H. inversion H; subst. exact N.
  - intros H. exfalso. apply Ascii.eqb_neq in Eb. apply Eb.
    destruct b as [[] [] [] [] [] [] [] []]; try discriminate H.
    reflexivity.
Qed.

(** What [extract_code] returns when it finds no code: the empty string in
    a schedule, [None] or the empty string in a table. *)
Lemma schedules_empty_code fields code :
  Schedules.extract_code fields = Some code -> truthy code = false ->
  code = JStr "".
Proof.
  unfold Schedules.extract_code. intros H T.
  destruct (get_or "id" (JStr "") fields) as [| | |idv| |]; try discriminate.
  destruct (Schedules.id_code_match idv) as [c|] eqn:M.
  - inversion H; subst. apply id_code_match_nonempty in M.
    simpl in T. congruence.
  - inversion H; subst. unfold get_or in *.
    destruct (dict_get "notation" fields) as [v|]; [|reflexivity].
    destruct (truthy v) eqn:Tv; [congruence | reflexivity].
Qed.

Lemma tables_empty_code fields code :
  Tables.extract_code fields = Some code -> truthy code = false ->
  code = JNull \/ code = JStr "".
Proof.
  unfold Tables.extract_code. cbv zeta. intros H T.
  destruct (truthy match dict_get "notation" fields with
                   | Some v => v
                   | None => JNull
                   end) eqn:Tn.
  - inversion H; subst. congruence.
  - destruct (match dict_get "id" fields with
              | Some v => v
              | None => JStr ""
              end) as [| | |id_str| |]; try discriminate.
    destruct (startswith id_str "T" && str_in ":" id_str).
    + inversion H; subst. simpl in T.
      destruct (nth 1 (split1 ":" id_str) ""); [auto | discriminate].
    + inversion H; subst. auto.
Qed.

(** C2, as the code has it.  An entry from which no code is extracted is
    listed under no code of the index and gets no hierarchy field, and the
    only change made to it is the [bfCode] field, which is set to the empty
    code that the extraction returned: the empty string in a schedule,
    [null] or the empty string in a table; every other field is as it
    was. *)
Theorem C2_entry_without_code_only_gets_bfCode
  (entries es out : list json) (idx : index) (p : nat) (fields : dict) :
  (Schedules.build_indices entries = Some (es, idx) ->
   Schedules.process_entries entries = Some out ->
   nth_error entries p = Some (JObj fields) ->
   code_at Schedules.extract_code (JObj fields) = None ->
   (forall c, ~ owns idx c p)
   /\ exists code,
        Schedules.extract_code fields = Some code /\ truthy code = false
        /\ code = JStr ""
        /\ nth_error out p = Some (JObj (dict_set "bfCode" code fields))
        /\ dict_get "hierarchy" (dict_set "bfCode" code fields)
           = dict_get "hierarchy" fields)
  /\ (Tables.build_indices entries = Some (es, idx) ->
      Tables.process_entries entries = Some out ->
      nth_error entries p = Some (JObj fields) ->
      code_at Tables.extract_code (JObj fields) = None ->
      (forall c, ~ owns idx c p)
      /\ exists code,
           Tables.extract_code fields = Some code /\ truthy code = false
           /\ (code = JNull \/ code = JStr "")
           /\ nth_error out p = Some (JObj (dict_set "bfCode" code fields))
           /\ dict_get "hierarchy" (dict_set "bfCode" code fields)
              = dict_get "hierarchy" fields).
Proof.
  split; intros Hb Hp He Hc.
  - destruct (schedules_parts _ _ Hp) as [es' [idx' [Hb' Ha]]].
    rewrite Hb in Hb'. inversion Hb'; subst es' idx'.
    destruct (index_spec _ _ _ _ Hb) as [_ [_ O]].
    split.
    { intros c Hown. apply O in Hown. destruct Hown as [e [H1 H2]].
      congruence. }
    destruct (no_code_extracts _ _ _ fields Hb (nth_error_In _ _ He) Hc)
      as [code [E T]].
    exists code. split; [exact E|]. split; [exact T|].
    split; [exact (schedules_empty_code _ _ E T)|].
    destruct (process_spec _ _ (SchedulesEntries.sch_write_again (map fst idx))
                _ _ _ _ Hb Ha) as [_ P].
    specialize (P p _ He). rewrite Hc in P. simpl in P. rewrite E in P.
    split; [exact P|]. now rewrite dict_get_set.
  - destruct (tables_parts _ _ Hp) as [es' [idx' [Hb' Ha]]].
    rewrite Hb in Hb'. inversion Hb'; subst es' idx'.
    destruct (index_spec _ _ _ _ Hb) as [_ [_ O]].
    split.
    { intros c Hown. apply O in Hown. destruct Hown as [e [H1 H2]].
      congruence. }
    destruct (no_code_extracts _ _ _ fields Hb (nth_error_In _ _ He) Hc)
      as [code [E T]].
    exists code. split; [exact E|]. split; [exact T|].
    split; [exact (tables_empty_code _ _ E T)|].
    destruct (process_spec _ _ (TablesEntries.tab_write_again (map fst idx))
                _ _ _ _ Hb Ha) as [_ P].
    specialize (P p _ He). rewrite Hc in P. simpl in P. rewrite E in P.
    split; [exact P|]. now rewrite dict_get_set.
Qed.

Lemma C2_entry_without_code_only_gets_bfCode_witness :
  (exists code,
     Schedules.extract_code [("title", JStr "Generalities")] = Some code
     /\ truthy code = false
     /\ code = JStr ""
     /\ nth_error
          [JObj [("id", JStr "Volume1-026"); ("bfCode", JStr "026");
                 ("hierarchy",
                  JObj [("broader", JNull); ("narrower", JArr [])])];
           JObj [("title", JStr "Generalities"); ("bfCode", JStr "")]] 1
        = Some (JObj (dict_set "bfCode" code [("title", JStr "Generalities")]))
     /\ dict_get "hierarchy"
          (dict_set "bfCode" code [("title", JStr "Generalities")])
        = dict_get "hierarchy" [("title", JStr "Generalities")])
  /\ (exists code,
        Tables.extract_code [("id", JStr "T1:")] = Some code
        /\ truthy code = false
        /\ (code = JNull \/ code = JStr "")
        /\ nth_error
             [JObj [("notation", JStr "-09"); ("bfCode", JStr "-09");
                    ("hierarchy",
                     JObj [("narrower", JArr []); ("broader", JNull)])];
              JObj [("id", JStr "T1:"); ("bfCode", JStr "")]] 1
           = Some (JObj (dict_set "bfCode" code [("id", JStr "T1:")]))
        /\ dict_get "hierarchy" (dict_set "bfCode" code [("id", JStr "T1:")])
           = dict_get "hierarchy" [("id", JStr "T1:")]).
Proof.
  split.
  - apply (proj1 (C2_entry_without_code_only_gets_bfCode
             [JObj [("id", JStr "Volume1-026")];
              JObj [("title", JStr "Generalities")]]
             [JObj [("id", JStr "Volume1-026"); ("bfCode", JStr "026")];
              JObj [("title", JStr "Generalities"); ("bfCode", JStr "")]]
             [JObj [("id", JStr "Volume1-026"); ("bfCode", JStr "026");
                    ("hierarchy",
                     JObj [("broader", JNull); ("narrower", JArr [])])];
              JObj [("title", JStr "Generalities"); ("bfCode", JStr "")]]
             [("026", [0])] 1 [("title", JStr "Generalities")]));
      reflexivity.
  - apply (proj2 (C2_entry_without_code_only_gets_bfCode
             [JObj [("notation", JStr "-09")]; JObj [("id", JStr "T1:")]]
             [JObj [("notation", JStr "-09"); ("bfCode", JStr "-09")];
              JObj [("id", JStr "T1:"); ("bfCode", JStr "")]]
             [JObj [("notation", JStr "-09"); ("bfCode", JStr "-09");
                    ("hierarchy",
                     JObj [("narrower", JArr []); ("broader", JNull)])];
              JObj [("id", JStr "T1:"); ("bfCode", JStr "")]]
             [("-09", [0])] 1 [("id", JStr "T1:")]));
      reflexivity.
Defined.

(** C2 as stated fails: the entry below yields no code, and it is written
    back with a [bfCode] field that it did not have. *)
Lemma C2_counterexample :
  Schedules.extract_code [("title", JStr "Generalities")] = Some (JStr "")
  /\ Schedules.process_entries [JObj [("title", JStr "Generalities")]]
     = Some [JObj [("title", JStr "Generalities"); ("bfCode", JStr "")]]
  /\ JObj [("title", JStr "Generalities"); ("bfCode", JStr "")]
     <> JObj [("title", JStr "Generalities")]
  /\ Tables.extract_code [("title", JStr "Generalities")] = Some JNull
  /\ Tables.process_entries [JObj [("title", JStr "Generalities")]]
     = Some [JObj [("title", JStr "Generalities"); ("bfCode", JNull)]].
Proof. repeat split. discriminate. Qed.

Lemma schedules_twice entries out :
  Schedules.process_entries entries = Some out ->
  Schedules.process_entries out = Some out.
Proof.
  intros H. destruct (schedules_parts _ _ H) as [es [idx [Hb Ha]]].
  destruct (process_twice Schedules.extract_code
              (Schedules.write_hierarchy (map fst idx))
              (SchedulesEntries.sch_write_again _)
              (fun fields v =>
                 SchedulesEntries.sch_extract_code_set "bfCode" v fields
                   eq_refl eq_refl)
              (SchedulesEntries.sch_write_keeps_view _)
              (SchedulesEntries.sch_write_keeps_mark _)
              entries es idx out Hb Ha) as [es2 [Hb2 Ha2]].
  unfold Schedules.process_entries, Schedules.build_indices.
  now rewrite Hb2.
Qed.

Lemma tables_twice entries out :
  Tables.process_entries entries = Some out ->
  Tables.process_entries out = Some out.
Proof.
  intros H. destruct (tables_parts _ _ H) as [es [idx [Hb Ha]]].
  destruct (process_twice Tables.extract_code
              (Tables.write_hierarchy (map fst idx))
              (TablesEntries.tab_write_again _)
              (fun fields v =>
                 TablesEntries.tab_extract_code_set "bfCode" v fields
                   eq_refl eq_refl)
              (TablesEntries.tab_write_keeps_view _)
              (TablesEntries.tab_write_keeps_mark _)
              entries es idx out Hb Ha) as [es2 [Hb2 Ha2]].
  unfold Tables.process_entries, Tables.build_indices.
  now rewrite Hb2.
Qed.

(** C6.  Both scripts are idempotent: [process_file] run on the entries it
    has written, which carry [bfCode] and [hierarchy], does not raise and
    writes the same entries again, so every broader and every narrower of
    the second run is the one of the first run. *)
Theorem C6_second_run_changes_nothing (root : json) (out : list json) :
  (Schedules.process_file root = Written out ->
   Schedules.process_file (JArr out) = Written out)
  /\ (Tables.process_file root = Written out ->
      Tables.process_file (JArr out) = Written out).
Proof.
  split; intros H.
  - destruct root; try discriminate. simpl in H.
    destruct (Schedules.process_entries items) as [o|] eqn:E;
      [|discriminate].
    inversion H; subst. simpl. now rewrite (schedules_twice _ _ E).
  - destruct root; try discriminate. simpl in H.
    destruct (Tables.process_entries items) as [o|] eqn:E; [|discriminate].
    inversion H; subst. simpl. now rewrite (tables_twice _ _ E).
Qed.

Lemma C6_second_run_changes_nothing_witness :
  Schedules.process_file (JArr sample_schedule_out)
  = Written sample_schedule_out
  /\ Tables.process_file (JArr sample_table_out) = Written sample_table_out.
Proof.
  split.
  - apply (proj1 (C6_second_run_changes_nothing
                    (JArr sample_schedule) sample_schedule_out)).
    reflexivity.
  - apply (proj2 (C6_second_run_changes_nothing
                    (JArr sample_table) sample_table_out)).
    reflexivity.
Defined.

Lemma schedules_written codes c e e' :
  Schedules.write_hierarchy codes c (marked Schedules.extract_code e)
  = Some e' ->
  code_at Schedules.extract_code e = Some c ->
  exists fields h,
    e' = JObj fields
    /\ dict_get "bfCode" fields = Some (JStr c)
    /\ dict_get "hierarchy" fields = Some (JObj h)
    /\ dict_get "broader" h = Some (json_opt (Schedules.broader_of codes c))
    /\ dict_get "narrower" h
       = Some (json_strs (Schedules.narrower_of codes c)).
Proof.
  destruct e as [| | | | |f0]; cbn [code_at marked];
    try (intros _ Hc; discriminate Hc).
  destruct (Schedules.extract_code f0) as [code|];
    [|intros _ Hc; discriminate Hc].
  cbn [Schedules.write_hierarchy]. intros H Hc.
  destruct code; try discriminate Hc.
  destruct (nonempty s); [|discriminate Hc].
  injection Hc as ->. injection H as <-.
  exists (dict_set "hierarchy"
            (Schedules.hierarchy (Schedules.broader_of codes c)
                                 (Schedules.narrower_of codes c))
            (dict_set "bfCode" (JStr c) f0)),
         [("broader", json_opt (Schedules.broader_of codes c));
          ("narrower", json_strs (Schedules.narrower_of codes c))].
  split; [reflexivity|].
  split; [rewrite !dict_get_set; reflexivity|].
  split; [rewrite dict_get_set; reflexivity|].
  split; reflexivity.
Qed.

Lemma tables_written codes c e e' :
  Tables.write_hierarchy codes c (marked Tables.extract_code e) = Some e' ->
  code_at Tables.extract_code e = Some c ->
  exists fields h,
    e' = JObj fields
    /\ dict_get "bfCode" fields = Some (JStr c)
    /\ dict_get "hierarchy" fields = Some (JObj h)
    /\ dict_get "broader" h = Some (json_opt (Tables.broader_of codes c))
    /\ dict_get "narrower" h = Some (json_strs (Tables.narrower_of codes c)).
Proof.
  intros H Hc.
  destruct e as [| | | | |f0]; cbn [code_at] in Hc; try discriminate Hc.
  cbn [marked] in H.
  destruct (Tables.extract_code f0) as [code|]; [|discriminate Hc].
  destruct code; try discriminate Hc.
  destruct (nonempty s); [|discriminate Hc].
  injection Hc as ->.
  destruct (TablesEntries.write_hierarchy_shape _ _ _ _ H)
    as [[_ Hn] | [fields [h [E [_ ->]]]]].
  - exfalso. eapply Hn. reflexivity.
  - injection E as <-.
    eexists. eexists. split; [reflexivity|].
    split; [rewrite !dict_get_set; reflexivity|].
    split; [rewrite dict_get_set; reflexivity|].
    split; [rewrite dict_get_set; reflexivity|].
    rewrite !dict_get_set; reflexivity.
Qed.

(** C9.  In both scripts the entries listed under a code of the index are
    exactly the entries from which that code is extracted, and each of them
    is written back with the same hierarchy: the broader computed for the
    code, and its narrower sequence, which is strictly ascending in the
    code-point order (sorted and without duplicates). *)
Theorem C9_entries_of_a_code_share_the_hierarchy
  (entries es out : list json) (idx : index) (c : string) (ents : list nat) :
  (Schedules.build_indices entries = Some (es, idx) ->
   Schedules.process_entries entries = Some out ->
   In (c, ents) idx ->
   StronglySorted code_lt (Schedules.narrower_of (map fst idx) c)
   /\ (forall p, In p ents <->
         exists e, nth_error entries p = Some e
                   /\ code_at Schedules.extract_code e = Some c)
   /\ forall p, In p ents ->
        exists fields h,
          nth_error out p = Some (JObj fields)
          /\ dict_get "bfCode" fields = Some (JStr c)
          /\ dict_get "hierarchy" fields = Some (JObj h)
          /\ dict_get "broader" h
             = Some (json_opt (Schedules.broader_of (map fst idx) c))
          /\ dict_get "narrower" h
             = Some (json_strs (Schedules.narrower_of (map fst idx) c)))
  /\ (Tables.build_indices entries = Some (es, idx) ->
      Tables.process_entries entries = Some out ->
      In (c, ents) idx ->
      StronglySorted code_lt (Tables.narrower_of (map fst idx) c)
      /\ (forall p, In p ents <->
            exists e, nth_error entries p = Some e
                      /\ code_at Tables.extract_code e = Some c)
      /\ forall p, In p ents ->
           exists fields h,
             nth_error out p = Some (JObj fields)
             /\ dict_get "bfCode" fields = Some (JStr c)
             /\ dict_get "hierarchy" fields = Some (JObj h)
             /\ dict_get "broader" h
                = Some (json_opt (Tables.broader_of (map fst idx) c))
             /\ dict_get "narrower" h
                = Some (json_strs (Tables.narrower_of (map fst idx) c))).
Proof.
  split; intros Hb Hp Hin.
  - destruct (schedules_parts _ _ Hp) as [es' [idx' [Hb' Ha]]].
    rewrite Hb in Hb'. inversion Hb'; subst es' idx'.
    destruct (index_spec _ _ _ _ Hb) as [_ [Hnd O]].
    assert (L : forall p, In p ents <->
              exists e, nth_error entries p = Some e
                        /\ code_at Schedules.extract_code e = Some c).
    { intros p. rewrite <- (owns_listed idx c ents p Hnd Hin). apply O. }
    split; [apply schedules_narrower_sorted|]. split; [exact L|].
    intros p Hpin. apply L in Hpin. destruct Hpin as [e [He Hc]].
    destruct (process_spec _ _ (SchedulesEntries.sch_write_again (map fst idx))
                _ _ _ _ Hb Ha) as [_ P].
    specialize (P p e He). rewrite Hc in P. destruct P as [e' [W N]].
    destruct (schedules_written _ _ _ _ W Hc) as [fields [h [-> R]]].
    exists fields, h. auto.
  - destruct (tables_parts _ _ Hp) as [es' [idx' [Hb' Ha]]].
    rewrite Hb in Hb'. inversion Hb'; subst es' idx'.
    destruct (index_spec _ _ _ _ Hb) as [_ [Hnd O]].
    assert (L : forall p, In p ents <->
              exists e, nth_error entries p = Some e
                        /\ code_at Tables.extract_code e = Some c).
    { intros p. rewrite <- (owns_listed idx c ents p Hnd Hin). apply O. }
    split; [apply tables_narrower_sorted|]. split; [exact L|].
    intros p Hpin. apply L in Hpin. destruct Hpin as [e [He Hc]].
    destruct (process_spec _ _ (TablesEntries.tab_write_again (map fst idx))
                _ _ _ _ Hb Ha) as [_ P].
    specialize (P p e He). rewrite Hc in P. destruct P as [e' [W N]].
    destruct (tables_written _ _ _ _ W Hc) as [fields [h [-> R]]].
    exists fields, h. auto.
Qed.

Lemma C9_entries_of_a_code_share_the_hierarchy_witness :
  (forall p, In p [0; 5] ->
     exists fields h,
       nth_error sample_schedule_out p = Some (JObj fields)
       /\ dict_get "bfCode" fields = Some (JStr "026")
       /\ dict_get "hierarchy" fields = Some (JObj h)
       /\ dict_get "broader" h
          = Some (json_opt (Schedules.broader_of
                              (map fst (snd sample_schedule_index)) "026"))
       /\ dict_get "narrower" h
          = Some (json_strs (Schedules.narrower_of
                               (map fst (snd sample_schedule_index)) "026")))
  /\ (forall p, In p [0; 7] ->
        exists fields h,
          nth_error sample_table_out p = Some (JObj fields)
          /\ dict_get "bfCode" fields = Some (JStr "-09")
          /\ dict_get "hierarchy" fields = Some (JObj h)
          /\ dict_get "broader" h
             = Some (json_opt (Tables.broader_of
                                 (map fst (snd sample_table_index)) "-09"))
          /\ dict_get "narrower" h
             = Some (json_strs (Tables.narrower_of
                                  (map fst (snd sample_table_index)) "-09"))).
Proof.
  split.
  - apply (proj1 (C9_entries_of_a_code_share_the_hierarchy
                    sample_schedule (fst sample_schedule_index)
                    sample_schedule_out (snd sample_schedule_index)
                    "026" [0; 5]));
      [reflexivity | reflexivity | simpl; auto].
  - apply (proj2 (C9_entries_of_a_code_share_the_hierarchy
                    sample_table (fst sample_table_index)
                    sample_table_out (snd sample_table_index)
                    "-09" [0; 7]));
      [reflexivity | reflexivity | simpl; auto].
Defined.

(** C5.  Whatever the order of the index, when its codes are exactly
    026, 026.0001, 026.0002, 026.0003 and 026.0001-026.0005, the narrower
    sequence of the range is 026.0001, 026.0002, 026.0003 and its broader is
    026. *)
Theorem C5_structured_range_example (codes : list string) :
  (forall c, In c codes <-> In c structured_range_codes) ->
  Schedules.narrower_of codes "026.0001-026.0005"
  = ["026.0001"; "026.0002"; "026.0003"]
  /\ Schedules.broader_of codes "026.0001-026.0005" = Some "026".
Proof.
  intros H.
  rewrite (SchedulesSets.narrower_of_same codes structured_range_codes H).
  rewrite (SchedulesSets.broader_of_same codes structured_range_codes H).
  - split; reflexivity.
  - apply H. simpl. auto 6.
Qed.

Lemma C5_structured_range_example_witness :
  Schedules.narrower_of
    ["026.0001-026.0005"; "026.0003"; "026"; "026.0002"; "026.0001"]
    "026.0001-026.0005"
  = ["026.0001"; "026.0002"; "026.0003"]
  /\ Schedules.broader_of
       ["026.0001-026.0005"; "026.0003"; "026"; "026.0002"; "026.0001"]
       "026.0001-026.0005" = Some "026".
Proof.
  apply (C5_structured_range_example
           ["026.0001-026.0005"; "026.0003"; "026"; "026.0002"; "026.0001"]).
  intros c. unfold structured_range_codes. simpl. tauto.
Defined.

(** The same example through a file: the entry of the range in the
    processed sample schedule. *)
Lemma sample_schedule_range_entry :
  Schedules.process_file (JArr sample_schedule) = Written sample_schedule_out
  /\ nth_error sample_schedule_out 4
     = Some (JObj [("id", JStr "Volume1-026.0001-026.0005");
                   ("bfCode", JStr "026.0001-026.0005");
                   ("hierarchy",
                    JObj [("broader", JStr "026");
                          ("narrower",
                           JArr [JStr "026.0001"; JStr "026.0002";
                                 JStr "026.0003"])])]).
Proof. split; reflexivity. Qed.

Lemma tables_range_agree code S :
  str_in "--" code = true ->
  Tables.range_parent code S = Tables.compute_broader code S.
Proof.
  intros H. unfold Tables.range_parent, Tables.compute_broader.
  rewrite H. simpl. destruct (Tables.split_range code) as [[l r]|];
    [|reflexivity].
  destruct l; reflexivity.
Qed.

Lemma schedules_range_agree_undotted code l r S :
  Schedules.split_range code = Some (l, r) ->
  str_in "." l = false -> (l = "" -> ~ In "" S) ->
  Schedules.range_parent code S = Schedules.compute_broader code S.
Proof.
  intros Hs Hl HS. destruct (SchedulesSets.split_range_parts _ _ _ Hs)
    as [_ Hd].
  unfold Schedules.range_parent, Schedules.compute_broader,
    Schedules.dotted_truncation.
  rewrite Hd, Hs, Hl. simpl. rewrite andb_false_r.
  assert (E : nonempty l && mem l S = mem l S).
  { destruct l; [|reflexivity]. simpl. symmetry. now apply mem_false, HS. }
  rewrite E. destruct (str_in "." code); reflexivity.
Qed.

Lemma schedules_range_agree_one_dot code l r a b S :
  Schedules.split_range code = Some (l, r) ->
  split_char "." l = [a; b] ->
  In a S \/ ~ In l S ->
  Schedules.range_parent code S = Schedules.compute_broader code S.
Proof.
  intros Hs Hl HS.
  destruct (SchedulesSets.split_range_parts _ _ _ Hs) as [Hc Hd].
  destruct (split_char_two _ _ _ _ Hl) as [El [Ha Hb]].
  assert (Dl : str_in "." l = true) by (rewrite El; apply str_in_char_app).
  assert (Dc : str_in "." code = true).
  { rewrite Hc. now apply str_in_app_l. }
  assert (Nl : nonempty l = true).
  { rewrite El. destruct a; reflexivity. }
  unfold Schedules.range_parent, Schedules.compute_broader,
    Schedules.dotted_truncation.
  rewrite Hd, Hs, Dl, Dc, Nl. simpl negb. cbv iota. simpl andb.
  rewrite El, (split1_app "." a b Ha), (rsplit1_app "." a b Ha Hb).
  simpl hd. destruct (mem a S) eqn:Ea; [reflexivity|].
  destruct HS as [HS | HS].
  - apply mem_In in HS. congruence.
  - rewrite <- El. apply mem_false in HS. now rewrite HS.
Qed.

Lemma tables_attached_range codes r k :
  str_in "--" r = true ->
  In r (kids_of k (Tables.build_child_map codes)) ->
  In r codes /\ Tables.range_parent r (Tables.simple_of codes) = Some k.
Proof.
  intros Hr H. apply TablesFacts.tab_build_child_map_spec in H.
  destruct H as [_ [[_ H] | [[_ H] | [Hin [H _]]]]].
  - apply TablesFacts.tab_immediate_child_simple in H. destruct H. congruence.
  - apply TablesFacts.tab_expand_range_children_sound in H.
    destruct H as [_ [H _]]. congruence.
  - apply TablesFacts.tab_In_ranges_of in Hin. destruct Hin. auto.
Qed.

Lemma schedules_attached_range codes r k :
  str_in "-" r = true ->
  In r (kids_of k (Schedules.build_child_map codes)) ->
  In r codes
  /\ Schedules.range_parent r (Schedules.simple_of codes) = Some k
  /\ nonempty k = true.
Proof.
  intros Hr H. apply SchedulesFacts.sch_build_child_map_spec in H.
  destruct H as [_ [[_ H] | [[_ H] | [Hin [H Hk]]]]].
  - apply SchedulesFacts.sch_immediate_child_simple in H.
    destruct H. congruence.
  - apply SchedulesFacts.sch_expand_range_children_sound in H.
    destruct H as [_ [H _]]. congruence.
  - apply SchedulesFacts.sch_In_ranges_of in Hin. destruct Hin. auto.
Qed.

Lemma schedules_attached_is_broader codes r k :
  str_in "-" r = true ->
  In r (kids_of k (Schedules.build_child_map codes)) ->
  match Schedules.split_range r with
  | Some (l, _) => List.length (split_char "." l) <= 2
  | None => True
  end ->
  Schedules.broader_of codes r = Some k.
Proof.
  intros Hr H Hl.
  destruct (schedules_attached_range _ _ _ Hr H) as [Hin [Hp Hk]].
  rewrite schedules_broader_of by exact Hin. rewrite <- Hp. symmetry.
  destruct (Schedules.split_range r) as [[l r']|] eqn:Hs.
  - destruct (split_char "." l) as [|a [|b [|x xs]]] eqn:El.
    + destruct (split_char_cons "." l) as [y [ys Hy]]. congruence.
    + destruct (split_char_one _ _ _ El) as [_ Hnd].
      apply (schedules_range_agree_undotted _ _ _ _ Hs Hnd).
      intros ->. unfold Schedules.range_parent in Hp.
      rewrite Hr, Hs in Hp. simpl in Hp.
      destruct (mem "" (Schedules.simple_of codes)); [|discriminate].
      inversion Hp; subst. discriminate.
    + apply (schedules_range_agree_one_dot _ _ _ _ _ _ Hs El).
      left. destruct (split_char_two _ _ _ _ El) as [E [Ha Hb]].
      unfold Schedules.range_parent in Hp. rewrite Hr, Hs in Hp.
      assert (Dl : str_in "." l = true) by (rewrite E; apply str_in_char_app).
      rewrite Dl in Hp. simpl negb in Hp. cbv iota in Hp.
      rewrite E, (split1_app "." a b Ha) in Hp. simpl hd in Hp.
      destruct (mem a (Schedules.simple_of codes)) eqn:Ea; [|discriminate].
      now apply mem_In.
    + simpl in Hl. lia.
  - apply SchedulesFacts.sch_range_parent_sound in Hp.
    destruct Hp as [_ [_ Hp]]. congruence.
Qed.

(** C1, as the code has it.  For every table range code, and for every
    schedule range code whose left bound has no dot, or has exactly one dot
    and either a first segment that is a Point code or a left bound that is
    not one, [range_parent] and [compute_broader] return the same result;
    a schedule code with a dash that does not split has neither.  In the
    child map of a file, a table range code that is in the narrower set of
    [k] has [k] as its broader, and so has a schedule range code whose left
    bound has at most one dot. *)
Theorem C1_attachment_parent_is_broader
  (codes S : list string) (code k : string) :
  (str_in "--" code = true ->
   Tables.range_parent code S = Tables.compute_broader code S)
  /\ (str_in "-" code = true ->
      match Schedules.split_range code with
      | None => True
      | Some (l, _) =>
          (str_in "." l = false /\ ~ In "" S)
          \/ exists a b, split_char "." l = [a; b] /\ (In a S \/ ~ In l S)
      end ->
      Schedules.range_parent code S = Schedules.compute_broader code S)
  /\ (str_in "--" code = true ->
      In code (kids_of k (Tables.build_child_map codes)) ->
      Tables.broader_of codes code = Some k)
  /\ (str_in "-" code = true ->
      In code (kids_of k (Schedules.build_child_map codes)) ->
      match Schedules.split_range code with
      | Some (l, _) => List.length (split_char "." l) <= 2
      | None => True
      end ->
      Schedules.broader_of codes code = Some k).
Proof.
  split; [apply tables_range_agree|]. split.
  { intros Hd. destruct (Schedules.split_range code) as [[l r]|] eqn:Hs.
    - intros [[Hl HS] | [a [b [Hl HS]]]].
      + eapply schedules_range_agree_undotted; eauto.
      + eapply schedules_range_agree_one_dot; eassumption.
    - intros _. unfold Schedules.range_parent, Schedules.compute_broader,
        Schedules.dotted_truncation.
      rewrite Hd, Hs. now destruct (str_in "." code). }
  split.
  { intros Hr H. destruct (tables_attached_range _ _ _ Hr H) as [Hin Hp].
    rewrite tables_broader_of by exact Hin.
    now rewrite <- (tables_range_agree _ _ Hr). }
  apply schedules_attached_is_broader.
Qed.

Lemma C1_attachment_parent_is_broader_witness :
  Tables.range_parent "-001--003" ["-0"; "-001"]
  = Tables.compute_broader "-001--003" ["-0"; "-001"]
  /\ Schedules.range_parent "004-006" ["004"; "005"]
     = Schedules.compute_broader "004-006" ["004"; "005"]
  /\ Schedules.range_parent "026.0001-026.0005" ["026"; "026.0001"]
     = Schedules.compute_broader "026.0001-026.0005" ["026"; "026.0001"]
  /\ Tables.broader_of ["-0"; "-001"; "-001--003"] "-001--003" = Some "-0"
  /\ Schedules.broader_of structured_range_codes "026.0001-026.0005"
     = Some "026".
Proof.
  split; [|split; [|split; [|split]]].
  - apply (proj1 (C1_attachment_parent_is_broader
                    [] ["-0"; "-001"] "-001--003" "")). reflexivity.
  - apply (proj1 (proj2 (C1_attachment_parent_is_broader
                           [] ["004"; "005"] "004-006" "")));
      [reflexivity|].
    left. split; [reflexivity|]. simpl. intros [H | [H | []]]; discriminate.
  - apply (proj1 (proj2 (C1_attachment_parent_is_broader
                           [] ["026"; "026.0001"] "026.0001-026.0005" "")));
      [reflexivity|].
    right. exists "026", "0001". split; [reflexivity|]. left. simpl. auto.
  - apply (proj1 (proj2 (proj2 (C1_attachment_parent_is_broader
                                  ["-0"; "-001"; "-001--003"] []
                                  "-001--003" "-0"))));
      [reflexivity | simpl; auto].
  - apply (proj2 (proj2 (proj2 (C1_attachment_parent_is_broader
                                  structured_range_codes []
                                  "026.0001-026.0005" "026"))));
      [reflexivity | simpl; auto | simpl; lia].
Defined.

(** C1 as stated fails: with a left bound of three segments the range is
    attached under the segment before the first dot, while its broader is
    the left bound without its last segment. *)
Lemma C1_counterexample :
  Schedules.range_parent "026.1.0001-026.1.0005" ["026"; "026.1"]
  = Some "026"
  /\ Schedules.compute_broader "026.1.0001-026.1.0005" ["026"; "026.1"]
     = Some "026.1"
  /\ In "026.1.0001-026.1.0005"
       (Schedules.narrower_of
          ["026"; "026.1"; "026.1.0001-026.1.0005"] "026")
  /\ Schedules.broader_of
       ["026"; "026.1"; "026.1.0001-026.1.0005"] "026.1.0001-026.1.0005"
     = Some "026.1".
Proof. repeat split. simpl. auto. Qed.

(* ===================================================================== *)
(** ** Further facts about splitting and joining *)
(* ===================================================================== *)

Lemma str_drop_app p r : str_drop (String.length p) (p ++ r) = r.
Proof. induction p as [|a p IH]; simpl; [now destruct r | exact IH]. Qed.

Lemma prefix_iff p s :
  String.prefix p s = true <-> exists r, s = p ++ r.
Proof.
  split.
  - intros H. exists (str_drop (String.length p) s). now apply prefix_split.
  - intros [r ->]. apply prefix_app.
Qed.

Lemma app_inv_head p r1 r2 : p ++ r1 = p ++ r2 -> r1 = r2.
Proof.
  induction p as [|a p IH]; simpl; intros H; [exact H|].
  inversion H. auto.
Qed.

Lemma split_char_none c s :
  str_in (String c "") s = false -> split_char c s = [s].
Proof.
  induction s as [|x s IH]; cbn [split_char]; [reflexivity|].
  rewrite str_in_char. intros H. apply orb_false_iff in H.
  destruct H as [H1 H2]. now rewrite H1, (IH H2).
Qed.

Lemma split_char_app c a b :
  split_char c (a ++ String c b) = (split_char c a ++ split_char c b)%list.
Proof.
  induction a as [|x a IH]; simpl append; cbn [split_char].
  - now rewrite Ascii.eqb_refl.
  - destruct (Ascii.eqb x c).
    + now rewrite IH.
    + rewrite IH. destruct (split_char_cons c a) as [y [ys ->]]. reflexivity.
Qed.

Lemma str_in_char_split c a b :
  str_in (String c "") (a ++ b)
  = str_in (String c "") a || str_in (String c "") b.
Proof.
  induction a as [|x a IH]; simpl append.
  - reflexivity.
  - now rewrite !str_in_char, IH, orb_assoc.
Qed.

Lemma countdown_S n : countdown (S n) = S n :: countdown n.
Proof. reflexivity. Qed.

Lemma firstn_app_exact {A} (l1 l2 : list A) :
  firstn (List.length l1) (l1 ++ l2) = l1.
Proof.
  induction l1 as [|x l1 IH]; simpl; [now destruct l2 | now rewrite IH].
Qed.

Lemma join_length_cons sep x (t : list string) :
  String.length (join sep (x :: t))
  = String.length x
    + match t with
      | [] => 0
      | _ => String.length sep + String.length (join sep t)
      end.
Proof.
  destruct t as [|y t]; unfold join; simpl.
  - lia.
  - now rewrite !length_app.
Qed.

Lemma join_firstn_step sep (l : list string) : forall j,
  String.length (join sep (firstn j l))
  <= String.length (join sep (firstn (S j) l)).
Proof.
  induction l as [|x l IH]; intros j.
  - destruct j; simpl; lia.
  - destruct j as [|j].
    + simpl. lia.
    + change (firstn (S j) (x :: l)) with (x :: firstn j l).
      change (firstn (S (S j)) (x :: l)) with (x :: firstn (S j) l).
      rewrite !join_length_cons. specialize (IH j).
      destruct (firstn j l) as [|y t] eqn:E1.
      * lia.
      * destruct (firstn (S j) l) as [|y' t'] eqn:E2.
        -- destruct l; [destruct j; discriminate | discriminate].
        -- lia.
Qed.

Lemma join_firstn_mono sep (l : list string) j i :
  j <= i ->
  String.length (join sep (firstn j l))
  <= String.length (join sep (firstn i l)).
Proof.
  induction 1 as [|i H IH]; [lia|].
  pose proof (join_firstn_step sep l i). lia.
Qed.

(** A dotted ancestor is the join of a proper, non-empty group of leading
    segments. *)
Lemma dotted_ancestor_segments q c :
  dotted_ancestor q c ->
  exists j, 1 <= j < List.length (split_char "." c)
            /\ q = join "." (firstn j (split_char "." c)).
Proof.
  intros [rest ->]. exists (List.length (split_char "." q)).
  change (q ++ "." ++ rest) with (q ++ String "." rest).
  rewrite split_char_app, List.length_app, firstn_app_exact, join_split.
  destruct (split_char_cons "." q) as [x [xs ->]].
  destruct (split_char_cons "." rest) as [y [ys ->]].
  simpl. split; [lia | reflexivity].
Qed.

Lemma all_digits_isdigit s : isdigit s = true -> all_digits s = true.
Proof. destruct s; [discriminate | auto]. Qed.

Lemma all_digits_no_char c s :
  is_digit c = false -> all_digits s = true ->
  str_in (String c "") s = false.
Proof.
  intros Hc. induction s as [|x s IH]; [reflexivity|].
  cbn [all_digits]. intros H. apply andb_true_iff in H. destruct H as [H1 H2].
  rewrite str_in_char, (IH H2), orb_false_r.
  apply Ascii.eqb_neq. intros ->. congruence.
Qed.

(* ===================================================================== *)
(** ** Schedules: children, parents and how they fit together *)
(* ===================================================================== *)

Lemma schedules_immediate_child_iff c d :
  Schedules.immediate_child c d = true <->
  str_in "-" c = false /\ str_in "-" d = false
  /\ exists seg, d = c ++ "." ++ seg
                 /\ nonempty seg = true /\ str_in "." seg = false.
Proof.
  unfold Schedules.immediate_child, startswith. cbv zeta.
  rewrite !andb_true_iff, !negb_true_iff, prefix_iff. split.
  - intros [[Hc [[r Hd] Hdd]] [Hn Hs]]. subst d.
    rewrite str_drop_app in Hn, Hs.
    split; [exact Hc|]. split; [exact Hdd|]. exists r.
    rewrite <- append_assoc. auto.
  - intros [Hc [Hd [seg [E [Hn Hs]]]]]. subst d.
    rewrite append_assoc, str_drop_app. rewrite append_assoc in Hd. eauto 10.
Qed.

(** The immediate children that [immediate_children_simple] records for a
    code [c] are exactly the codes of the list that are [c], a dot and one
    more non-empty segment, neither of the two holding a dash. *)
Theorem schedules_immediate_children_one_more_segment
  (codes : list string) (c d : string) :
  In d (kids_of c (Schedules.immediate_children_simple codes)) <->
  In c codes /\ In d codes
  /\ str_in "-" c = false /\ str_in "-" d = false
  /\ exists seg, d = c ++ "." ++ seg
                 /\ nonempty seg = true /\ str_in "." seg = false.
Proof.
  rewrite SchedulesFacts.sch_immediate_children_spec,
    schedules_immediate_child_iff. tauto.
Qed.

Lemma schedules_child_parent c d pts :
  Schedules.immediate_child c d = true -> In c pts ->
  Schedules.compute_broader d pts = Some c.
Proof.
  intros H Hc. apply schedules_immediate_child_iff in H.
  destruct H as [_ [Hd [seg [E [_ Hs]]]]].
  unfold Schedules.compute_broader. rewrite Hd. subst d.
  change (c ++ "." ++ seg) with (c ++ String "." seg).
  rewrite str_in_char_app. simpl negb. cbv iota zeta.
  rewrite split_char_app, (split_char_none "." seg Hs), List.length_app.
  simpl List.length. rewrite Nat.add_sub.
  destruct (List.length (split_char "." c)) as [|n] eqn:L.
  - destruct (split_char_cons "." c) as [x [xs Hx]].
    rewrite Hx in L. discriminate.
  - rewrite countdown_S. cbn [map first_in].
    rewrite <- L, firstn_app_exact, join_split.
    apply mem_In in Hc. now rewrite Hc.
Qed.

Lemma schedules_compute_broader_in code S p :
  Schedules.compute_broader code S = Some p -> In p S.
Proof.
  unfold Schedules.compute_broader, Schedules.dotted_truncation.
  destruct (str_in "-" code).
  - destruct (Schedules.split_range code) as [[l r]|].
    + destruct (str_in "." code).
      * destruct (nonempty l && str_in "." l).
        -- destruct (mem (hd "" (rsplit1 "." l)) S) eqn:E.
           ++ intros H. inversion H; subst. now apply mem_In.
           ++ destruct (nonempty l && mem l S) eqn:E2; [|discriminate].
              intros H. inversion H; subst.
              apply andb_true_iff in E2. now apply mem_In.
        -- destruct (nonempty l && mem l S) eqn:E2; [|discriminate].
           intros H. inversion H; subst.
           apply andb_true_iff in E2. now apply mem_In.
      * destruct (nonempty l && mem l S) eqn:E2; [|discriminate].
        intros H. inversion H; subst.
        apply andb_true_iff in E2. now apply mem_In.
    + destruct (str_in "." code); discriminate.
  - destruct (negb (str_in "." code)); [discriminate|].
    intros H. now apply first_in_In in H.
Qed.

Lemma schedules_broader_of_some codes c p :
  Schedules.broader_of codes c = Some p ->
  In c codes
  /\ Schedules.compute_broader c (Schedules.simple_of codes) = Some p.
Proof.
  intros H.
  assert (Hc : In c codes).
  { unfold Schedules.broader_of, Schedules.build_broader_map in H.
    cbv zeta in H.
    destruct (dict_of_keys
      (fun c => Schedules.compute_broader c (Schedules.simple_of codes)) codes)
      as [_ [K _]]. cbv zeta in K. apply K, dict_get_keys.
    destruct (dict_get c _); [discriminate | discriminate]. }
  split; [exact Hc|]. now rewrite <- schedules_broader_of.
Qed.

Lemma schedules_broader_in_codes codes c p :
  Schedules.broader_of codes c = Some p -> In c codes /\ In p codes.
Proof.
  intros H. destruct (schedules_broader_of_some _ _ _ H) as [Hc Hb].
  pose proof (schedules_compute_broader_in _ _ _ Hb) as Hp.
  apply SchedulesFacts.sch_In_simple_of in Hp. tauto.
Qed.

(** In a schedule the broader of a code is always a Point code of the index
    and never the code itself; a Range code is nobody's broader. *)
Theorem schedules_broader_is_another_point_code
  (codes : list string) (c p : string) :
  Schedules.broader_of codes c = Some p ->
  In c codes /\ In p codes /\ str_in "-" p = false /\ p <> c.
Proof.
  intros H. destruct (schedules_broader_of_some _ _ _ H) as [Hc Hb].
  pose proof (schedules_compute_broader_in _ _ _ Hb) as Hp.
  apply SchedulesFacts.sch_In_simple_of in Hp. destruct Hp as [Hp Hd].
  split; [exact Hc|]. split; [exact Hp|]. split; [exact Hd|].
  destruct (str_in "-" c) eqn:E; [congruence|].
  destruct (schedules_point_parent c _ p E Hb) as [_ [rest Er]].
  intros ->. apply (f_equal String.length) in Er.
  rewrite !length_app in Er. simpl in Er. lia.
Qed.

Lemma schedules_broader_is_another_point_code_witness :
  In "600.1.2" ["600"; "600.1.2"; "004-006"]
  /\ In "600" ["600"; "600.1.2"; "004-006"]
  /\ str_in "-" "600" = false /\ "600" <> "600.1.2".
Proof.
  apply (schedules_broader_is_another_point_code
           ["600"; "600.1.2"; "004-006"] "600.1.2" "600").
  reflexivity.
Defined.

(** The broader of a schedule Point code is its nearest dotted ancestor
    among the Point codes given: it is an ancestor in the set, no ancestor
    in the set is longer, and the broader is null exactly when no ancestor
    is in the set. *)
Theorem schedules_point_broader_is_nearest_ancestor
  (c : string) (S : list string) :
  str_in "-" c = false ->
  match Schedules.compute_broader c S with
  | Some p =>
      In p S /\ dotted_ancestor p c
      /\ forall q, dotted_ancestor q c -> In q S ->
                   String.length q <= String.length p
  | None => forall q, dotted_ancestor q c -> ~ In q S
  end.
Proof.
  intros Hc. unfold Schedules.compute_broader. rewrite Hc.
  destruct (negb (str_in "." c)) eqn:Hd.
  - intros q [rest E]. exfalso. apply negb_true_iff in Hd.
    rewrite E in Hd. change (q ++ "." ++ rest) with (q ++ String "." rest) in Hd.
    rewrite str_in_char_app in Hd. discriminate.
  - cbv zeta.
    pose proof (first_in_countdown
                  (fun i => join "." (firstn i (split_char "." c))) S
                  (List.length (split_char "." c) - 1)) as G.
    destruct (first_in _ S) as [p|].
    + destruct G as [i [Hi [Hp [HS Hj]]]].
      split; [exact HS|]. split.
      * exists (join "." (skipn i (split_char "." c))).
        rewrite Hp. rewrite <- (join_split "." c) at 1.
        apply join_firstn. lia.
      * intros q Hq HqS.
        destruct (dotted_ancestor_segments _ _ Hq) as [j [Hj' Eq]].
        destruct (Nat.le_gt_cases j i) as [L | L].
        -- rewrite Hp, Eq. now apply join_firstn_mono.
        -- exfalso. apply (Hj j); [lia|]. now rewrite <- Eq.
    + intros q Hq HqS.
      destruct (dotted_ancestor_segments _ _ Hq) as [j [Hj' Eq]].
      apply (G j); [lia|]. now rewrite <- Eq.
Qed.

Lemma schedules_point_broader_is_nearest_ancestor_witness :
  In "600" ["600"; "601"]
  /\ dotted_ancestor "600" "600.1.2"
  /\ forall q, dotted_ancestor q "600.1.2" -> In q ["600"; "601"] ->
               String.length q <= String.length "600".
Proof.
  exact (schedules_point_broader_is_nearest_ancestor
           "600.1.2" ["600"; "601"] eq_refl).
Defined.

(** Between Point codes of a schedule, narrower and broader fit: a Point
    code listed in the narrower of a Point code [c] has [c] as its broader;
    and a code whose broader is [c] is listed in the narrower of [c] exactly
    when it is [c], a dot and one more non-empty segment (a code whose own
    parent is missing from the file is in nobody's narrower). *)
Theorem schedules_narrower_and_broader_of_points
  (codes : list string) (c d : string) :
  str_in "-" c = false -> str_in "-" d = false ->
  (In d (Schedules.narrower_of codes c) ->
   Schedules.broader_of codes d = Some c)
  /\ (Schedules.broader_of codes d = Some c ->
      (In d (Schedules.narrower_of codes c) <->
       exists seg, d = c ++ "." ++ seg
                   /\ nonempty seg = true /\ str_in "." seg = false)).
Proof.
  intros Hc Hd.
  assert (N : In d (Schedules.narrower_of codes c) <->
              In c codes /\ In d codes
              /\ Schedules.immediate_child c d = true).
  { unfold Schedules.narrower_of.
    rewrite In_sorted, SchedulesFacts.sch_build_child_map_spec.
    unfold Schedules.child_of. split.
    - intros [Hin [[Hy Hi] | [[Hr _] | [Hr _]]]]; [auto | |];
        apply SchedulesFacts.sch_In_ranges_of in Hr; destruct Hr; congruence.
    - intros [H1 [H2 H3]]. auto. }
  split.
  - intros H. apply N in H. destruct H as [H1 [H2 H3]].
    rewrite schedules_broader_of by exact H2.
    apply schedules_child_parent; [exact H3|].
    apply SchedulesFacts.sch_In_simple_of. auto.
  - intros H. destruct (schedules_broader_in_codes _ _ _ H) as [H1 H2].
    rewrite N, schedules_immediate_child_iff. tauto.
Qed.

Lemma schedules_narrower_and_broader_of_points_witness :
  Schedules.broader_of ["600"; "600.1"; "600.2.1"] "600.1" = Some "600"
  /\ (In "600.2.1" (Schedules.narrower_of ["600"; "600.1"; "600.2.1"] "600")
      <-> exists seg, "600.2.1" = "600" ++ "." ++ seg
                      /\ nonempty seg = true /\ str_in "." seg = false).
Proof.
  split.
  - apply (proj1 (schedules_narrower_and_broader_of_points
                    ["600"; "600.1"; "600.2.1"] "600" "600.1"
                    eq_refl eq_refl)).
    simpl. auto.
  - apply (proj2 (schedules_narrower_and_broader_of_points
                    ["600"; "600.1"; "600.2.1"] "600" "600.2.1"
                    eq_refl eq_refl)).
    reflexivity.
Defined.

(* ===================================================================== *)
(** ** Tables: children, parents and how they fit together *)
(* ===================================================================== *)

Lemma str_take_app c r : forall i,
  String.length c <= i ->
  str_take i (c ++ r) = c ++ str_take (i - String.length c) r.
Proof.
  induction c as [|a c IH]; intros i Hi; simpl.
  - now rewrite Nat.sub_0_r.
  - destruct i as [|i]; simpl in *; [lia|]. rewrite IH by lia. reflexivity.
Qed.

Lemma str_take_exact c r : str_take (String.length c) (c ++ r) = c.
Proof.
  rewrite str_take_app, Nat.sub_diag by lia.
  destruct r; simpl; induction c; simpl; congruence.
Qed.

Lemma str_in_prefix_false sub p r :
  str_in sub (p ++ r) = false -> str_in sub p = false.
Proof.
  intros H. destruct (str_in sub p) eqn:E; [|reflexivity].
  now rewrite (str_in_app_l _ _ r E) in H.
Qed.

Lemma tables_immediate_child_iff c d :
  Tables.immediate_child c d = true <->
  str_in "--" c = false /\ str_in "--" d = false
  /\ exists digits, d = c ++ digits /\ isdigit digits = true
                    /\ String.length digits <= 3.
Proof.
  unfold Tables.immediate_child, startswith. cbv zeta.
  rewrite !andb_true_iff, !negb_true_iff, orb_false_iff, prefix_iff,
    Nat.ltb_lt, Nat.leb_le.
  split.
  - intros [[[Hc [_ Hd]] [[r E] _]] [Hi Hl]]. subst d.
    rewrite str_drop_app in Hi, Hl. eauto 10.
  - intros [Hc [Hd [digits [E [Hi Hl]]]]]. subst d.
    rewrite str_drop_app, length_app.
    assert (0 < String.length digits) by (destruct digits; simpl;
                                          [discriminate | lia]).
    repeat split; auto; [|eauto|lia].
    apply String.eqb_neq. intros E. apply (f_equal String.length) in E.
    rewrite length_app in E. lia.
Qed.

(** Among ASCII codes, the immediate children that the table script
    records for a code [c] are exactly the codes of the list that are [c]
    followed by one to three of the digits 0 to 9, neither of the two
    holding a doubled dash.  (Outside ASCII [str.isdigit] holds of more
    characters than [isdigit] here, so the statement is made for an ASCII
    child.) *)
Theorem tables_immediate_children_up_to_three_digits
  (codes : list string) (c d : string) :
  ascii_only d = true ->
  (In d (kids_of c (Tables.immediate_children_simple codes)) <->
   In c codes /\ In d codes
   /\ str_in "--" c = false /\ str_in "--" d = false
   /\ exists digits, d = c ++ digits /\ isdigit digits = true
                     /\ String.length digits <= 3).
Proof.
  intros _. rewrite TablesFacts.tab_immediate_children_spec,
    tables_immediate_child_iff. tauto.
Qed.

Lemma tables_immediate_children_up_to_three_digits_witness :
  ascii_only "-092" = true
  /\ (In "-092" (kids_of "-09" (Tables.immediate_children_simple
                                  ["-09"; "-092"; "-0921"; "-09a"])) <->
      In "-09" ["-09"; "-092"; "-0921"; "-09a"]
      /\ In "-092" ["-09"; "-092"; "-0921"; "-09a"]
      /\ str_in "--" "-09" = false /\ str_in "--" "-092" = false
      /\ exists digits, "-092" = "-09" ++ digits /\ isdigit digits = true
                        /\ String.length digits <= 3).
Proof.
  split; [reflexivity|].
  apply (tables_immediate_children_up_to_three_digits
           ["-09"; "-092"; "-0921"; "-09a"] "-09" "-092").
  reflexivity.
Defined.

Lemma tables_point_broader_cases c pts :
  str_in "--" c = false ->
  match Tables.compute_broader c pts with
  | Some p =>
      exists i, 1 <= i < String.length c /\ p = str_take i c /\ In p pts
                /\ forall j, i < j < String.length c ->
                             ~ In (str_take j c) pts
  | None => forall i, 1 <= i < String.length c -> ~ In (str_take i c) pts
  end.
Proof.
  intros Hc. destruct (Tables.compute_broader c pts) as [p|] eqn:E.
  - destruct (tables_point_parent c pts p Hc E) as [HS [i [Hi [Hp Hj]]]].
    exists i. auto.
  - unfold Tables.compute_broader in E. rewrite Hc in E.
    destruct (String.length c <=? 1)%nat eqn:L.
    + apply Nat.leb_le in L. intros i Hi. lia.
    + unfold Tables.truncations in E.
      pose proof (first_in_countdown (fun i => str_take i c) pts
                    (String.length c - 1)) as G.
      rewrite E in G. intros i Hi. apply G. lia.
Qed.

Lemma tables_compute_broader_in code pts p :
  Tables.compute_broader code pts = Some p ->
  In p pts /\ nonempty p = true.
Proof.
  unfold Tables.compute_broader.
  assert (G : forall s, first_in (Tables.truncations s) pts = Some p ->
                        In p pts /\ nonempty p = true).
  { intros s H. apply TablesFacts.first_in_truncations in H.
    destruct H as [H1 [i [Hi [-> _]]]]. split; [exact H1|].
    apply nonempty_length. rewrite length_take; lia. }
  destruct (str_in "--" code).
  - destruct (Tables.split_range code) as [[l r]|]; [|discriminate].
    destruct (nonempty l); [apply G | discriminate].
  - destruct (String.length code <=? 1)%nat; [discriminate | apply G].
Qed.

Lemma tables_broader_of_some codes c p :
  Tables.broader_of codes c = Some p ->
  In c codes /\ Tables.compute_broader c (Tables.simple_of codes) = Some p.
Proof.
  intros H.
  assert (Hc : In c codes).
  { unfold Tables.broader_of, Tables.build_broader_map in H.
    cbv zeta in H.
    destruct (dict_of_keys
      (fun c => Tables.compute_broader c (Tables.simple_of codes)) codes)
      as [_ [K _]]. cbv zeta in K. apply K, dict_get_keys.
    destruct (dict_get c _); [discriminate | discriminate]. }
  split; [exact Hc|]. now rewrite <- tables_broader_of.
Qed.

(** In a table the broader of a code is always a non-empty Point code of
    the index and never the code itself; a Range code is nobody's
    broader. *)
Theorem tables_broader_is_another_point_code
  (codes : list string) (c p : string) :
  Tables.broader_of codes c = Some p ->
  In c codes /\ In p codes /\ str_in "--" p = false
  /\ nonempty p = true /\ p <> c.
Proof.
  intros H. destruct (tables_broader_of_some _ _ _ H) as [Hc Hb].
  destruct (tables_compute_broader_in _ _ _ Hb) as [Hp Hn].
  apply TablesFacts.tab_In_simple_of in Hp. destruct Hp as [Hp Hd].
  split; [exact Hc|]. split; [exact Hp|]. split; [exact Hd|].
  split; [exact Hn|].
  destruct (str_in "--" c) eqn:E; [congruence|].
  destruct (tables_point_parent c _ p E Hb) as [_ [i [Hi [Ep _]]]].
  intros ->. apply (f_equal String.length) in Ep.
  rewrite length_take in Ep; lia.
Qed.

Lemma tables_broader_is_another_point_code_witness :
  In "-001--003" ["-0"; "-001"; "-001--003"]
  /\ In "-0" ["-0"; "-001"; "-001--003"]
  /\ str_in "--" "-0" = false /\ nonempty "-0" = true
  /\ "-0" <> "-001--003".
Proof.
  apply (tables_broader_is_another_point_code
           ["-0"; "-001"; "-001--003"] "-001--003" "-0").
  reflexivity.
Defined.

(** In a table a Point code [d] listed in the narrower of a non-empty Point
    code [c] has a broader, which is [c] or a longer proper prefix of [d]
    that starts with [c]: the narrower of [c] reaches up to three digits
    down, the broader is the nearest prefix in the file. *)
Theorem tables_child_broader_extends_parent
  (codes : list string) (c d : string) :
  str_in "--" c = false -> str_in "--" d = false -> nonempty c = true ->
  In d (Tables.narrower_of codes c) ->
  exists p mid rest,
    Tables.broader_of codes d = Some p
    /\ p = c ++ mid /\ d = p ++ rest /\ nonempty rest = true.
Proof.
  intros Hc Hd Hn H.
  unfold Tables.narrower_of in H.
  rewrite In_sorted, TablesFacts.tab_build_child_map_spec in H.
  destruct H as [Hin [[Hy Hi] | [[Hr _] | [Hr _]]]];
    try (apply TablesFacts.tab_In_ranges_of in Hr; destruct Hr; congruence).
  apply tables_immediate_child_iff in Hi.
  destruct Hi as [_ [_ [digits [E [Hdig Hl]]]]].
  assert (Ld : 0 < String.length digits)
    by (destruct digits; simpl; [discriminate | lia]).
  assert (Lc : 0 < String.length c) by now apply nonempty_length.
  rewrite tables_broader_of by exact Hy.
  pose proof (tables_point_broader_cases d (Tables.simple_of codes) Hd) as G.
  assert (Ec : str_take (String.length c) d = c)
    by (rewrite E; apply str_take_exact).
  assert (Sc : In c (Tables.simple_of codes))
    by (apply TablesFacts.tab_In_simple_of; auto).
  assert (Ldd : String.length d = String.length c + String.length digits)
    by (rewrite E; apply length_app).
  destruct (Tables.compute_broader d (Tables.simple_of codes)) as [p|].
  - destruct G as [i [Hi [Hp [HS Hj]]]].
    assert (Lci : String.length c <= i).
    { destruct (Nat.le_gt_cases (String.length c) i) as [L | L]; [exact L|].
      exfalso. apply (Hj (String.length c)); [lia|]. now rewrite Ec. }
    exists p, (str_take (i - String.length c) digits), (str_drop i d).
    split; [reflexivity|]. split.
    + rewrite Hp, E. now apply str_take_app.
    + split; [rewrite Hp; symmetry; apply take_drop|].
      apply nonempty_length. pose proof (take_drop i d) as T.
      apply (f_equal String.length) in T.
      rewrite length_app, length_take in T; lia.
  - exfalso. apply (G (String.length c)); [lia|]. now rewrite Ec.
Qed.

Lemma tables_child_broader_extends_parent_witness :
  exists p mid rest,
    Tables.broader_of ["-09"; "-092"; "-0921"] "-0921" = Some p
    /\ p = "-09" ++ mid /\ "-0921" = p ++ rest /\ nonempty rest = true.
Proof.
  apply (tables_child_broader_extends_parent
           ["-09"; "-092"; "-0921"] "-09" "-0921");
    [reflexivity | reflexivity | reflexivity | simpl; auto].
Defined.

(* ===================================================================== *)
(** ** Schedules: what a range covers and where it is attached *)
(* ===================================================================== *)

#[local] Arguments py_int : simpl never.

Lemma rsplit1_cases c s :
  (str_in (String c "") s = false /\ rsplit1 c s = [s])
  \/ (exists p t, rsplit1 c s = [p; t] /\ s = p ++ String c t
                  /\ str_in (String c "") t = false).
Proof.
  induction s as [|x s IH]; [left; auto|].
  cbn [rsplit1]. rewrite str_in_char.
  destruct IH as [[Hn E] | [p [t [E [Es Ht]]]]]; rewrite E.
  - rewrite Hn, orb_false_r. destruct (Ascii.eqb x c) eqn:Ex.
    + right. apply Ascii.eqb_eq in Ex. subst x. exists "", s. auto.
    + left. auto.
  - right. exists (String x p), t. subst s. auto.
Qed.

Lemma rsplit1_two c s p t :
  rsplit1 c s = [p; t] ->
  s = p ++ String c t /\ str_in (String c "") t = false.
Proof.
  intros H. destruct (rsplit1_cases c s) as [[_ E] | [p' [t' [E [Es Ht]]]]];
    rewrite E in H; inversion H; subst; auto.
Qed.

Lemma rsplit1_dotted c s :
  str_in (String c "") s = true -> exists p t, rsplit1 c s = [p; t].
Proof.
  intros H. destruct (rsplit1_cases c s) as [[Hn _] | [p [t [E _]]]];
    [congruence | eauto].
Qed.

Lemma rsplit1_last c p t :
  str_in (String c "") t = false -> rsplit1 c (p ++ String c t) = [p; t].
Proof.
  intros Ht. induction p as [|x p IH]; simpl append; cbn [rsplit1].
  - now rewrite (rsplit1_none c t Ht), Ascii.eqb_refl.
  - now rewrite IH.
Qed.

Lemma schedules_split_range_build l r :
  str_in "-" l = false -> str_in "-" r = false ->
  Schedules.split_range (l ++ "-" ++ r) = Some (l, r).
Proof.
  intros Hl Hr. unfold Schedules.split_range.
  change (l ++ "-" ++ r) with (l ++ String "-" r).
  rewrite str_in_char_app, split_char_app,
    (split_char_none "-" l Hl), (split_char_none "-" r Hr).
  reflexivity.
Qed.

Lemma schedules_split_range_parts code l r :
  Schedules.split_range code = Some (l, r) ->
  code = l ++ "-" ++ r /\ str_in "-" l = false /\ str_in "-" r = false.
Proof.
  unfold Schedules.split_range. destruct (str_in "-" code); simpl;
    [|discriminate].
  destruct (split_char "-" code) as [|x [|y [|z zs]]] eqn:Es; try discriminate.
  intros H. inversion H; subst. apply (split_char_two _ _ _ _ Es).
Qed.

(** Round trip of [split_range] on schedule codes: two bounds without a
    dash joined by one dash split back into these bounds, and whatever
    splits is its two bounds, both free of dashes, joined by one dash. *)
Theorem schedules_split_range_round_trip (code l r : string) :
  (str_in "-" l = false -> str_in "-" r = false ->
   Schedules.split_range (l ++ "-" ++ r) = Some (l, r))
  /\ (Schedules.split_range code = Some (l, r) ->
      code = l ++ "-" ++ r /\ str_in "-" l = false /\ str_in "-" r = false).
Proof.
  split; [apply schedules_split_range_build
         | apply schedules_split_range_parts].
Qed.

Lemma schedules_split_range_round_trip_witness :
  Schedules.split_range ("026.0001" ++ "-" ++ "026.0005")
  = Some ("026.0001", "026.0005")
  /\ ("004-006" = "004" ++ "-" ++ "006"
      /\ str_in "-" "004" = false /\ str_in "-" "006" = false).
Proof.
  split.
  - apply (proj1 (schedules_split_range_round_trip
                    "" "026.0001" "026.0005")); reflexivity.
  - apply (proj2 (schedules_split_range_round_trip "004-006" "004" "006")).
    reflexivity.
Defined.

Lemma schedules_expand_integer rc l r L R pts y :
  Schedules.split_range rc = Some (l, r) ->
  str_in "." l = false -> str_in "." r = false ->
  py_int l = Some L -> py_int r = Some R ->
  (In y (Schedules.expand_range_children rc pts) <->
   In y pts /\ str_in "-" y = false /\ str_in "." y = false
   /\ exists v, py_int y = Some v /\ (L <= v <= R)%Z).
Proof.
  intros Hs Hl Hr HL HR. unfold Schedules.expand_range_children.
  rewrite Hs, Hl, Hr, HL, HR. simpl andb. cbv iota.
  rewrite (fold_left_ext _
    (fun res sc =>
       if negb (str_in "-" sc) && negb (str_in "." sc)
          && match py_int sc with
             | Some v => Schedules.in_span L v R
             | None => false
             end
       then set_add sc res else res)).
  - rewrite fold_add_filter, !andb_true_iff, !negb_true_iff.
    unfold Schedules.in_span. split.
    + intros [[] | [Hy [[H1 H2] H3]]].
      destruct (py_int y) as [v|]; [|discriminate].
      apply andb_true_iff in H3. rewrite !Z.leb_le in H3. eauto 10.
    + intros [Hy [H1 [H2 [v [Hv Hb]]]]]. right. rewrite Hv.
      repeat split; auto. apply andb_true_iff. rewrite !Z.leb_le. exact Hb.
  - intros res sc. destruct (str_in "-" sc); [reflexivity|].
    destruct (str_in "." sc); [reflexivity|].
    destruct (py_int sc); reflexivity.
Qed.

Lemma schedules_expand_dotted rc l r p lt rt li ri pts y :
  Schedules.split_range rc = Some (l, r) ->
  rsplit1 "." l = [p; lt] -> rsplit1 "." r = [p; rt] ->
  py_int lt = Some li -> py_int rt = Some ri ->
  (In y (Schedules.expand_range_children rc pts) <->
   In y pts /\ str_in "-" y = false
   /\ exists seg, y = p ++ "." ++ seg
                  /\ nonempty seg = true /\ str_in "." seg = false
                  /\ exists v, py_int seg = Some v /\ (li <= v <= ri)%Z).
Proof.
  intros Hs Hl Hr HL HR. unfold Schedules.expand_range_children.
  destruct (rsplit1_two _ _ _ _ Hl) as [El _].
  destruct (rsplit1_two _ _ _ _ Hr) as [Er _].
  assert (Dl : str_in "." l = true) by (rewrite El; apply str_in_char_app).
  assert (Dr : str_in "." r = true) by (rewrite Er; apply str_in_char_app).
  rewrite Hs, Dl, Dr, Hl, Hr, String.eqb_refl, HL, HR.
  simpl negb. simpl andb. cbv iota zeta.
  set (plen := String.length (p ++ ".")).
  rewrite (fold_left_ext _
    (fun res sc =>
       if startswith sc (p ++ ".") && negb (str_in "-" sc)
          && negb (negb (nonempty (str_drop plen sc))
                   || str_in "." (str_drop plen sc))
          && match py_int (str_drop plen sc) with
             | Some v => Schedules.in_span li v ri
             | None => false
             end
       then set_add sc res else res)).
  - rewrite fold_add_filter, !andb_true_iff, !negb_true_iff, orb_false_iff,
      negb_false_iff.
    unfold Schedules.in_span, startswith. rewrite prefix_iff. split.
    + intros [[] | [Hy [[[[x Ex] H1] [H2 H3]] H4]]].
      unfold plen in H2, H3, H4. rewrite Ex in H2, H3, H4.
      rewrite str_drop_app in H2, H3, H4.
      destruct (py_int x) as [v|] eqn:Hv; [|discriminate].
      apply andb_true_iff in H4. rewrite !Z.leb_le in H4.
      split; [exact Hy|]. split; [exact H1|]. exists x.
      split; [rewrite Ex; symmetry; apply append_assoc|].
      split; [exact H2|]. split; [exact H3|]. exists v. auto.
    + intros [Hy [H1 [seg [E [H2 [H3 [v [Hv Hb]]]]]]]]. right.
      subst y. rewrite append_assoc in Hy, H1 |- *.
      unfold plen. rewrite str_drop_app, Hv.
      split; [exact Hy|]. split.
      * split; [split; [exists seg; reflexivity | exact H1]|]. auto.
      * apply andb_true_iff. rewrite !Z.leb_le. exact Hb.
  - intros res sc. fold plen.
    destruct (startswith sc (p ++ ".")); [|reflexivity].
    destruct (str_in "-" sc); [reflexivity|].
    cbn [negb andb].
    destruct (negb (nonempty (str_drop plen sc))
              || str_in "." (str_drop plen sc)); [reflexivity|].
    destruct (py_int (str_drop plen sc)); reflexivity.
Qed.

(** An integer range [l-r] of a schedule, its bounds written in ASCII:
    among the ASCII codes given it covers exactly the Point codes that hold
    no dot and whose integer value lies between the values of the two
    bounds, both included; the width of the code does not matter, and
    reversed bounds cover nothing.  (Outside ASCII [int] reads more strings
    than [py_int] here, so the statement is made for an ASCII code.) *)
Theorem schedules_integer_range_coverage
  (l r : string) (L R : Z) (pts : list string) (y : string) :
  str_in "-" l = false -> str_in "-" r = false ->
  str_in "." l = false -> str_in "." r = false ->
  py_int l = Some L -> py_int r = Some R ->
  ascii_only y = true ->
  (In y (Schedules.expand_range_children (l ++ "-" ++ r) pts) <->
   In y pts /\ str_in "-" y = false /\ str_in "." y = false
   /\ exists v, py_int y = Some v /\ (L <= v <= R)%Z).
Proof.
  intros H1 H2 D1 D2 HL HR _.
  apply (schedules_expand_integer _ l r); auto.
  now apply schedules_split_range_build.
Qed.

Lemma schedules_integer_range_coverage_witness :
  In "5" (Schedules.expand_range_children ("004" ++ "-" ++ "006")
            ["004"; "5"; "007"; "004.1"])
  <-> In "5" ["004"; "5"; "007"; "004.1"]
      /\ str_in "-" "5" = false /\ str_in "." "5" = false
      /\ exists v, py_int "5" = Some v /\ (4 <= v <= 6)%Z.
Proof.
  apply (schedules_integer_range_coverage
           "004" "006" 4 6 ["004"; "5"; "007"; "004.1"] "5");
    reflexivity.
Defined.

(** A structured range [p.a-p.b] of a schedule, [a] and [b] written in
    ASCII: among the ASCII codes given it covers exactly the Point codes
    that are [p], a dot and one more segment whose integer value lies
    between the values of [a] and [b], both included; deeper codes are not
    covered.  (Outside ASCII [int] reads more strings than [py_int] here,
    so the statement is made for an ASCII code.) *)
Theorem schedules_structured_range_coverage
  (p a b : string) (li ri : Z) (pts : list string) (y : string) :
  str_in "-" p = false -> str_in "-" a = false -> str_in "-" b = false ->
  str_in "." a = false -> str_in "." b = false ->
  py_int a = Some li -> py_int b = Some ri ->
  ascii_only y = true ->
  (In y (Schedules.expand_range_children
           ((p ++ "." ++ a) ++ "-" ++ (p ++ "." ++ b)) pts) <->
   In y pts /\ str_in "-" y = false
   /\ exists seg, y = p ++ "." ++ seg
                  /\ nonempty seg = true /\ str_in "." seg = false
                  /\ exists v, py_int seg = Some v /\ (li <= v <= ri)%Z).
Proof.
  intros Hp Ha Hb Da Db HL HR _.
  assert (Dp : forall t, str_in "-" t = false ->
                         str_in "-" (p ++ "." ++ t) = false).
  { intros t Ht. rewrite !str_in_char_split, Hp, Ht. reflexivity. }
  apply (schedules_expand_dotted _ (p ++ "." ++ a) (p ++ "." ++ b) p a b).
  - apply schedules_split_range_build; auto.
  - now apply rsplit1_last.
  - now apply rsplit1_last.
  - exact HL.
  - exact HR.
Qed.

Lemma schedules_structured_range_coverage_witness :
  In "026.0002"
     (Schedules.expand_range_children
        (("026" ++ "." ++ "0001") ++ "-" ++ ("026" ++ "." ++ "0005"))
        ["026"; "026.0002"; "026.0002.1"; "026.0007"])
  <-> In "026.0002" ["026"; "026.0002"; "026.0002.1"; "026.0007"]
      /\ str_in "-" "026.0002" = false
      /\ exists seg, "026.0002" = "026" ++ "." ++ seg
                     /\ nonempty seg = true /\ str_in "." seg = false
                     /\ exists v, py_int seg = Some v /\ (1 <= v <= 5)%Z.
Proof.
  apply (schedules_structured_range_coverage
           "026" "0001" "0005" 1 5
           ["026"; "026.0002"; "026.0002.1"; "026.0007"] "026.0002");
    reflexivity.
Defined.

(** A schedule range covers nothing when one of its bounds has a dot and
    the other has none, or when both have dots but differ before their last
    segment. *)
Theorem schedules_mismatched_range_covers_nothing
  (rc l r : string) (pts : list string) :
  Schedules.split_range rc = Some (l, r) ->
  str_in "." l <> str_in "." r
  \/ (str_in "." l = true /\ str_in "." r = true
      /\ hd "" (rsplit1 "." l) <> hd "" (rsplit1 "." r)) ->
  Schedules.expand_range_children rc pts = [].
Proof.
  intros Hs H. unfold Schedules.expand_range_children. rewrite Hs.
  destruct H as [H | [Dl [Dr H]]].
  - destruct (str_in "." l), (str_in "." r); try congruence; reflexivity.
  - rewrite Dl, Dr. simpl negb. simpl andb. cbv iota.
    destruct (rsplit1_dotted "." l Dl) as [lp [lt El]].
    destruct (rsplit1_dotted "." r Dr) as [rp [rt Er]].
    rewrite El, Er in *. simpl hd in H.
    apply String.eqb_neq in H. now rewrite H.
Qed.

Lemma schedules_mismatched_range_covers_nothing_witness :
  Schedules.expand_range_children "026.0001-027.0005"
    ["026.0001"; "026.0003"; "027.0002"] = []
  /\ Schedules.expand_range_children "004-006.5" ["004"; "005"; "006"] = [].
Proof.
  split.
  - apply (schedules_mismatched_range_covers_nothing
             "026.0001-027.0005" "026.0001" "027.0005");
      [reflexivity|]. right. repeat split. discriminate.
  - apply (schedules_mismatched_range_covers_nothing
             "004-006.5" "004" "006.5");
      [reflexivity|]. left. discriminate.
Defined.

Lemma schedules_range_narrower codes rc y :
  str_in "-" rc = true ->
  (In y (Schedules.narrower_of codes rc) <->
   In rc codes
   /\ In y (Schedules.expand_range_children rc (Schedules.simple_of codes))).
Proof.
  intros Hr. unfold Schedules.narrower_of.
  rewrite In_sorted, SchedulesFacts.sch_build_child_map_spec.
  unfold Schedules.child_of. rewrite SchedulesFacts.sch_In_ranges_of. split.
  - intros [Hin [[_ H] | [[_ H] | [_ [H _]]]]].
    + apply SchedulesFacts.sch_immediate_child_simple in H.
      destruct H. congruence.
    + auto.
    + apply SchedulesFacts.sch_range_parent_sound in H.
      destruct H as [H _]. apply SchedulesFacts.sch_In_simple_of in H.
      destruct H. congruence.
  - intros [Hin H]. split; [exact Hin|]. right. left. auto.
Qed.

(** The integer-range cycle: when the left bound of an integer range [l-r]
    of a schedule is itself a code of the file and does not exceed the right
    bound, the range is listed in the narrower of [l], [l] is listed in the
    narrower of the range, and [l] is the broader of the range. *)
Theorem schedules_integer_range_and_left_bound_list_each_other
  (codes : list string) (l r : string) (L R : Z) :
  In (l ++ "-" ++ r) codes -> In l codes ->
  str_in "-" l = false -> str_in "-" r = false ->
  str_in "." l = false -> str_in "." r = false ->
  py_int l = Some L -> py_int r = Some R -> (L <= R)%Z ->
  In (l ++ "-" ++ r) (Schedules.narrower_of codes l)
  /\ In l (Schedules.narrower_of codes (l ++ "-" ++ r))
  /\ Schedules.broader_of codes (l ++ "-" ++ r) = Some l.
Proof.
  intros Hrc Hl Dl Dr Pl Pr HL HR HLR.
  pose proof (schedules_split_range_build l r Dl Dr) as Hs.
  destruct (schedules_split_range_parts _ _ _ Hs) as [_ _].
  assert (Hd : str_in "-" (l ++ "-" ++ r) = true)
    by apply (str_in_char_app "-" l r).
  assert (Sl : In l (Schedules.simple_of codes))
    by (apply SchedulesFacts.sch_In_simple_of; auto).
  assert (Nl : nonempty l = true).
  { destruct l; [|reflexivity]. discriminate HL. }
  assert (Hp : Schedules.range_parent (l ++ "-" ++ r)
                 (Schedules.simple_of codes) = Some l).
  { unfold Schedules.range_parent. rewrite Hd, Hs, Pl. simpl negb.
    cbv iota. apply mem_In in Sl. now rewrite Sl. }
  split; [|split].
  - unfold Schedules.narrower_of.
    rewrite In_sorted, SchedulesFacts.sch_build_child_map_spec.
    split; [exact Hl|]. right. right.
    rewrite SchedulesFacts.sch_In_ranges_of. auto.
  - apply schedules_range_narrower; [exact Hd|]. split; [exact Hrc|].
    apply (schedules_expand_integer _ l r L R _ l Hs Pl Pr HL HR).
    split; [exact Sl|]. split; [exact Dl|]. split; [exact Pl|].
    exists L. split; [exact HL | lia].
  - rewrite schedules_broader_of by exact Hrc.
    rewrite <- Hp. symmetry.
    apply (schedules_range_agree_undotted _ l r _ Hs Pl).
    intros ->. discriminate Nl.
Qed.

Lemma schedules_integer_range_and_left_bound_list_each_other_witness :
  In ("004" ++ "-" ++ "006")
     (Schedules.narrower_of ["004"; "005"; "004-006"] "004")
  /\ In "004" (Schedules.narrower_of ["004"; "005"; "004-006"]
                 ("004" ++ "-" ++ "006"))
  /\ Schedules.broader_of ["004"; "005"; "004-006"] ("004" ++ "-" ++ "006")
     = Some "004".
Proof.
  apply (schedules_integer_range_and_left_bound_list_each_other
           ["004"; "005"; "004-006"] "004" "006" 4 6);
    try reflexivity; try (simpl; auto); lia.
Defined.

(** The codes that a structured range of a schedule covers are its
    siblings: when the left bound without its last segment is a code of the
    file, that code is the broader of the range and of every code in the
    narrower of the range. *)
Theorem schedules_structured_range_and_its_children_share_the_broader
  (codes : list string) (rc l r y : string) :
  Schedules.split_range rc = Some (l, r) ->
  str_in "." l = true ->
  In rc codes ->
  In (hd "" (rsplit1 "." l)) codes ->
  In y (Schedules.narrower_of codes rc) ->
  Schedules.broader_of codes rc = Some (hd "" (rsplit1 "." l))
  /\ Schedules.broader_of codes y = Some (hd "" (rsplit1 "." l)).
Proof.
  intros Hs Dl Hrc Hp Hy.
  destruct (schedules_split_range_parts _ _ _ Hs) as [Erc [Nl Nr]].
  assert (Hd : str_in "-" rc = true).
  { rewrite Erc. apply (str_in_char_app "-" l r). }
  destruct (rsplit1_dotted "." l Dl) as [p [lt El]].
  rewrite El in *. simpl hd in *.
  destruct (rsplit1_two _ _ _ _ El) as [El' _].
  assert (Np : str_in "-" p = false).
  { rewrite El' in Nl. now apply str_in_prefix_false in Nl. }
  assert (Sp : In p (Schedules.simple_of codes))
    by (apply SchedulesFacts.sch_In_simple_of; auto).
  split.
  - rewrite schedules_broader_of by exact Hrc.
    unfold Schedules.compute_broader, Schedules.dotted_truncation.
    assert (Dc : str_in "." rc = true).
    { rewrite Erc. now apply str_in_app_l. }
    assert (Ne : nonempty l = true) by (destruct l; [discriminate | auto]).
    rewrite Hd, Dc, Hs, Ne, Dl, El. simpl hd. simpl andb. cbv iota.
    apply mem_In in Sp. now rewrite Sp.
  - apply schedules_range_narrower in Hy; [|exact Hd].
    destruct Hy as [_ Hy].
    assert (Hy' := Hy).
    apply SchedulesFacts.sch_expand_range_children_sound in Hy'.
    destruct Hy' as [Sy [Ny _]].
    apply SchedulesFacts.sch_In_simple_of in Sy. destruct Sy as [Cy _].
    rewrite schedules_broader_of by exact Cy.
    apply schedules_child_parent; [|exact Sp].
    unfold Schedules.expand_range_children in Hy.
    rewrite Hs, Dl in Hy. simpl negb in Hy. simpl andb in Hy. cbv iota in Hy.
    destruct (str_in "." r); [|destruct Hy]. rewrite El in Hy.
    destruct (rsplit1 "." r) as [|rp [|rt [|? ?]]]; try destruct Hy.
    destruct (negb (String.eqb p rp)); [destruct Hy|].
    destruct (py_int lt) as [li|]; [|destruct Hy].
    destruct (py_int rt) as [ri|]; [|destruct Hy].
    cbv zeta in Hy.
    apply (fold_add_sound
             (fun sc => Schedules.immediate_child p sc = true)) in Hy.
    + destruct Hy as [[] | [_ Hy]]. exact Hy.
    + intros res sc. unfold Schedules.immediate_child. rewrite Np.
      cbv zeta. simpl negb. rewrite andb_true_l.
      destruct (startswith sc (p ++ ".")); [|auto].
      destruct (str_in "-" sc); [auto|]. simpl negb. simpl andb.
      destruct (nonempty (str_drop (String.length (p ++ ".")) sc));
        [|auto]. simpl negb. simpl orb. simpl andb.
      destruct (str_in "." (str_drop (String.length (p ++ ".")) sc));
        [auto|]. simpl negb.
      destruct (py_int (str_drop (String.length (p ++ ".")) sc)); [|auto].
      destruct (Schedules.in_span li z ri); auto.
Qed.

Lemma schedules_structured_range_and_its_children_share_the_broader_witness :
  Schedules.broader_of structured_range_codes "026.0001-026.0005"
  = Some (hd "" (rsplit1 "." "026.0001"))
  /\ Schedules.broader_of structured_range_codes "026.0002"
     = Some (hd "" (rsplit1 "." "026.0001")).
Proof.
  apply (schedules_structured_range_and_its_children_share_the_broader
           structured_range_codes "026.0001-026.0005" "026.0001" "026.0005"
           "026.0002");
    try reflexivity; simpl; auto 6.
Defined.

(* ===================================================================== *)
(** ** Where ranges are listed, and what a narrower can hold *)
(* ===================================================================== *)

Lemma tables_range_narrower_of codes r k :
  str_in "--" r = true ->
  (In r (Tables.narrower_of codes k) <->
   In r codes /\ Tables.range_parent r (Tables.simple_of codes) = Some k).
Proof.
  intros Hr. unfold Tables.narrower_of. rewrite In_sorted. split.
  - apply tables_attached_range, Hr.
  - intros [Hin Hp]. apply TablesFacts.tab_build_child_map_spec.
    destruct (TablesFacts.tab_range_parent_sound _ _ _ Hp) as [Sk [_ Nk]].
    apply TablesFacts.tab_In_simple_of in Sk. destruct Sk as [Ck _].
    split; [exact Ck|]. right. right.
    rewrite TablesFacts.tab_In_ranges_of. auto.
Qed.

Lemma schedules_range_narrower_of codes r k :
  str_in "-" r = true ->
  (In r (Schedules.narrower_of codes k) <->
   In r codes /\ Schedules.range_parent r (Schedules.simple_of codes) = Some k
   /\ nonempty k = true).
Proof.
  intros Hr. unfold Schedules.narrower_of. rewrite In_sorted. split.
  - apply schedules_attached_range, Hr.
  - intros [Hin [Hp Nk]]. apply SchedulesFacts.sch_build_child_map_spec.
    destruct (SchedulesFacts.sch_range_parent_sound _ _ _ Hp) as [Sk _].
    apply SchedulesFacts.sch_In_simple_of in Sk. destruct Sk as [Ck _].
    split; [exact Ck|]. right. right.
    rewrite SchedulesFacts.sch_In_ranges_of. auto.
Qed.

(** A Range code is listed in the narrower of the code that [range_parent]
    names and of no other: in both scripts it has at most one place in the
    hierarchy, and none when [range_parent] finds no parent. *)
Theorem range_is_listed_under_its_range_parent_only
  (codes : list string) (r k k' : string) :
  (str_in "-" r = true ->
   (In r (Schedules.narrower_of codes k) <->
    In r codes
    /\ Schedules.range_parent r (Schedules.simple_of codes) = Some k
    /\ nonempty k = true)
   /\ (In r (Schedules.narrower_of codes k) ->
       In r (Schedules.narrower_of codes k') -> k = k'))
  /\ (str_in "--" r = true ->
      (In r (Tables.narrower_of codes k) <->
       In r codes
       /\ Tables.range_parent r (Tables.simple_of codes) = Some k)
      /\ (In r (Tables.narrower_of codes k) ->
          In r (Tables.narrower_of codes k') -> k = k')).
Proof.
  split; intros Hr.
  - split; [now apply schedules_range_narrower_of|].
    intros H1 H2. apply schedules_range_narrower_of in H1, H2; try exact Hr.
    destruct H1 as [_ [H1 _]], H2 as [_ [H2 _]]. congruence.
  - split; [now apply tables_range_narrower_of|].
    intros H1 H2. apply tables_range_narrower_of in H1, H2; try exact Hr.
    destruct H1 as [_ H1], H2 as [_ H2]. congruence.
Qed.

Lemma range_is_listed_under_its_range_parent_only_witness :
  (In "026.0001-026.0005"
      (Schedules.narrower_of structured_range_codes "026")
   <-> In "026.0001-026.0005" structured_range_codes
       /\ Schedules.range_parent "026.0001-026.0005"
            (Schedules.simple_of structured_range_codes) = Some "026"
       /\ nonempty "026" = true)
  /\ (In "-001--003" (Tables.narrower_of ["-0"; "-00"; "-001--003"] "-00")
      <-> In "-001--003" ["-0"; "-00"; "-001--003"]
          /\ Tables.range_parent "-001--003"
               (Tables.simple_of ["-0"; "-00"; "-001--003"]) = Some "-00").
Proof.
  split.
  - apply (proj1 (range_is_listed_under_its_range_parent_only
                    structured_range_codes "026.0001-026.0005" "026" "")).
    reflexivity.
  - apply (proj2 (range_is_listed_under_its_range_parent_only
                    ["-0"; "-00"; "-001--003"] "-001--003" "-00" "")).
    reflexivity.
Defined.

(** In both scripts a narrower sequence lists codes of the file only, and
    it is kept for a code of the file; a Range code never lists a Range
    code. *)
Theorem narrower_lists_codes_of_the_file
  (codes : list string) (k y : string) :
  (In y (Schedules.narrower_of codes k) ->
   In k codes /\ In y codes
   /\ ~ (str_in "-" k = true /\ str_in "-" y = true))
  /\ (In y (Tables.narrower_of codes k) ->
      In k codes /\ In y codes
      /\ ~ (str_in "--" k = true /\ str_in "--" y = true)).
Proof.
  split; intros H.
  - unfold Schedules.narrower_of in H.
    rewrite In_sorted, SchedulesFacts.sch_build_child_map_spec in H.
    destruct H as [Hk [[Hy Hi] | [[Hr He] | [Hr [Hp _]]]]].
    + apply SchedulesFacts.sch_immediate_child_simple in Hi.
      destruct Hi. repeat split; auto. intros [? ?]. congruence.
    + apply SchedulesFacts.sch_expand_range_children_sound in He.
      destruct He as [Sy [Ny _]].
      apply SchedulesFacts.sch_In_simple_of in Sy. destruct Sy.
      repeat split; auto. intros [? ?]. congruence.
    + apply SchedulesFacts.sch_In_ranges_of in Hr. destruct Hr.
      apply SchedulesFacts.sch_range_parent_sound in Hp.
      destruct Hp as [Sk _].
      apply SchedulesFacts.sch_In_simple_of in Sk. destruct Sk.
      repeat split; auto. intros [? ?]. congruence.
  - unfold Tables.narrower_of in H.
    rewrite In_sorted, TablesFacts.tab_build_child_map_spec in H.
    destruct H as [Hk [[Hy Hi] | [[Hr He] | [Hr [Hp _]]]]].
    + apply TablesFacts.tab_immediate_child_simple in Hi.
      destruct Hi. repeat split; auto. intros [? ?]. congruence.
    + apply TablesFacts.tab_expand_range_children_sound in He.
      destruct He as [Sy [Ny _]].
      apply TablesFacts.tab_In_simple_of in Sy. destruct Sy.
      repeat split; auto. intros [? ?]. congruence.
    + apply TablesFacts.tab_In_ranges_of in Hr. destruct Hr.
      apply TablesFacts.tab_range_parent_sound in Hp.
      destruct Hp as [Sk _].
      apply TablesFacts.tab_In_simple_of in Sk. destruct Sk.
      repeat split; auto. intros [? ?]. congruence.
Qed.

Lemma narrower_lists_codes_of_the_file_witness :
  (In "026" structured_range_codes
   /\ In "026.0001" structured_range_codes
   /\ ~ (str_in "-" "026" = true /\ str_in "-" "026.0001" = true))
  /\ (In "-09" ["-09"; "-092"] /\ In "-092" ["-09"; "-092"]
      /\ ~ (str_in "--" "-09" = true /\ str_in "--" "-092" = true)).
Proof.
  split.
  - apply (proj1 (narrower_lists_codes_of_the_file
                    structured_range_codes "026" "026.0001")).
    simpl. auto.
  - apply (proj2 (narrower_lists_codes_of_the_file
                    ["-09"; "-092"] "-09" "-092")).
    simpl. auto.
Defined.

(* ===================================================================== *)
(** ** What [process_file] does to a file *)
(* ===================================================================== *)

Section Frame.
Variable extract_code : dict -> option json.
Variable write : string -> json -> option json.
Hypothesis write_again :
  forall c e e', write c e = Some e' -> write c e' = Some e'.
Hypothesis write_frame :
  forall c fields e', write c (JObj fields) = Some e' ->
    exists fields', e' = JObj fields'
                    /\ forall k, k <> "hierarchy" ->
                                 dict_get k fields' = dict_get k fields.

Lemma process_frame entries es idx out :
  build_indices_with extract_code entries = Some (es, idx) ->
  assign write idx es = Some out ->
  List.length out = List.length entries
  /\ forall p e, nth_error entries p = Some e ->
       match e with
       | JObj fields =>
           exists fields' code,
             nth_error out p = Some (JObj fields')
             /\ extract_code fields = Some code
             /\ dict_get "bfCode" fields' = Some code
             /\ forall k, k <> "bfCode" -> k <> "hierarchy" ->
                          dict_get k fields' = dict_get k fields
       | _ => nth_error out p = Some e
       end.
Proof.
  intros Hb Ha.
  destruct (process_spec extract_code write write_again _ _ _ _ Hb Ha)
    as [L P].
  split; [exact L|]. intros p e He. specialize (P p e He).
  destruct e as [| | | | |fields]; try exact P.
  destruct (build_from_extracts extract_code _ _ _ _ Hb fields
              (nth_error_In _ _ He)) as [code [Ex _]].
  assert (M : marked extract_code (JObj fields)
              = JObj (dict_set "bfCode" code fields))
    by (simpl; now rewrite Ex).
  rewrite M in P.
  assert (G1 : dict_get "bfCode" (dict_set "bfCode" code fields) = Some code)
    by (now rewrite dict_get_set, String.eqb_refl).
  assert (G2 : forall k, k <> "bfCode" ->
            dict_get k (dict_set "bfCode" code fields) = dict_get k fields).
  { intros k Hk. rewrite dict_get_set.
    apply String.eqb_neq in Hk. now rewrite Hk. }
  destruct (code_at extract_code (JObj fields)) as [c|].
  - destruct P as [e' [W N]].
    destruct (write_frame _ _ _ W) as [fields' [-> F]].
    exists fields', code. split; [exact N|]. split; [exact Ex|].
    split; [rewrite F by discriminate; exact G1|].
    intros k K1 K2. rewrite F by exact K2. now apply G2.
  - exists (dict_set "bfCode" code fields), code. auto.
Qed.
End Frame.

Lemma schedules_write_frame codes c fields e' :
  Schedules.write_hierarchy codes c (JObj fields) = Some e' ->
  exists fields', e' = JObj fields'
                  /\ forall k, k <> "hierarchy" ->
                               dict_get k fields' = dict_get k fields.
Proof.
  simpl. intros H. inversion H; subst. eexists. split; [reflexivity|].
  intros k Hk. rewrite dict_get_set. apply String.eqb_neq in Hk.
  now rewrite Hk.
Qed.

Lemma tables_write_frame codes c fields e' :
  Tables.write_hierarchy codes c (JObj fields) = Some e' ->
  exists fields', e' = JObj fields'
                  /\ forall k, k <> "hierarchy" ->
                               dict_get k fields' = dict_get k fields.
Proof.
  intros H. destruct (TablesEntries.write_hierarchy_shape _ _ _ _ H)
    as [[_ Hn] | [f [h [E [_ ->]]]]].
  - exfalso. eapply Hn. reflexivity.
  - inversion E; subst. eexists. split; [reflexivity|].
    intros k Hk. rewrite dict_get_set. apply String.eqb_neq in Hk.
    now rewrite Hk.
Qed.

(** Both scripts keep the file: the output has as many items as the input,
    in the same places; an item that is not an object is passed through;
    and an object keeps every field except [bfCode], which holds the
    extracted code, and [hierarchy]. *)
Theorem process_file_changes_only_bfCode_and_hierarchy
  (root : json) (out : list json) :
  (Schedules.process_file root = Written out ->
   exists entries, root = JArr entries
     /\ List.length out = List.length entries
     /\ forall p e, nth_error entries p = Some e ->
          match e with
          | JObj fields =>
              exists fields' code,
                nth_error out p = Some (JObj fields')
                /\ Schedules.extract_code fields = Some code
                /\ dict_get "bfCode" fields' = Some code
                /\ forall k, k <> "bfCode" -> k <> "hierarchy" ->
                             dict_get k fields' = dict_get k fields
          | _ => nth_error out p = Some e
          end)
  /\ (Tables.process_file root = Written out ->
      exists entries, root = JArr entries
        /\ List.length out = List.length entries
        /\ forall p e, nth_error entries p = Some e ->
             match e with
             | JObj fields =>
                 exists fields' code,
                   nth_error out p = Some (JObj fields')
                   /\ Tables.extract_code fields = Some code
                   /\ dict_get "bfCode" fields' = Some code
                   /\ forall k, k <> "bfCode" -> k <> "hierarchy" ->
                                dict_get k fields' = dict_get k fields
             | _ => nth_error out p = Some e
             end).
Proof.
  split; intros H.
  - destruct root; try discriminate. simpl in H.
    destruct (Schedules.process_entries items) as [o|] eqn:E;
      [|discriminate].
    inversion H; subst. exists items. split; [reflexivity|].
    destruct (schedules_parts _ _ E) as [es [idx [Hb Ha]]].
    apply (process_frame Schedules.extract_code
             (Schedules.write_hierarchy (map fst idx))
             (SchedulesEntries.sch_write_again _)
             (schedules_write_frame _) _ _ _ _ Hb Ha).
  - destruct root; try discriminate. simpl in H.
    destruct (Tables.process_entries items) as [o|] eqn:E; [|discriminate].
    inversion H; subst. exists items. split; [reflexivity|].
    destruct (tables_parts _ _ E) as [es [idx [Hb Ha]]].
    apply (process_frame Tables.extract_code
             (Tables.write_hierarchy (map fst idx))
             (TablesEntries.tab_write_again _)
             (tables_write_frame _) _ _ _ _ Hb Ha).
Qed.

Lemma process_file_changes_only_bfCode_and_hierarchy_witness :
  (exists entries, JArr sample_schedule = JArr entries
     /\ List.length sample_schedule_out = List.length entries
     /\ forall p e, nth_error entries p = Some e ->
          match e with
          | JObj fields =>
              exists fields' code,
                nth_error sample_schedule_out p = Some (JObj fields')
                /\ Schedules.extract_code fields = Some code
                /\ dict_get "bfCode" fields' = Some code
                /\ forall k, k <> "bfCode" -> k <> "hierarchy" ->
                             dict_get k fields' = dict_get k fields
          | _ => nth_error sample_schedule_out p = Some e
          end)
  /\ List.length sample_table_out = List.length sample_table.
Proof.
  split.
  - apply (proj1 (process_file_changes_only_bfCode_and_hierarchy
                    (JArr sample_schedule) sample_schedule_out)).
    reflexivity.
  - destruct (proj2 (process_file_changes_only_bfCode_and_hierarchy
                       (JArr sample_table) sample_table_out) eq_refl)
      as [entries [E [L _]]].
    inversion E; subst. exact L.
Defined.

Section Totality.
Variable extract_code : dict -> option json.

Lemma build_from_total entries : forall i idx,
  (forall fields, In (JObj fields) entries ->
     exists code, extract_code fields = Some code
                  /\ (truthy code = true -> exists c, code = JStr c)) ->
  exists r, build_from extract_code i entries idx = Some r.
Proof.
  induction entries as [|e entries IH]; intros i idx H; [simpl; eauto|].
  assert (K : forall e1 idx1,
    exists r, keep e1 (build_from extract_code (S i) entries idx1) = Some r).
  { intros e1 idx1. destruct (IH (S i) idx1) as [[es0 idx0] E].
    - intros fields Hin. apply H. now right.
    - rewrite E. simpl. eauto. }
  destruct e as [| | | | |fields]; try apply K.
  cbn [build_from].
  destruct (H fields (or_introl eq_refl)) as [code [Ex T]]. rewrite Ex.
  destruct (truthy code) eqn:Et; [|apply K].
  destruct (T eq_refl) as [c ->]. apply K.
Qed.
End Totality.

Lemma string_or_falsy_cases v :
  string_or_falsy v -> truthy v = true -> exists s, v = JStr s.
Proof. intros [H | H] T; [congruence | exact H]. Qed.

Lemma schedules_extract_total fields :
  (forall v, dict_get "id" fields = Some v -> string_or_falsy v) ->
  (forall v, dict_get "notation" fields = Some v -> string_or_falsy v) ->
  exists code, Schedules.extract_code fields = Some code
               /\ (truthy code = true -> exists c, code = JStr c).
Proof.
  intros Hid Hn. unfold Schedules.extract_code.
  assert (G : forall k, (forall v, dict_get k fields = Some v ->
                                   string_or_falsy v) ->
                        exists s, get_or k (JStr "") fields = JStr s).
  { intros k Hk. unfold get_or. destruct (dict_get k fields) as [v|];
      [|eauto].
    destruct (truthy v) eqn:T; [|eauto].
    apply (string_or_falsy_cases v (Hk v eq_refl) T). }
  destruct (G "id" Hid) as [idv ->].
  destruct (Schedules.id_code_match idv) as [c|]; [eauto|].
  destruct (G "notation" Hn) as [s ->]. eauto.
Qed.

Lemma tables_extract_total fields :
  (forall v, dict_get "notation" fields = Some v -> string_or_falsy v) ->
  (forall v, dict_get "id" fields = Some v -> exists s, v = JStr s) ->
  exists code, Tables.extract_code fields = Some code
               /\ (truthy code = true -> exists c, code = JStr c).
Proof.
  intros Hn Hid. unfold Tables.extract_code. cbv zeta.
  destruct (dict_get "notation" fields) as [v|] eqn:En.
  - destruct (truthy v) eqn:T.
    + exists v. split; [reflexivity|]. intros _.
      apply (string_or_falsy_cases v (Hn v eq_refl) T).
    + destruct (dict_get "id" fields) as [w|].
      * destruct (Hid w eq_refl) as [s ->].
        destruct (startswith s "T" && str_in ":" s); eauto.
        exists JNull. split; [reflexivity | discriminate].
      * simpl. exists JNull. split; [reflexivity | discriminate].
  - simpl. destruct (dict_get "id" fields) as [w|].
    + destruct (Hid w eq_refl) as [s ->].
      destruct (startswith s "T" && str_in ":" s); eauto.
      exists JNull. split; [reflexivity | discriminate].
    + simpl. exists JNull. split; [reflexivity | discriminate].
Qed.

(** The hierarchy stage of [process_file], from [build_indices] to the end
    of the assignment loop, raises no exception on a schedule file when, in
    each of its objects, [id] and [notation] are strings or values that
    Python treats as false (or are missing); on a table file when [notation]
    is such a value, a present [id] is a string and a present [hierarchy]
    is an object.  (Writing the result to the disk is not part of the
    statement.) *)
Theorem process_entries_succeeds_on_string_fields (entries : list json) :
  ((forall fields, In (JObj fields) entries ->
      (forall v, dict_get "id" fields = Some v -> string_or_falsy v)
      /\ (forall v, dict_get "notation" fields = Some v ->
                    string_or_falsy v)) ->
   exists out, Schedules.process_entries entries = Some out)
  /\ ((forall fields, In (JObj fields) entries ->
         (forall v, dict_get "notation" fields = Some v -> string_or_falsy v)
         /\ (forall v, dict_get "id" fields = Some v -> exists s, v = JStr s)
         /\ (forall v, dict_get "hierarchy" fields = Some v ->
                       exists h, v = JObj h)) ->
      exists out, Tables.process_entries entries = Some out).
Proof.
  split; intros H.
  - destruct (build_from_total Schedules.extract_code entries 0 [])
      as [[es idx] Hb].
    { intros fields Hin. destruct (H fields Hin).
      now apply schedules_extract_total. }
    apply (SchedulesEntries.process_entries_total _ _ _ Hb).
  - destruct (build_from_total Tables.extract_code entries 0 [])
      as [[es idx] Hb].
    { intros fields Hin. destruct (H fields Hin) as [H1 [H2 _]].
      now apply tables_extract_total. }
    fold (build_indices_with Tables.extract_code entries) in Hb.
    destruct (index_spec _ _ _ _ Hb) as [Es [_ O]].
    destruct (assign_total (Tables.write_hierarchy (map fst idx))
                (TablesEntries.tab_write_again _) idx es) as [out Ha].
    + intros c c' p. apply (index_owner Tables.extract_code _ _ _ _ _ _ Hb).
    + intros c p e Hown He. apply O in Hown.
      destruct Hown as [e0 [He0 Hc]]. rewrite Es in He.
      rewrite nth_error_map, He0 in He. simpl in He. inversion He; subst e.
      destruct e0 as [| | | | |fields]; try discriminate.
      simpl in Hc |- *.
      destruct (Tables.extract_code fields) as [code|]; [|discriminate].
      cbn [Tables.write_hierarchy]. rewrite dict_get_set.
      change (String.eqb "hierarchy" "bfCode") with false. cbv iota.
      destruct (H fields (nth_error_In _ _ He0)) as [_ [_ Hh]].
      destruct (dict_get "hierarchy" fields) as [v|]; [|discriminate].
      destruct (Hh v eq_refl) as [h ->]. discriminate.
    + exists out. unfold Tables.process_entries, Tables.build_indices.
      now rewrite Hb, Ha.
Qed.

Lemma process_entries_succeeds_on_string_fields_witness :
  (exists out,
     Schedules.process_entries
       [JObj [("id", JStr "Volume1-026"); ("notation", JNull)];
        JObj [("notation", JStr "026.1")]; JNum 3] = Some out)
  /\ (exists out,
        Tables.process_entries
          [JObj [("notation", JStr "-09"); ("hierarchy", JObj [])];
           JObj [("id", JStr "T1:-092")]] = Some out).
Proof.
  split.
  - apply (proj1 (process_entries_succeeds_on_string_fields _)).
    intros fields [E | [E | [E | []]]]; inversion E; subst; split;
      intros v Hv; simpl in Hv; inversion Hv; subst;
      solve [left; reflexivity | right; eauto].
  - apply (proj2 (process_entries_succeeds_on_string_fields _)).
    intros fields [E | [E | []]]; inversion E; subst;
      (split; [|split]); intros v Hv; simpl in Hv; inversion Hv; subst;
      solve [left; reflexivity | right; eauto | eauto].
Defined.

(** One entry can make the whole file fail.  A schedule file raises when
    an object has an [id] that is neither a string nor false for Python; a
    table file raises when an object with a non-empty string [notation]
    carries a [hierarchy] that is not an object, and when an object whose
    [notation] is missing has an [id] that is not a string. *)
Theorem process_file_raises_on_one_bad_entry
  (entries : list json) (fields : dict) (v : json) :
  In (JObj fields) entries ->
  (dict_get "id" fields = Some v -> truthy v = true ->
   (forall s, v <> JStr s) ->
   Schedules.process_file (JArr entries) = Uncaught)
  /\ ((exists c, dict_get "notation" fields = Some (JStr c)
                 /\ nonempty c = true) ->
      dict_get "hierarchy" fields = Some v -> (forall h, v <> JObj h) ->
      Tables.process_file (JArr entries) = Uncaught)
  /\ (dict_get "notation" fields = None ->
      dict_get "id" fields = Some v -> (forall s, v <> JStr s) ->
      Tables.process_file (JArr entries) = Uncaught).
Proof.
  intros Hin. split; [|split].
  - intros Hid Ht Hs. simpl.
    destruct (Schedules.process_entries entries) as [out|] eqn:E;
      [|reflexivity].
    exfalso. destruct (schedules_parts _ _ E) as [es [idx [Hb _]]].
    destruct (build_from_extracts _ _ _ _ _ Hb fields Hin) as [code [Ex _]].
    unfold Schedules.extract_code, get_or in Ex. rewrite Hid, Ht in Ex.
    destruct v; try discriminate. now apply (Hs s).
  - intros [c [Hn Nc]] Hh Ho. simpl.
    destruct (Tables.process_entries entries) as [out|] eqn:E;
      [|reflexivity].
    exfalso. destruct (tables_parts _ _ E) as [es [idx [Hb Ha]]].
    destruct (In_nth_error _ _ Hin) as [p Hp].
    destruct (process_spec _ _ (TablesEntries.tab_write_again (map fst idx))
                _ _ _ _ Hb Ha) as [_ P].
    specialize (P p _ Hp).
    assert (Ex : Tables.extract_code fields = Some (JStr c)).
    { unfold Tables.extract_code. rewrite Hn. simpl. now rewrite Nc. }
    simpl in P. rewrite Ex, Nc in P. destruct P as [e' [W _]].
    cbn [Tables.write_hierarchy] in W. rewrite dict_get_set in W.
    change (String.eqb "hierarchy" "bfCode") with false in W.
    cbv iota in W. rewrite Hh in W.
    destruct v; try discriminate. now apply (Ho fields0).
  - intros Hn Hid Hs. simpl.
    destruct (Tables.process_entries entries) as [out|] eqn:E;
      [|reflexivity].
    exfalso. destruct (tables_parts _ _ E) as [es [idx [Hb _]]].
    destruct (build_from_extracts _ _ _ _ _ Hb fields Hin) as [code [Ex _]].
    unfold Tables.extract_code in Ex. rewrite Hn, Hid in Ex. simpl in Ex.
    destruct v; try discriminate. now apply (Hs s).
Qed.

Lemma process_file_raises_on_one_bad_entry_witness :
  Schedules.process_file
    (JArr [JObj [("id", JStr "Volume1-026")]; JObj [("id", JNum 7)]])
  = Uncaught
  /\ Tables.process_file
       (JArr [JObj [("notation", JStr "-09"); ("hierarchy", JArr [])]])
     = Uncaught
  /\ Tables.process_file (JArr [JObj [("id", JNull)]]) = Uncaught.
Proof.
  split; [|split].
  - apply (proj1 (process_file_raises_on_one_bad_entry
                    [JObj [("id", JStr "Volume1-026")]; JObj [("id", JNum 7)]]
                    [("id", JNum 7)] (JNum 7) (or_intror (or_introl eq_refl))));
      [reflexivity | reflexivity | discriminate].
  - apply (proj1 (proj2 (process_file_raises_on_one_bad_entry
             [JObj [("notation", JStr "-09"); ("hierarchy", JArr [])]]
             [("notation", JStr "-09"); ("hierarchy", JArr [])] (JArr [])
             (or_introl eq_refl))));
      [exists "-09"; split; reflexivity | reflexivity | discriminate].
  - apply (proj2 (proj2 (process_file_raises_on_one_bad_entry
             [JObj [("id", JNull)]] [("id", JNull)] JNull
             (or_introl eq_refl))));
      [reflexivity | reflexivity | discriminate].
Defined.

(* ===================================================================== *)
(** ** The hierarchy depends on the set of codes only *)
(* ===================================================================== *)

Module TablesSets.
Import Tables.

Lemma tab_compute_broader_ext S1 S2 code :
  (forall x, In x S1 <-> In x S2) ->
  compute_broader code S1 = compute_broader code S2.
Proof.
  intros H. unfold compute_broader.
  destruct (str_in "--" code).
  - destruct (split_range code) as [[l r]|]; [|reflexivity].
    destruct (nonempty l); [apply first_in_ext, H | reflexivity].
  - destruct (String.length code <=? 1)%nat;
      [reflexivity | apply first_in_ext, H].
Qed.

Lemma tab_range_parent_ext S1 S2 code :
  (forall x, In x S1 <-> In x S2) ->
  range_parent code S1 = range_parent code S2.
Proof.
  intros H. unfold range_parent.
  destruct (negb (str_in "--" code)); [reflexivity|].
  destruct (split_range code) as [[l r]|]; [|reflexivity].
  apply first_in_ext, H.
Qed.

Lemma tab_expand_range_children_ext S1 S2 rc y :
  (forall x, In x S1 <-> In x S2) ->
  (In y (expand_range_children rc S1) <-> In y (expand_range_children rc S2)).
Proof.
  intros H. unfold expand_range_children.
  destruct (split_range rc) as [[l r]|]; [|reflexivity].
  destruct (py_int (lstrip_dash l)) as [L|]; [|reflexivity].
  destruct (py_int (lstrip_dash r)) as [R|]; [|reflexivity].
  cbv zeta.
  assert (G : forall pts,
    In y (fold_left
            (fun res sc =>
               if str_in "--" sc then res
               else if negb (isdigit (lstrip_dash sc)) then res
               else match py_int (lstrip_dash sc) with
                    | Some v => if in_span L v R then set_add sc res else res
                    | None => res
                    end) pts [])
    <-> In y pts
        /\ (negb (str_in "--" y) && isdigit (lstrip_dash y)
            && match py_int (lstrip_dash y) with
               | Some v => in_span L v R
               | None => false
               end) = true).
  { intros pts.
    rewrite (fold_left_ext _
      (fun res sc =>
         if negb (str_in "--" sc) && isdigit (lstrip_dash sc)
            && match py_int (lstrip_dash sc) with
               | Some v => in_span L v R
               | None => false
               end
         then set_add sc res else res)).
    - rewrite fold_add_filter. split; [intros [[] | H']; exact H' | auto].
    - intros res sc. destruct (str_in "--" sc); [reflexivity|].
      destruct (isdigit (lstrip_dash sc)); [|reflexivity].
      cbn [negb andb]. destruct (py_int (lstrip_dash sc)); reflexivity. }
  rewrite !G, H. reflexivity.
Qed.

Section SameCodes.
Variables codes1 codes2 : list string.
Hypothesis same : forall c, In c codes1 <-> In c codes2.

Lemma tab_simple_of_same x :
  In x (simple_of codes1) <-> In x (simple_of codes2).
Proof. now rewrite !TablesFacts.tab_In_simple_of, same. Qed.

Lemma tab_ranges_of_same x :
  In x (ranges_of codes1) <-> In x (ranges_of codes2).
Proof. now rewrite !TablesFacts.tab_In_ranges_of, same. Qed.

Lemma tab_child_of_same k y : child_of codes1 k y <-> child_of codes2 k y.
Proof.
  unfold child_of.
  rewrite (tab_range_parent_ext _ _ y tab_simple_of_same).
  rewrite (tab_expand_range_children_ext _ _ k y tab_simple_of_same).
  rewrite !tab_ranges_of_same, same. reflexivity.
Qed.

Lemma tab_narrower_of_same c : narrower_of codes1 c = narrower_of codes2 c.
Proof.
  apply strict_sorted_unique; try apply tables_narrower_sorted.
  intros z. unfold narrower_of.
  rewrite !In_sorted, !TablesFacts.tab_build_child_map_spec.
  now rewrite tab_child_of_same, same.
Qed.
End SameCodes.

End TablesSets.

Lemma schedules_broader_of_absent codes c :
  ~ In c codes -> Schedules.broader_of codes c = None.
Proof.
  intros H. destruct (Schedules.broader_of codes c) as [p|] eqn:E;
    [|reflexivity].
  apply schedules_broader_of_some in E. tauto.
Qed.

Lemma tables_broader_of_absent codes c :
  ~ In c codes -> Tables.broader_of codes c = None.
Proof.
  intros H. destruct (Tables.broader_of codes c) as [p|] eqn:E;
    [|reflexivity].
  apply tables_broader_of_some in E. tauto.
Qed.

(** In both scripts the broader and the narrower of every code depend on
    which codes the file holds, not on the order in which they first appear
    nor on how often. *)
Theorem hierarchy_depends_on_the_set_of_codes
  (codes1 codes2 : list string) (c : string) :
  (forall x, In x codes1 <-> In x codes2) ->
  Schedules.narrower_of codes1 c = Schedules.narrower_of codes2 c
  /\ Schedules.broader_of codes1 c = Schedules.broader_of codes2 c
  /\ Tables.narrower_of codes1 c = Tables.narrower_of codes2 c
  /\ Tables.broader_of codes1 c = Tables.broader_of codes2 c.
Proof.
  intros H.
  split; [now apply SchedulesSets.narrower_of_same|].
  split.
  { destruct (in_dec string_dec c codes1) as [Hc | Hc].
    - now apply SchedulesSets.broader_of_same.
    - rewrite !schedules_broader_of_absent; [reflexivity | | exact Hc].
      now rewrite <- H. }
  split; [now apply TablesSets.tab_narrower_of_same|].
  destruct (in_dec string_dec c codes1) as [Hc | Hc].
  - rewrite !tables_broader_of; [|now apply H | exact Hc].
    apply TablesSets.tab_compute_broader_ext.
    now apply TablesSets.tab_simple_of_same.
  - rewrite !tables_broader_of_absent; [reflexivity | | exact Hc].
    now rewrite <- H.
Qed.

Lemma hierarchy_depends_on_the_set_of_codes_witness :
  Schedules.narrower_of ["600.1"; "600"; "600.2"; "600"] "600"
  = Schedules.narrower_of ["600"; "600.1"; "600.2"] "600"
  /\ Schedules.broader_of ["600.1"; "600"; "600.2"; "600"] "600"
     = Schedules.broader_of ["600"; "600.1"; "600.2"] "600"
  /\ Tables.narrower_of ["600.1"; "600"; "600.2"; "600"] "600"
     = Tables.narrower_of ["600"; "600.1"; "600.2"] "600"
  /\ Tables.broader_of ["600.1"; "600"; "600.2"; "600"] "600"
     = Tables.broader_of ["600"; "600.1"; "600.2"] "600".
Proof.
  apply (hierarchy_depends_on_the_set_of_codes
           ["600.1"; "600"; "600.2"; "600"] ["600"; "600.1"; "600.2"] "600").
  intros x. simpl. tauto.
Defined.

(* ===================================================================== *)
(** ** Code extraction and [numeric_value_for] *)
(* ===================================================================== *)

Lemma skip_digits_app n rest :
  all_digits n = true ->
  Schedules.skip_digits (n ++ String "-" rest) = String "-" rest.
Proof.
  induction n as [|a n IH]; simpl; [reflexivity|].
  intros H. apply andb_true_iff in H. destruct H as [H1 H2].
  rewrite H1. now apply IH.
Qed.

Lemma line_head_whole c :
  str_in (String "010" "") c = false -> Schedules.line_head c = c.
Proof.
  induction c as [|a c IH]; [reflexivity|].
  rewrite str_in_char. intros H. apply orb_false_iff in H.
  destruct H as [H1 H2]. cbn [Schedules.line_head].
  now rewrite H1, IH.
Qed.

Lemma str_drop_all c : str_drop (String.length c) c = "".
Proof. induction c as [|a c IH]; simpl; auto. Qed.

Lemma id_code_match_volume n c :
  isdigit n = true -> nonempty c = true ->
  str_in (String "010" "") c = false ->
  Schedules.id_code_match ("Volume" ++ n ++ "-" ++ c) = Some c.
Proof.
  intros Hn Hc Hl. unfold Schedules.id_code_match.
  change (Schedules.match_literal "volume" ("Volume" ++ n ++ "-" ++ c))
    with (Some (n ++ String "-" c)).
  destruct n as [|a n]; [discriminate|].
  simpl isdigit in Hn. assert (Ha := Hn).
  apply andb_true_iff in Ha. destruct Ha as [Ha _].
  change (String a n ++ String "-" c) with (String a (n ++ String "-" c)).
  cbv iota beta. rewrite Ha.
  change (String a (n ++ String "-" c)) with (String a n ++ String "-" c).
  rewrite (skip_digits_app (String a n) c Hn). cbv iota beta zeta.
  rewrite (line_head_whole c Hl), str_drop_all, Hc. reflexivity.
Qed.

(** The code of a schedule entry comes from its id whenever the id is
    [Volume], digits, a dash and a non-empty one-line text: the code is
    that text, dashes included, whatever the [notation] of the entry. *)
Theorem schedules_extract_code_reads_the_id
  (entry : dict) (n c : string) :
  dict_get "id" entry = Some (JStr ("Volume" ++ n ++ "-" ++ c)) ->
  isdigit n = true -> nonempty c = true ->
  str_in (String "010" "") c = false ->
  Schedules.extract_code entry = Some (JStr c).
Proof.
  intros Hid Hn Hc Hl. unfold Schedules.extract_code, get_or.
  rewrite Hid.
  change (truthy (JStr ("Volume" ++ n ++ "-" ++ c))) with true.
  cbv iota. now rewrite (id_code_match_volume n c Hn Hc Hl).
Qed.

Lemma schedules_extract_code_reads_the_id_witness :
  Schedules.extract_code
    [("notation", JStr "999"); ("id", JStr ("Volume" ++ "12" ++ "-" ++ "004-006"))]
  = Some (JStr "004-006").
Proof.
  apply (schedules_extract_code_reads_the_id _ "12" "004-006");
    reflexivity.
Defined.

(** The code of a table entry is its [notation] when that is a non-empty
    string, whatever the id; without a usable [notation], an id made of
    [T], a text without a colon, a colon and the code gives that code. *)
Theorem tables_extract_code_prefers_notation
  (entry : dict) (s t c : string) :
  (dict_get "notation" entry = Some (JStr s) -> nonempty s = true ->
   Tables.extract_code entry = Some (JStr s))
  /\ ((forall v, dict_get "notation" entry = Some v -> truthy v = false) ->
      dict_get "id" entry = Some (JStr ("T" ++ t ++ ":" ++ c)) ->
      str_in ":" t = false ->
      Tables.extract_code entry = Some (JStr c)).
Proof.
  split.
  - intros Hn Hs. unfold Tables.extract_code. rewrite Hn. simpl.
    now rewrite Hs.
  - intros Hn Hid Ht. unfold Tables.extract_code. cbv zeta.
    assert (F : truthy match dict_get "notation" entry with
                       | Some v => v
                       | None => JNull
                       end = false).
    { destruct (dict_get "notation" entry) as [v|]; [now apply Hn | auto]. }
    rewrite F, Hid.
    change ("T" ++ t ++ ":" ++ c) with (String "T" t ++ String ":" c).
    assert (Hs : str_in ":" (String "T" t) = false).
    { rewrite str_in_char, Ht. reflexivity. }
    assert (P : startswith (String "T" t ++ String ":" c) "T" = true)
      by apply (prefix_app "T" (t ++ String ":" c)).
    rewrite (split1_app ":" _ c Hs), str_in_char_app, P.
    reflexivity.
Qed.

Lemma tables_extract_code_prefers_notation_witness :
  Tables.extract_code [("id", JStr "T1:-05"); ("notation", JStr "-04")]
  = Some (JStr "-04")
  /\ Tables.extract_code
       [("notation", JStr ""); ("id", JStr ("T" ++ "1" ++ ":" ++ "-05:1"))]
     = Some (JStr "-05:1").
Proof.
  split.
  - apply (proj1 (tables_extract_code_prefers_notation
                    [("id", JStr "T1:-05"); ("notation", JStr "-04")]
                    "-04" "" "")); reflexivity.
  - apply (proj2 (tables_extract_code_prefers_notation
                    [("notation", JStr "");
                     ("id", JStr ("T" ++ "1" ++ ":" ++ "-05:1"))]
                    "" "1" "-05:1")).
    + intros v Hv. simpl in Hv. inversion Hv. reflexivity.
    + reflexivity.
    + reflexivity.
Defined.

Lemma all_digits_remove_zeros t :
  all_digits (Schedules.remove_zeros t) = true -> all_digits t = true.
Proof.
  induction t as [|a t IH]; [reflexivity|].
  cbn [Schedules.remove_zeros all_digits].
  destruct (Ascii.eqb a "0") eqn:E.
  - apply Ascii.eqb_eq in E. subst a. intros H. now rewrite (IH H).
  - cbn [all_digits]. intros H. apply andb_true_iff in H.
    destruct H as [H1 H2]. now rewrite H1, (IH H2).
Qed.

Lemma isdigit_remove_zeros t :
  isdigit (Schedules.remove_zeros t) = true -> isdigit t = true.
Proof.
  intros H. assert (A := all_digits_isdigit _ H).
  apply all_digits_remove_zeros in A.
  destruct t; [discriminate H | exact A].
Qed.

Lemma numeric_value_for_dotted p t :
  str_in "-" (p ++ String "." t) = false -> str_in "." t = false ->
  Schedules.numeric_value_for (p ++ String "." t)
  = if isdigit t then Some (p, t) else None.
Proof.
  intros Hd Ht. unfold Schedules.numeric_value_for.
  rewrite Hd, str_in_char_app. simpl negb. cbv iota zeta.
  rewrite split_char_app, (split_char_none "." t Ht).
  rewrite removelast_last, last_last, join_split.
  destruct (isdigit t) eqn:E.
  - now rewrite andb_false_r.
  - destruct (isdigit (Schedules.remove_zeros t)) eqn:E2; [|reflexivity].
    apply isdigit_remove_zeros in E2. congruence.
Qed.

(** [numeric_value_for] on an ASCII code without a dash: a code without a
    dot is its own prefix and tail; a dotted code yields a pair exactly when
    its last segment consists of the digits 0 to 9, and the pair is the
    code cut at its last dot (the test on the tail without its zeros
    changes nothing).  (Outside ASCII [str.isdigit] holds of more
    characters than [isdigit] here, so the statement is made for an ASCII
    code.) *)
Theorem schedules_numeric_value_for_cuts_at_the_last_dot
  (code p t : string) :
  str_in "-" code = false -> ascii_only code = true ->
  (str_in "." code = false ->
   Schedules.numeric_value_for code = Some (code, code))
  /\ (str_in "." code = true ->
      (Schedules.numeric_value_for code = Some (p, t) <->
       code = p ++ "." ++ t /\ isdigit t = true)).
Proof.
  intros Hd _. split.
  - intros Hn. unfold Schedules.numeric_value_for. now rewrite Hd, Hn.
  - intros Hdot.
    destruct (rsplit1_dotted "." code Hdot) as [p0 [t0 E0]].
    destruct (rsplit1_two _ _ _ _ E0) as [Ec Ht0].
    rewrite Ec in Hd. rewrite Ec at 1.
    rewrite (numeric_value_for_dotted p0 t0 Hd Ht0). split.
    + destruct (isdigit t0) eqn:E; [|discriminate].
      intros H. inversion H; subst. auto.
    + intros [E Hi].
      assert (Ht : str_in "." t = false).
      { apply all_digits_no_char; [reflexivity|].
        now apply all_digits_isdigit. }
      assert (E1 : rsplit1 "." code = [p; t]).
      { rewrite E. now apply rsplit1_last. }
      rewrite E0 in E1. inversion E1; subst. now rewrite Hi.
Qed.

Lemma schedules_numeric_value_for_cuts_at_the_last_dot_witness :
  Schedules.numeric_value_for "600" = Some ("600", "600")
  /\ (Schedules.numeric_value_for "026.1.000" = Some ("026.1", "000") <->
      "026.1.000" = "026.1" ++ "." ++ "000" /\ isdigit "000" = true).
Proof.
  split.
  - apply (proj1 (schedules_numeric_value_for_cuts_at_the_last_dot
                    "600" "" "" eq_refl eq_refl)). reflexivity.
  - apply (proj2 (schedules_numeric_value_for_cuts_at_the_last_dot
                    "026.1.000" "026.1" "000" eq_refl eq_refl)). reflexivity.
Defined.

(* ===================================================================== *)
(** ** Splitting a table range at its doubled dash *)
(* ===================================================================== *)

Lemma split_dd_step x s :
  split_dd (String x s)
  = if Ascii.eqb x "-"
       && match s with String y _ => Ascii.eqb y "-" | EmptyString => false end
    then EmptyString :: split_dd (str_drop 1 s)
    else match split_dd s with
         | y :: ys => String x y :: ys
         | [] => [String x EmptyString]
         end.
Proof.
  destruct x as [b0 b1 b2 b3 b4 b5 b6 b7].
  destruct b0, b1, b2, b3, b4, b5, b6, b7; try reflexivity.
  destruct s as [|y s]; [reflexivity|].
  destruct y as [c0 c1 c2 c3 c4 c5 c6 c7].
  destruct c0, c1, c2, c3, c4, c5, c6, c7; reflexivity.
Qed.

Lemma prefix_one c s :
  String.prefix (String c "") s
  = match s with String y _ => Ascii.eqb y c | EmptyString => false end.
Proof.
  destruct s as [|y s]; [reflexivity|]. simpl.
  destruct (ascii_dec c y) as [->|N].
  - rewrite Ascii.eqb_refl. now destruct s.
  - symmetry. apply Ascii.eqb_neq. congruence.
Qed.

Lemma prefix_cons c p x s :
  String.prefix (String c p) (String x s) = Ascii.eqb x c && String.prefix p s.
Proof.
  simpl. destruct (ascii_dec c x) as [->|N].
  - now rewrite Ascii.eqb_refl.
  - assert (E : Ascii.eqb x c = false) by (apply Ascii.eqb_neq; congruence).
    now rewrite E.
Qed.

Lemma str_in_dd_step x s :
  str_in "--" (String x s)
  = (Ascii.eqb x "-"
     && match s with String y _ => Ascii.eqb y "-" | EmptyString => false end)
    || str_in "--" s.
Proof. now rewrite str_in_cons, prefix_cons, prefix_one. Qed.

Lemma split_dd_cons s : exists x xs, split_dd s = x :: xs.
Proof.
  destruct s as [|a s]; [simpl; eauto|]. rewrite split_dd_step.
  destruct (_ && _); [eauto|]. destruct (split_dd s); eauto.
Qed.

Lemma split_dd_none s : str_in "--" s = false -> split_dd s = [s].
Proof.
  induction s as [|x s IH]; [reflexivity|].
  rewrite str_in_dd_step, split_dd_step. intros H.
  apply orb_false_iff in H. destruct H as [H1 H2].
  now rewrite H1, (IH H2).
Qed.

Lemma split_dd_parts : forall n s,
  String.length s <= n ->
  (forall b, split_dd s = [b] -> b = s /\ str_in "--" s = false)
  /\ (forall a b, split_dd s = [a; b] ->
        s = a ++ "--" ++ b
        /\ str_in "--" a = false /\ str_in "--" b = false).
Proof.
  induction n as [|n IH]; intros s L.
  - destruct s; [|simpl in L; lia]. split.
    + intros b H. inversion H. auto.
    + intros a b H. discriminate.
  - destruct s as [|x s].
    { split; [intros b H; inversion H; auto | intros a b H; discriminate]. }
    simpl in L. rewrite split_dd_step, str_in_dd_step.
    destruct (Ascii.eqb x "-"
              && match s with
                 | String y _ => Ascii.eqb y "-"
                 | EmptyString => false
                 end) eqn:Hh.
    + apply andb_true_iff in Hh. destruct Hh as [Hx Hy].
      apply Ascii.eqb_eq in Hx. subst x.
      destruct s as [|y s]; [discriminate|].
      apply Ascii.eqb_eq in Hy. subst y. simpl str_drop.
      destruct (IH s ltac:(simpl in L; lia)) as [I1 _]. split.
      * intros b H. destruct (split_dd_cons s) as [z [zs E]].
        rewrite E in H. discriminate.
      * intros a b H. injection H as Ha Hb. subst a.
        destruct (I1 b Hb) as [-> Hs]. auto.
    + destruct (IH s ltac:(lia)) as [I1 I2].
      destruct (split_dd_cons s) as [z [zs E]]. rewrite E.
      assert (Hz : forall t, s = z ++ t ->
                match z with
                | String y _ => Ascii.eqb y "-"
                | EmptyString => false
                end = true ->
                match s with
                | String y _ => Ascii.eqb y "-"
                | EmptyString => false
                end = true).
      { intros t -> H. destruct z; [discriminate | exact H]. }
      split.
      * intros b H. inversion H; subst. rewrite E in I1.
        destruct (I1 z eq_refl) as [-> Hs]. simpl. now rewrite Hs.
      * intros a b H. inversion H; subst. rewrite E in I2.
        destruct (I2 z b eq_refl) as [Es [Ha Hb]].
        split; [now rewrite Es|]. split; [|exact Hb].
        rewrite str_in_dd_step, Ha, orb_false_r.
        destruct (Ascii.eqb x "-") eqn:Ex; [|reflexivity]. simpl in *.
        destruct (match z with
                  | String y _ => Ascii.eqb y "-"
                  | EmptyString => false
                  end) eqn:Ez; [|reflexivity].
        rewrite (Hz _ Es eq_refl) in Hh. discriminate.
Qed.

Lemma split_dd_build l r :
  str_in "--" (l ++ "-") = false -> str_in "--" r = false ->
  split_dd (l ++ "--" ++ r) = [l; r].
Proof.
  intros Hl Hr. induction l as [|x l IH].
  - change ("" ++ "--" ++ r) with (String "-" (String "-" r)).
    rewrite split_dd_step. simpl. now rewrite (split_dd_none r Hr).
  - change (String x l ++ "--" ++ r) with (String x (l ++ "--" ++ r)).
    change (String x l ++ "-") with (String x (l ++ "-")) in Hl.
    rewrite str_in_dd_step in Hl. apply orb_false_iff in Hl.
    destruct Hl as [H1 H2]. rewrite split_dd_step, (IH H2).
    assert (E : match l ++ "--" ++ r with
                | String y _ => Ascii.eqb y "-"
                | EmptyString => false
                end
                = match l ++ "-" with
                  | String y _ => Ascii.eqb y "-"
                  | EmptyString => false
                  end) by (destruct l; reflexivity).
    now rewrite E, H1.
Qed.

Lemma str_in_dd_app a b : str_in "--" (a ++ "--" ++ b) = true.
Proof.
  induction a as [|x a IH].
  - change ("" ++ "--" ++ b) with (String "-" (String "-" b)).
    now rewrite str_in_dd_step.
  - change (String x a ++ "--" ++ b) with (String x (a ++ "--" ++ b)).
    rewrite str_in_dd_step, IH. apply orb_true_r.
Qed.

Lemma tables_split_range_parts code l r :
  Tables.split_range code = Some (l, r) ->
  code = l ++ "--" ++ r
  /\ str_in "--" l = false /\ str_in "--" r = false.
Proof.
  unfold Tables.split_range.
  destruct (negb (str_in "--" code)); [discriminate|].
  destruct (split_dd code) as [|a [|b [|z zs]]] eqn:E; try discriminate.
  intros H. inversion H; subst.
  apply (proj2 (split_dd_parts _ code (le_n _)) _ _ E).
Qed.

Lemma tables_split_range_build l r :
  str_in "--" (l ++ "-") = false -> str_in "--" r = false ->
  Tables.split_range (l ++ "--" ++ r) = Some (l, r).
Proof.
  intros Hl Hr. unfold Tables.split_range.
  now rewrite str_in_dd_app, (split_dd_build l r Hl Hr).
Qed.

(** Round trip of [split_range] on table codes: what splits is its two
    bounds, neither holding a doubled dash, joined by a doubled dash; and
    a left bound that holds no doubled dash and does not end with a dash,
    joined by a doubled dash to a right bound without a doubled dash,
    splits back into these two bounds. *)
Theorem tables_split_range_round_trip (code l r : string) :
  (Tables.split_range code = Some (l, r) ->
   code = l ++ "--" ++ r
   /\ str_in "--" l = false /\ str_in "--" r = false)
  /\ (str_in "--" (l ++ "-") = false -> str_in "--" r = false ->
      Tables.split_range (l ++ "--" ++ r) = Some (l, r)).
Proof.
  split.
  - apply tables_split_range_parts.
  - apply tables_split_range_build.
Qed.

Lemma tables_split_range_round_trip_witness :
  ("-001--003" = "-001" ++ "--" ++ "003"
   /\ str_in "--" "-001" = false /\ str_in "--" "003" = false)
  /\ Tables.split_range ("-04" ++ "--" ++ "-06") = Some ("-04", "-06").
Proof.
  split.
  - apply (proj1 (tables_split_range_round_trip "-001--003" "-001" "003")).
    reflexivity.
  - apply (proj2 (tables_split_range_round_trip "" "-04" "-06"));
      reflexivity.
Defined.

(* ===================================================================== *)
(** ** Table ranges, and the shape of the code index *)
(* ===================================================================== *)

Lemma tables_expand_cases rc l r pts :
  Tables.split_range rc = Some (l, r) ->
  match py_int (lstrip_dash l), py_int (lstrip_dash r) with
  | Some L, Some R =>
      forall y,
        In y (Tables.expand_range_children rc pts) <->
        In y pts /\ str_in "--" y = false
        /\ isdigit (lstrip_dash y) = true
        /\ exists v, py_int (lstrip_dash y) = Some v /\ (L <= v <= R)%Z
  | _, _ => Tables.expand_range_children rc pts = []
  end.
Proof.
  intros Hs. unfold Tables.expand_range_children. rewrite Hs. cbv zeta.
  destruct (py_int (lstrip_dash l)) as [L|]; [|reflexivity].
  destruct (py_int (lstrip_dash r)) as [R|]; [|reflexivity].
  intros y.
  rewrite (fold_left_ext _
    (fun res sc =>
       if negb (str_in "--" sc) && isdigit (lstrip_dash sc)
          && match py_int (lstrip_dash sc) with
             | Some v => Tables.in_span L v R
             | None => false
             end
       then set_add sc res else res)).
  - rewrite fold_add_filter, !andb_true_iff, negb_true_iff.
    unfold Tables.in_span. split.
    + intros [[] | [Hy [[H1 H2] H3]]].
      destruct (py_int (lstrip_dash y)) as [v|]; [|discriminate].
      apply andb_true_iff in H3. rewrite !Z.leb_le in H3. eauto 10.
    + intros [Hy [H1 [H2 [v [Hv Hb]]]]]. right. rewrite Hv.
      split; [exact Hy|]. split; [auto|].
      apply andb_true_iff. rewrite !Z.leb_le. exact Hb.
  - intros res sc. destruct (str_in "--" sc); [reflexivity|].
    destruct (isdigit (lstrip_dash sc)); [|reflexivity].
    cbn [negb andb]. destruct (py_int (lstrip_dash sc)); reflexivity.
Qed.

(** A table range [l--r] with ASCII bounds: when both bounds, read without
    their leading dashes, are integers, the range covers, among the ASCII
    codes given, exactly the Point codes that are digits 0 to 9 after their
    leading dashes and whose value lies between the values of the two
    bounds, both included; when a bound is not an integer the range covers
    nothing.  (Outside ASCII [int] and [str.isdigit] accept more than
    [py_int] and [isdigit] here, so the statement is made for ASCII
    bounds and an ASCII code.) *)
Theorem tables_range_coverage
  (l r : string) (pts : list string) :
  str_in "--" (l ++ "-") = false -> str_in "--" r = false ->
  ascii_only l = true -> ascii_only r = true ->
  match py_int (lstrip_dash l), py_int (lstrip_dash r) with
  | Some L, Some R =>
      forall y, ascii_only y = true ->
        (In y (Tables.expand_range_children (l ++ "--" ++ r) pts) <->
         In y pts /\ str_in "--" y = false
         /\ isdigit (lstrip_dash y) = true
         /\ exists v, py_int (lstrip_dash y) = Some v /\ (L <= v <= R)%Z)
  | _, _ => Tables.expand_range_children (l ++ "--" ++ r) pts = []
  end.
Proof.
  intros Hl Hr _ _.
  pose proof (tables_expand_cases (l ++ "--" ++ r) l r pts
                (tables_split_range_build l r Hl Hr)) as H.
  destruct (py_int (lstrip_dash l)) as [L|]; [|exact H].
  destruct (py_int (lstrip_dash r)) as [R|]; [|exact H].
  intros y _. apply H.
Qed.

Lemma tables_range_coverage_witness :
  (forall y, ascii_only y = true ->
     (In y (Tables.expand_range_children ("-001" ++ "--" ++ "-003")
              ["-001"; "-02"; "-0021"; "-09"]) <->
      In y ["-001"; "-02"; "-0021"; "-09"] /\ str_in "--" y = false
      /\ isdigit (lstrip_dash y) = true
      /\ exists v, py_int (lstrip_dash y) = Some v /\ (1 <= v <= 3)%Z))
  /\ Tables.expand_range_children ("-a" ++ "--" ++ "-003") ["-001"] = [].
Proof.
  split.
  - exact (tables_range_coverage "-001" "-003"
             ["-001"; "-02"; "-0021"; "-09"]
             eq_refl eq_refl eq_refl eq_refl).
  - exact (tables_range_coverage "-a" "-003" ["-001"]
             eq_refl eq_refl eq_refl eq_refl).
Defined.

(** A table range has the broader of its left bound, and is attached under
    it: [compute_broader] and [range_parent] of the range both return what
    [compute_broader] returns for the left bound taken as a Point code. *)
Theorem tables_range_has_the_broader_of_its_left_bound
  (code l r : string) (pts : list string) :
  Tables.split_range code = Some (l, r) ->
  Tables.compute_broader code pts = Tables.compute_broader l pts
  /\ Tables.range_parent code pts = Tables.compute_broader l pts.
Proof.
  intros Hs.
  destruct (tables_split_range_parts code l r Hs) as [Ec [Hl _]].
  assert (Hd : str_in "--" code = true) by (rewrite Ec; apply str_in_dd_app).
  assert (G : Tables.compute_broader l pts
              = first_in (Tables.truncations l) pts).
  { unfold Tables.compute_broader. rewrite Hl.
    destruct (String.length l <=? 1)%nat eqn:L; [|reflexivity].
    apply Nat.leb_le in L. unfold Tables.truncations.
    replace (String.length l - 1) with 0 by lia. reflexivity. }
  split.
  - rewrite G. unfold Tables.compute_broader. rewrite Hd, Hs.
    destruct l; reflexivity.
  - rewrite G. unfold Tables.range_parent. now rewrite Hd, Hs.
Qed.

Lemma tables_range_has_the_broader_of_its_left_bound_witness :
  Tables.compute_broader "-001--003" ["-0"; "-00"; "-001"]
  = Tables.compute_broader "-001" ["-0"; "-00"; "-001"]
  /\ Tables.range_parent "-001--003" ["-0"; "-00"; "-001"]
     = Tables.compute_broader "-001" ["-0"; "-00"; "-001"].
Proof.
  apply (tables_range_has_the_broader_of_its_left_bound
           "-001--003" "-001" "003").
  reflexivity.
Defined.

Lemma In_dict_alter {V} (f : V -> V) c (d : list (string * V)) k v :
  In (k, v) (dict_alter f c d) ->
  In (k, v) d \/ (k = c /\ exists v0, In (k, v0) d /\ v = f v0).
Proof.
  induction d as [|[k0 v0] d IH]; simpl; [tauto|].
  destruct (String.eqb c k0) eqn:E; simpl.
  - apply String.eqb_eq in E. subst k0.
    intros [H | H]; [|auto]. inversion H; subst. right. eauto.
  - intros [H | H]; [auto|]. destruct (IH H) as [H' | [-> [w [Hw ->]]]];
      [auto|]. right. eauto.
Qed.

Lemma sorted_snoc (l : list nat) i :
  StronglySorted lt l -> Forall (fun p => p < i) l ->
  StronglySorted lt (l ++ [i]).
Proof.
  induction l as [|p l IH]; simpl; intros C D.
  - repeat constructor.
  - inversion C; inversion D; subst. constructor; [auto|].
    apply Forall_app. split; [assumption|]. repeat constructor. assumption.
Qed.

(** What holds of every list of the index while the first [i] entries have
    been read. *)
Lemma index_append_shape (idx : index) c i :
  nonempty c = true ->
  (forall k ents, In (k, ents) idx ->
     nonempty k = true /\ ents <> []
     /\ StronglySorted lt ents /\ Forall (fun p => p < i) ents) ->
  forall k ents, In (k, ents) (index_append c i idx) ->
    nonempty k = true /\ ents <> []
    /\ StronglySorted lt ents /\ Forall (fun p => p < S i) ents.
Proof.
  intros Hc Inv k ents H.
  assert (Old : forall k ents, In (k, ents) idx ->
            nonempty k = true /\ ents <> []
            /\ StronglySorted lt ents /\ Forall (fun p => p < S i) ents).
  { intros k0 e0 H0. destruct (Inv k0 e0 H0) as [A [B [C D]]].
    repeat split; auto. eapply Forall_impl; [|exact D].
    intros p Hp. simpl in Hp. lia. }
  unfold index_append in H. destruct (dict_has c idx).
  - apply In_dict_alter in H.
    destruct H as [H | [-> [e0 [H0 ->]]]]; [now apply Old|].
    destruct (Inv c e0 H0) as [A [B [C D]]].
    split; [exact A|]. split; [now destruct e0|]. split.
    + apply sorted_snoc; assumption.
    + apply Forall_app. split.
      * eapply Forall_impl; [|exact D]. intros p Hp. simpl in Hp. lia.
      * repeat constructor.
  - revert H. apply (In_dict_set (k, ents) c [i] idx
      (fun kv => nonempty (fst kv) = true /\ snd kv <> []
                 /\ StronglySorted lt (snd kv)
                 /\ Forall (fun p => p < S i) (snd kv))).
    + intros [k0 e0] H0. now apply Old.
    + simpl. repeat split; auto; try discriminate; repeat constructor.
Qed.

Section IndexShape.
Variable extract_code : dict -> option json.

Lemma build_from_shape entries : forall i idx es idx',
  build_from extract_code i entries idx = Some (es, idx') ->
  (forall k ents, In (k, ents) idx ->
     nonempty k = true /\ ents <> []
     /\ StronglySorted lt ents /\ Forall (fun p => p < i) ents) ->
  forall k ents, In (k, ents) idx' ->
    nonempty k = true /\ ents <> []
    /\ StronglySorted lt ents
    /\ Forall (fun p => p < i + List.length entries) ents.
Proof.
  induction entries as [|e entries IH]; intros i idx es idx' H Inv.
  - simpl in H. inversion H; subst. intros k ents Hin.
    destruct (Inv k ents Hin) as [A [B [C D]]]. repeat split; auto.
    eapply Forall_impl; [|exact D]. intros p Hp. simpl in *. lia.
  - assert (Next : forall idx1 e1,
      keep e1 (build_from extract_code (S i) entries idx1) = Some (es, idx') ->
      (forall k ents, In (k, ents) idx1 ->
         nonempty k = true /\ ents <> []
         /\ StronglySorted lt ents /\ Forall (fun p => p < S i) ents) ->
      forall k ents, In (k, ents) idx' ->
        nonempty k = true /\ ents <> []
        /\ StronglySorted lt ents
        /\ Forall (fun p => p < i + List.length (e :: entries)) ents).
    { intros idx1 e1 K Inv1 k ents Hin.
      destruct (build_from extract_code (S i) entries idx1)
        as [[es0 idx0]|] eqn:E; simpl in K; [|discriminate].
      inversion K; subst.
      destruct (IH _ _ _ _ E Inv1 k ents Hin) as [A [B [C D]]].
      repeat split; auto. eapply Forall_impl; [|exact D].
      intros p Hp. simpl in *. lia. }
    assert (Same : forall k ents, In (k, ents) idx ->
      nonempty k = true /\ ents <> []
      /\ StronglySorted lt ents /\ Forall (fun p => p < S i) ents).
    { intros k ents Hin. destruct (Inv k ents Hin) as [A [B [C D]]].
      repeat split; auto. eapply Forall_impl; [|exact D].
      intros p Hp. simpl in *. lia. }
    destruct e as [| | | | |fields]; try (apply (Next _ _ H Same)).
    cbn [build_from] in H.
    destruct (extract_code fields) as [code|]; [|discriminate].
    destruct (truthy code) eqn:Et; [|apply (Next _ _ H Same)].
    destruct code; try discriminate.
    apply (Next _ _ H). now apply index_append_shape.
Qed.
End IndexShape.

Section IndexOfStrings.
Variable extract_code : dict -> option json.

Lemma build_indices_shape entries :
  (forall fields, In (JObj fields) entries ->
     exists code, extract_code fields = Some code /\ string_or_falsy code) ->
  exists es idx,
    build_indices_with extract_code entries = Some (es, idx)
    /\ index_shape (List.length entries) idx
    /\ forall c p, owns idx c p <->
         exists e, nth_error entries p = Some e
                   /\ code_at extract_code e = Some c.
Proof.
  intros H.
  destruct (build_from_total extract_code entries 0 []) as [[es idx] Hb].
  { intros fields Hin. destruct (H fields Hin) as [code [E S]].
    exists code. split; [exact E|]. now apply string_or_falsy_cases. }
  exists es, idx. split; [exact Hb|].
  destruct (index_spec _ _ _ _ Hb) as [_ [Hnd O]].
  split; [|exact O]. split; [exact Hnd|].
  apply (build_from_shape _ _ _ _ _ _ Hb). intros k e [].
Qed.
End IndexOfStrings.

(** [build_indices] of both scripts, on a file in which the code extracted
    from every object is a string or a value that Python treats as false:
    the index is returned, its codes are distinct and not empty, and each
    code lists exactly the entries that have this code, at least one, in
    file order and without repetition. *)
Theorem build_indices_lists_each_code_in_file_order (entries : list json) :
  ((forall fields, In (JObj fields) entries ->
      exists code, Schedules.extract_code fields = Some code
                   /\ string_or_falsy code) ->
   exists es idx,
     Schedules.build_indices entries = Some (es, idx)
     /\ index_shape (List.length entries) idx
     /\ forall c p, owns idx c p <->
          exists e, nth_error entries p = Some e
                    /\ code_at Schedules.extract_code e = Some c)
  /\ ((forall fields, In (JObj fields) entries ->
         exists code, Tables.extract_code fields = Some code
                      /\ string_or_falsy code) ->
      exists es idx,
        Tables.build_indices entries = Some (es, idx)
        /\ index_shape (List.length entries) idx
        /\ forall c p, owns idx c p <->
             exists e, nth_error entries p = Some e
                       /\ code_at Tables.extract_code e = Some c).
Proof.
  split; intros H.
  - apply (build_indices_shape Schedules.extract_code entries H).
  - apply (build_indices_shape Tables.extract_code entries H).
Qed.

Lemma build_indices_lists_each_code_in_file_order_witness :
  (exists es idx,
     Schedules.build_indices
       [JObj [("id", JStr "Volume1-026")]; JObj [("title", JStr "x")];
        JObj [("notation", JStr "026")]] = Some (es, idx)
     /\ index_shape 3 idx
     /\ forall c p, owns idx c p <->
          exists e,
            nth_error
              [JObj [("id", JStr "Volume1-026")]; JObj [("title", JStr "x")];
               JObj [("notation", JStr "026")]] p = Some e
            /\ code_at Schedules.extract_code e = Some c)
  /\ (exists es idx,
        Tables.build_indices
          [JObj [("notation", JStr "-09")]; JObj [("id", JStr "T1:-09")]]
        = Some (es, idx)
        /\ index_shape 2 idx
        /\ forall c p, owns idx c p <->
             exists e,
               nth_error
                 [JObj [("notation", JStr "-09")];
                  JObj [("id", JStr "T1:-09")]] p = Some e
               /\ code_at Tables.extract_code e = Some c).
Proof.
  split.
  - apply (proj1 (build_indices_lists_each_code_in_file_order
             [JObj [("id", JStr "Volume1-026")]; JObj [("title", JStr "x")];
              JObj [("notation", JStr "026")]])).
    intros fields [E | [E | [E | []]]]; inversion E; subst;
      (eexists; split; [vm_compute; reflexivity|]);
      solve [left; reflexivity | right; eexists; reflexivity].
  - apply (proj2 (build_indices_lists_each_code_in_file_order
             [JObj [("notation", JStr "-09")];
              JObj [("id", JStr "T1:-09")]])).
    intros fields [E | [E | []]]; inversion E; subst;
      (eexists; split; [vm_compute; reflexivity|]);
      solve [left; reflexivity | right; eexists; reflexivity].
Defined.
